(** * Data-preparation pipeline for the pandemic study: a shallow embedding

    The pipeline is written over pandas data frames.  A frame is modelled as
    an ordered list of column names together with an ordered list of rows;
    every row carries its index label and one cell per column.  Numbers are
    exact rationals extended with the two infinities that a float division
    by zero produces; rounding and overflow of binary floats are outside the
    model.  NaN, None and NaT are one value, [NA].

    Conventions of the model:
    - column names of a frame are distinct, as in a frame read from a file;
      a column is looked up by the first position of its name; the index of
      a frame has no name;
    - a column holds cells of one kind; arithmetic and the median raise
      TypeError on text and dates;
    - sorting is stable and puts missing keys last;
    - an in-place [fillna] on a column of a frame changes the frame (pandas
      without copy-on-write, which is what the code relies on);
    - logging is not modelled: it does not change any table.

    Where pandas does more than the model, the statements keep to what both
    do:
    - a sum or a product of finite numbers is finite in the model, while a
      binary float can overflow to an infinity; a value is stated to be
      finite only where the code replaces the infinities as its last step,
      and otherwise it is stated to be defined, or to be the result of the
      float operation;
    - on a column of Python objects pandas passes over a pair of operands
      one of which is missing, and it takes the median of a column of
      dates; the model raises TypeError for every text or date operand.
      Statements on when a function returns therefore say that it returns
      on columns of numbers, and which columns it needs in order to return;
    - the single-key sort of the integrator promises no order among rows of
      equal dates; a statement on the latest row of a country is made for
      a country whose latest date is the date of one row only;
    - the join raises MergeError when the suffixes make two column names
      collide, and ValueError when the two key columns are of different
      kinds; the model has neither error.  Statements on the join are
      about its result, when there is one. *)

From Stdlib Require Import List String Ascii ZArith QArith Qcanon Lia Bool.
From Stdlib Require Import Sorting.Sorted Sorting.Permutation.
From Stdlib Require Import Structures.OrdersEx.
Import ListNotations.
Local Open Scope string_scope.
Local Open Scope list_scope.

(** ** Cells *)

Module Cell.

(** A float: a finite value or one of the two infinities (NaN is [NA]). *)
Inductive number : Type :=
| Fin (q : Qc)
| PInf
| NInf.

Inductive cell : Type :=
| NA
| Num (x : number)
| Str (s : string)
| Date (d : Z).

Definition zero : cell := Num (Fin 0%Qc).

Definition isna (c : cell) : bool :=
  match c with NA => true | _ => false end.

Definition notna (c : cell) : bool := negb (isna c).

Definition is_inf (c : cell) : bool :=
  match c with Num PInf | Num NInf => true | _ => false end.

(** A cell that holds a finite number. *)
Definition is_finite (c : cell) : bool :=
  match c with Num (Fin _) => true | _ => false end.

(** A cell a numeric column may hold: a float or a missing value. *)
Definition is_numeric (c : cell) : bool :=
  match c with NA | Num _ => true | _ => false end.

Definition Qc_eqb (a b : Qc) : bool := Qeq_bool a b.

Definition number_eqb (x y : number) : bool :=
  match x, y with
  | Fin a, Fin b => Qc_eqb a b
  | PInf, PInf => true
  | NInf, NInf => true
  | _, _ => false
  end.

(** Equality of cells as [duplicated] sees it: two missing keys are equal. *)
Definition eqb (a b : cell) : bool :=
  match a, b with
  | NA, NA => true
  | Num x, Num y => number_eqb x y
  | Str s, Str t => String.eqb s t
  | Date d, Date e => Z.eqb d e
  | _, _ => false
  end.

Definition number_leb (x y : number) : bool :=
  match x, y with
  | NInf, _ => true
  | _, PInf => true
  | Fin a, Fin b => Qle_bool a b
  | _, _ => false
  end.

Definition string_leb (s t : string) : bool :=
  match String_as_OT.compare s t with Gt => false | _ => true end.

(** The order [sort_values] uses, ascending with missing values last
    ([na_position='last']).  A column holds cells of one kind; cells of
    different kinds are ordered by kind so that the order stays total. *)
Definition leb (a b : cell) : bool :=
  match a, b with
  | _, NA => true
  | NA, _ => false
  | Num x, Num y => number_leb x y
  | Num _, _ => true
  | Str _, Num _ => false
  | Str s, Str t => string_leb s t
  | Str _, Date _ => true
  | Date d, Date e => Z.leb d e
  | Date _, _ => false
  end.

(** Keys are compared lexicographically, column by column. *)
Fixpoint key_leb (k1 k2 : list cell) : bool :=
  match k1, k2 with
  | [], _ => true
  | _ :: _, [] => false
  | a :: k1', b :: k2' => if eqb a b then key_leb k1' k2' else leb a b
  end.

Fixpoint key_eqb (k1 k2 : list cell) : bool :=
  match k1, k2 with
  | [], [] => true
  | a :: k1', b :: k2' => eqb a b && key_eqb k1' k2'
  | _, _ => false
  end.

(** *** Float arithmetic on cells

    [None] is the TypeError pandas raises when an operand is text or a
    date; a missing operand gives a missing result.  (A text operand
    paired with a missing one raises here too; pandas passes over such a
    pair on a column of objects.)  Finite operands give the exact result:
    the overflow of a binary float to an infinity is not modelled. *)

Definition sign_pos (q : Qc) : bool := negb (Qle_bool q 0).
Definition is_zero (q : Qc) : bool := Qc_eqb q 0%Qc.

Definition number_neg (x : number) : number :=
  match x with Fin a => Fin (- a)%Qc | PInf => NInf | NInf => PInf end.

Definition number_add (x y : number) : cell :=
  match x, y with
  | Fin a, Fin b => Num (Fin (a + b)%Qc)
  | PInf, NInf | NInf, PInf => NA
  | PInf, _ | _, PInf => Num PInf
  | NInf, _ | _, NInf => Num NInf
  end.

Definition number_sub (x y : number) : cell := number_add x (number_neg y).

(** The infinity with the sign of [q] times the sign [pos]. *)
Definition signed_inf (pos : bool) (q : Qc) : number :=
  if Bool.eqb pos (sign_pos q) then PInf else NInf.

Definition number_mul (x y : number) : cell :=
  match x, y with
  | Fin a, Fin b => Num (Fin (a * b)%Qc)
  | Fin a, PInf | PInf, Fin a =>
      if is_zero a then NA else Num (signed_inf true a)
  | Fin a, NInf | NInf, Fin a =>
      if is_zero a then NA else Num (signed_inf false a)
  | PInf, PInf | NInf, NInf => Num PInf
  | PInf, NInf | NInf, PInf => Num NInf
  end.

Definition number_div (x y : number) : cell :=
  match x, y with
  | Fin a, Fin b =>
      if is_zero b then (if is_zero a then NA else Num (signed_inf true a))
      else Num (Fin (a / b)%Qc)
  | Fin _, _ => Num (Fin 0%Qc)
  | PInf, Fin b => Num (if Qle_bool 0 b then PInf else NInf)
  | NInf, Fin b => Num (if Qle_bool 0 b then NInf else PInf)
  | _, _ => NA
  end.

Definition arith (op : number -> number -> cell) (a b : cell) : option cell :=
  match a, b with
  | Num x, Num y => Some (op x y)
  | NA, Num _ | Num _, NA | NA, NA => Some NA
  | _, _ => None
  end.

Definition add := arith number_add.
Definition sub := arith number_sub.
Definition mul := arith number_mul.
Definition div := arith number_div.

(** [Series.fillna(v)] on one cell. *)
Definition fillna (v c : cell) : cell := if isna c then v else c.

(** [Series.replace([np.inf, -np.inf], 0)] on one cell. *)
Definition replace_inf (c : cell) : cell := if is_inf c then zero else c.

End Cell.

Import Cell.

(** ** Errors *)

(** The exceptions the pipeline can raise.  The validators raise
    [ValueError] with one of two messages; indexing an absent column
    raises [KeyError]; arithmetic on text raises [TypeError]. *)
Inductive error : Type :=
| ValueError_empty
| ValueError_missing (cols : list string)
| KeyError (col : string)
| TypeError.

Inductive result (A : Type) : Type :=
| Ok (a : A)
| Err (e : error).
Arguments Ok {A} a.
Arguments Err {A} e.

Definition bind {A B : Type} (m : result A) (f : A -> result B) : result B :=
  match m with Ok a => f a | Err e => Err e end.

Declare Scope result_scope.
Delimit Scope result_scope with result.
Notation "x <- m ;; k" := (bind m (fun x => k))
  (at level 61, m at next level, right associativity) : result_scope.
Local Open Scope result_scope.

Definition is_ValueError (e : error) : bool :=
  match e with ValueError_empty | ValueError_missing _ => true | _ => false end.

Definition of_option {A : Type} (e : error) (o : option A) : result A :=
  match o with Some a => Ok a | None => Err e end.

Fixpoint mapM {A B : Type} (f : A -> result B) (l : list A) : result (list B) :=
  match l with
  | [] => Ok []
  | a :: l' => b <- f a ;; bs <- mapM f l' ;; Ok (b :: bs)
  end.

(** ** Frames *)

Record row : Type := mkRow { label : Z; cells : list cell }.

Record frame : Type := mkFrame { columns : list string; rows : list row }.

(** Every row has one cell per column. *)
Definition wf (df : frame) : Prop :=
  Forall (fun r => List.length (cells r) = List.length (columns df)) (rows df).

Fixpoint index_of (name : string) (cols : list string) : option nat :=
  match cols with
  | [] => None
  | c :: cs => if String.eqb name c then Some 0%nat
               else option_map S (index_of name cs)
  end.

(** [col in df.columns] *)
Definition has_column (name : string) (df : frame) : bool :=
  existsb (String.eqb name) (columns df).

(** Position of a column that is indexed directly: [df[col]]. *)
Definition column_index (name : string) (df : frame) : result nat :=
  of_option (KeyError name) (index_of name (columns df)).

Definition get (j : nat) (r : row) : cell := nth j (cells r) NA.

(** The values of the column at position [j], top to bottom. *)
Definition column_at (j : nat) (rs : list row) : list cell := map (get j) rs.

Definition row_key (idxs : list nat) (r : row) : list cell :=
  map (fun j => get j r) idxs.

(** [df.empty]: no rows or no columns. *)
Definition empty (df : frame) : bool :=
  match rows df, columns df with
  | [], _ => true
  | _, [] => true
  | _, _ => false
  end.

(** [drop_duplicates(subset=..., keep="last")] on the rows: a row stays
    when no later row has its key. *)
Fixpoint drop_duplicates_last (idxs : list nat) (rs : list row) : list row :=
  match rs with
  | [] => []
  | r :: rs' =>
      if existsb (fun r' => key_eqb (row_key idxs r) (row_key idxs r')) rs'
      then drop_duplicates_last idxs rs'
      else r :: drop_duplicates_last idxs rs'
  end.

Definition row_leb (idxs : list nat) (r1 r2 : row) : bool :=
  key_leb (row_key idxs r1) (row_key idxs r2).

(** [sort_values]: a stable sort by key.  pandas sorts several keys with a
    stable lexsort.  Its single-key sort, which the integrator uses, is a
    quicksort that promises no order among rows of equal keys; it is
    modelled by the same stable sort, and the two agree on the order of
    rows whose keys differ. *)
Fixpoint insert_row (idxs : list nat) (r : row) (rs : list row) : list row :=
  match rs with
  | [] => [r]
  | r' :: rs' => if row_leb idxs r r' then r :: r' :: rs'
                 else r' :: insert_row idxs r rs'
  end.

Fixpoint sort_rows (idxs : list nat) (rs : list row) : list row :=
  match rs with
  | [] => []
  | r :: rs' => insert_row idxs r (sort_rows idxs rs')
  end.

Fixpoint relabel (n : Z) (rs : list row) : list row :=
  match rs with
  | [] => []
  | r :: rs' => mkRow n (cells r) :: relabel (n + 1) rs'
  end.

Definition key_indices (subset : list string) (df : frame) : result (list nat) :=
  mapM (fun c => column_index c df) subset.

Definition drop_duplicates (subset : list string) (df : frame) : result frame :=
  idxs <- key_indices subset df ;;
  Ok (mkFrame (columns df) (drop_duplicates_last idxs (rows df))).

Definition sort_values (by_cols : list string) (df : frame) : result frame :=
  idxs <- key_indices by_cols df ;;
  Ok (mkFrame (columns df) (sort_rows idxs (rows df))).

(** [reset_index(drop=True)] *)
Definition reset_index_drop (df : frame) : frame :=
  mkFrame (columns df) (relabel 0 (rows df)).

(** ** Data engineering: the validators *)

Module DataEngineering.

(** The two validators of the source have the same body up to the list of
    required columns and the wording of their messages. *)
Section Validate.
Variable required_cols : list string.

Definition load_and_validate (df : frame) : result frame :=
  if empty df then Err ValueError_empty
  else
    let missing_cols :=
      filter (fun col => negb (has_column col df)) required_cols in
    match missing_cols with
    | _ :: _ => Err (ValueError_missing missing_cols)
    | [] =>
        df1 <- drop_duplicates ["country"; "date"] df ;;
        df2 <- sort_values ["country"; "date"] df1 ;;
        Ok (reset_index_drop df2)
    end.
End Validate.

Definition covid_required_cols : list string :=
  ["country"; "date"; "total_cases"].

Definition vaccination_required_cols : list string :=
  ["country"; "date"; "total_vaccinations"].

Definition load_and_validate_covid : frame -> result frame :=
  load_and_validate covid_required_cols.

Definition load_and_validate_vaccination : frame -> result frame :=
  load_and_validate vaccination_required_cols.

End DataEngineering.

(** ** Column-wise operations on frames *)

Fixpoint update {A : Type} (j : nat) (f : A -> A) (l : list A) : list A :=
  match l, j with
  | [], _ => []
  | a :: l', O => f a :: l'
  | a :: l', S j' => a :: update j' f l'
  end.

(** A series is the list of its values; its index is that of the frame it
    was taken from. *)
Definition series : Type := list cell.

(** [df[col]] *)
Definition getitem (col : string) (df : frame) : result series :=
  j <- column_index col df ;; Ok (column_at j (rows df)).

(** [df[col] = s] for a series [s] over the index of [df]: an existing
    column is overwritten in place, a new one is appended on the right. *)
Definition setitem (col : string) (s : series) (df : frame) : frame :=
  match index_of col (columns df) with
  | Some j =>
      mkFrame (columns df)
        (map (fun rv => mkRow (label (fst rv))
                          (update j (fun _ => snd rv) (cells (fst rv))))
             (combine (rows df) s))
  | None =>
      mkFrame (columns df ++ [col])
        (map (fun rv => mkRow (label (fst rv)) (cells (fst rv) ++ [snd rv]))
             (combine (rows df) s))
  end.

(** Element-wise arithmetic of two series over one index. *)
Definition series_op (op : cell -> cell -> option cell) (a b : series)
  : result series :=
  mapM (fun xy => of_option TypeError (op (fst xy) (snd xy))) (combine a b).

(** Arithmetic of a series with a scalar on the right. *)
Definition series_scalar (op : cell -> cell -> option cell) (a : series)
  (k : cell) : result series :=
  mapM (fun x => of_option TypeError (op x k)) a.

(** [df[col].fillna(value, inplace=True)], which writes through to the
    column of [df]. *)
Definition fillna_at (j : nat) (value : cell) (rs : list row) : list row :=
  map (fun r => mkRow (label r) (update j (fillna value) (cells r))) rs.

Definition fillna_inplace (col : string) (value : cell) (df : frame)
  : result frame :=
  j <- column_index col df ;;
  Ok (mkFrame (columns df) (fillna_at j value (rows df))).

(** *** Median of a series, missing values skipped *)

Fixpoint insert_number (x : number) (l : list number) : list number :=
  match l with
  | [] => [x]
  | y :: l' => if number_leb x y then x :: y :: l' else y :: insert_number x l'
  end.

Fixpoint sort_numbers (l : list number) : list number :=
  match l with
  | [] => []
  | x :: l' => insert_number x (sort_numbers l')
  end.

(** The non-missing values of a numeric series; text or dates raise.
    (pandas takes the median of a column of dates; the median-fill
    columns of the pipeline are columns of numbers.) *)
Fixpoint valid_numbers (s : series) : result (list number) :=
  match s with
  | [] => Ok []
  | NA :: s' => valid_numbers s'
  | Num x :: s' => xs <- valid_numbers s' ;; Ok (x :: xs)
  | _ :: _ => Err TypeError
  end.

Definition two : number := Fin (Q2Qc 2).

Definition median_of_sorted (xs : list number) : cell :=
  let n := List.length xs in
  match n with
  | O => NA
  | _ =>
      if Nat.odd n then Num (nth (n / 2) xs PInf)
      else
        match number_add (nth (n / 2 - 1) xs PInf) (nth (n / 2) xs PInf) with
        | Num s => number_div s two
        | c => c
        end
  end.

(** [Series.median()] *)
Definition median (s : series) : result cell :=
  xs <- valid_numbers s ;; Ok (median_of_sorted (sort_numbers xs)).

(** *** Grouped difference: [groupby(key)[col].diff()]

    One pass over the rows in frame order; [seen] holds, for every group
    met so far, the value of its latest row.  Rows whose key is missing
    belong to no group. *)

Fixpoint lookup (k : cell) (seen : list (cell * cell)) : option cell :=
  match seen with
  | [] => None
  | (k', v) :: seen' => if eqb k k' then Some v else lookup k seen'
  end.

Fixpoint groupby_diff_from (seen : list (cell * cell))
  (keys vals : series) : result series :=
  match keys, vals with
  | k :: keys', v :: vals' =>
      let shifted :=
        if isna k then NA
        else match lookup k seen with Some p => p | None => NA end in
      d <- of_option TypeError (sub v shifted) ;;
      ds <- groupby_diff_from (if isna k then seen else (k, v) :: seen)
              keys' vals' ;;
      Ok (d :: ds)
  | _, _ => Ok []
  end.

Definition groupby_diff (keys vals : series) : result series :=
  groupby_diff_from [] keys vals.

(** *** Last entry per group: [groupby(key).last().reset_index()]

    [last] takes, column by column, the last entry of the group that is
    not missing.  Groups come out in ascending key order, rows with a
    missing key are left out, and the key becomes the first column. *)

Fixpoint uniq (l : list cell) : list cell :=
  match l with
  | [] => []
  | a :: l' => a :: filter (fun b => negb (eqb a b)) (uniq l')
  end.

Fixpoint insert_cell (x : cell) (l : list cell) : list cell :=
  match l with
  | [] => [x]
  | y :: l' => if leb x y then x :: y :: l' else y :: insert_cell x l'
  end.

Fixpoint sort_cells (l : list cell) : list cell :=
  match l with
  | [] => []
  | x :: l' => insert_cell x (sort_cells l')
  end.

Definition group_keys (jk : nat) (rs : list row) : list cell :=
  uniq (sort_cells (filter notna (column_at jk rs))).

Fixpoint last_valid (s : series) : cell :=
  match s with
  | [] => NA
  | c :: s' => match last_valid s' with NA => c | v => v end
  end.

Fixpoint remove_at {A : Type} (j : nat) (l : list A) : list A :=
  match l, j with
  | [], _ => []
  | _ :: l', O => l'
  | a :: l', S j' => a :: remove_at j' l'
  end.

Definition other_positions (jk ncols : nat) : list nat :=
  filter (fun j => negb (Nat.eqb j jk)) (seq 0 ncols).

Definition groupby_last (key : string) (df : frame) : result frame :=
  jk <- column_index key df ;;
  let others := other_positions jk (List.length (columns df)) in
  let group_row (k : cell) : row :=
    let members := filter (fun r => eqb (get jk r) k) (rows df) in
    mkRow 0 (k :: map (fun j => last_valid (column_at j members)) others) in
  Ok (mkFrame (key :: remove_at jk (columns df))
        (relabel 0 (map group_row (group_keys jk (rows df))))).

(** *** Left join on one key: [left.merge(right, on=key, how="left",
    suffixes=(ls, rs))]

    The result of the join.  pandas raises MergeError instead when the
    suffixes make two column names of one side collide, and ValueError when
    one key column holds text and the other numbers; neither error is
    modelled. *)

Definition mem (c : string) (l : list string) : bool :=
  existsb (String.eqb c) l.

Definition merge_left (key ls rs : string) (left right : frame)
  : result frame :=
  jl <- column_index key left ;;
  jr <- column_index key right ;;
  let left_names :=
    map (fun c => if negb (String.eqb c key) && mem c (columns right)
                  then String.append c ls else c) (columns left) in
  let right_names :=
    map (fun c => if mem c (columns left) then String.append c rs else c)
        (remove_at jr (columns right)) in
  let width := List.length (remove_at jr (columns right)) in
  let joined (l : row) : list row :=
    match filter (fun r => eqb (get jl l) (get jr r)) (rows right) with
    | [] => [mkRow 0 (cells l ++ repeat NA width)]
    | ms => map (fun r => mkRow 0 (cells l ++ remove_at jr (cells r))) ms
    end in
  Ok (mkFrame (left_names ++ right_names)
        (relabel 0 (flat_map joined (rows left)))).

(** [df[names]] for a list of names. *)
Definition getitem_list (names : list string) (df : frame) : result frame :=
  idxs <- key_indices names df ;;
  Ok (mkFrame names
        (map (fun r => mkRow (label r) (row_key idxs r)) (rows df))).

(** [df.dropna()]: rows with a missing cell are dropped, labels are kept. *)
Definition dropna (df : frame) : frame :=
  mkFrame (columns df) (filter (fun r => forallb notna (cells r)) (rows df)).

(** ** Data cleaning: selection, imputation, features, integration, split *)

Module DataCleaning.

Definition covid_cols : list string :=
  ["country"; "date"; "total_cases"; "new_cases"; "total_deaths";
   "new_deaths"; "total_cases_per_million"; "total_deaths_per_million";
   "population"; "population_density"; "median_age"; "gdp_per_capita";
   "hospital_beds_per_thousand"; "life_expectancy";
   "human_development_index"].

Definition vacc_cols : list string :=
  ["country"; "date"; "total_vaccinations"; "people_vaccinated";
   "people_fully_vaccinated"; "total_vaccinations_per_hundred";
   "people_vaccinated_per_hundred"; "people_fully_vaccinated_per_hundred"].

(** [[col for col in cols if col in df.columns]] *)
Definition available (cols : list string) (df : frame) : list string :=
  filter (fun col => has_column col df) cols.

Definition select_important_columns (covid_df vacc_df : frame)
  : result (frame * frame) :=
  covid_clean <- getitem_list (available covid_cols covid_df) covid_df ;;
  vacc_clean <- getitem_list (available vacc_cols vacc_df) vacc_df ;;
  Ok (covid_clean, vacc_clean).

(** *** Imputer *)

Definition covid_strategies : list (string * cell) :=
  [("total_cases", zero); ("new_cases", zero); ("total_deaths", zero);
   ("new_deaths", zero); ("total_cases_per_million", zero);
   ("total_deaths_per_million", zero)].

Definition socio_cols : list string :=
  ["population_density"; "median_age"; "gdp_per_capita";
   "hospital_beds_per_thousand"; "life_expectancy";
   "human_development_index"].

(** [for col, value in strategies.items(): if col in df.columns: ...] *)
Fixpoint fill_values (strategies : list (string * cell)) (df : frame)
  : result frame :=
  match strategies with
  | [] => Ok df
  | (col, value) :: rest =>
      if has_column col df
      then df' <- fillna_inplace col value df ;; fill_values rest df'
      else fill_values rest df
  end.

(** [for col in cols: if col in df.columns:
       df[col].fillna(df[col].median(), inplace=True)] *)
Fixpoint fill_medians (cols : list string) (df : frame) : result frame :=
  match cols with
  | [] => Ok df
  | col :: rest =>
      if has_column col df
      then s <- getitem col df ;;
           m <- median s ;;
           df' <- fillna_inplace col m df ;;
           fill_medians rest df'
      else fill_medians rest df
  end.

(** [for col in cols: df[col].fillna(0, inplace=True)] *)
Fixpoint fill_zeros (cols : list string) (df : frame) : result frame :=
  match cols with
  | [] => Ok df
  | col :: rest => df' <- fillna_inplace col zero df ;; fill_zeros rest df'
  end.

Definition vacc_fill_cols (df : frame) : list string :=
  filter (fun col => negb (mem col ["country"; "date"])) (columns df).

Definition impute_missing_values (covid_df vacc_df : frame)
  : result (frame * frame) :=
  covid1 <- fill_values covid_strategies covid_df ;;
  covid_imputed <- fill_medians socio_cols covid1 ;;
  vacc_imputed <- fill_zeros (vacc_fill_cols vacc_df) vacc_df ;;
  Ok (covid_imputed, vacc_imputed).

(** *** Feature builder *)

Definition hundred : cell := Num (Fin (Q2Qc 100)).
Definition ten_thousand : cell := Num (Fin (Q2Qc 10000)).

(** [(total_deaths / total_cases * 100).replace([inf, -inf], 0).fillna(0)] *)
Definition death_rate (total_deaths total_cases : series) : result series :=
  ratio <- series_op div total_deaths total_cases ;;
  pct <- series_scalar mul ratio hundred ;;
  Ok (map (fillna zero) (map replace_inf pct)).

(** [(hospital_beds_per_thousand * gdp_per_capita / 10000).fillna(0)] *)
Definition healthcare_capacity_index (beds gdp : series) : result series :=
  prod <- series_op mul beds gdp ;;
  scaled <- series_scalar div prod ten_thousand ;;
  Ok (map (fillna zero) scaled).

(** [groupby("country")[...].diff().fillna(0)] *)
Definition vaccination_speed (country per_hundred : series) : result series :=
  d <- groupby_diff country per_hundred ;;
  Ok (map (fillna zero) d).

(** [(fully / vaccinated).replace([inf, -inf], 0).fillna(0) * 100] *)
Definition vaccination_efficiency (fully vaccinated : series)
  : result series :=
  ratio <- series_op div fully vaccinated ;;
  series_scalar mul (map (fillna zero) (map replace_inf ratio)) hundred.

(** The case/death statements of [create_features], in source order. *)
Definition covid_features_of (covid_df : frame) : result frame :=
  total_deaths <- getitem "total_deaths" covid_df ;;
  total_cases <- getitem "total_cases" covid_df ;;
  dr <- death_rate total_deaths total_cases ;;
  let covid1 := setitem "death_rate" dr covid_df in
  if has_column "hospital_beds_per_thousand" covid1
     && has_column "gdp_per_capita" covid1
  then
    beds <- getitem "hospital_beds_per_thousand" covid1 ;;
    gdp <- getitem "gdp_per_capita" covid1 ;;
    hci <- healthcare_capacity_index beds gdp ;;
    Ok (setitem "healthcare_capacity_index" hci covid1)
  else Ok covid1.

(** The vaccination statements of [create_features], in source order. *)
Definition vacc_features_of (vacc_df : frame) : result frame :=
  country <- getitem "country" vacc_df ;;
  per_hundred <- getitem "people_vaccinated_per_hundred" vacc_df ;;
  speed <- vaccination_speed country per_hundred ;;
  let vacc1 := setitem "vaccination_speed" speed vacc_df in
  fully <- getitem "people_fully_vaccinated" vacc1 ;;
  vaccinated <- getitem "people_vaccinated" vacc1 ;;
  eff <- vaccination_efficiency fully vaccinated ;;
  Ok (setitem "vaccination_efficiency" eff vacc1).

Definition create_features (covid_df vacc_df : frame)
  : result (frame * frame) :=
  covid_features <- covid_features_of covid_df ;;
  vacc_features <- vacc_features_of vacc_df ;;
  Ok (covid_features, vacc_features).

(** *** Integrator *)

(** [df.sort_values("date").groupby("country").last().reset_index()] *)
Definition latest_per_country (df : frame) : result frame :=
  sorted <- sort_values ["date"] df ;;
  groupby_last "country" sorted.

Definition integrate_datasets (covid_df vacc_df : frame) : result frame :=
  covid_latest <- latest_per_country covid_df ;;
  vacc_latest <- latest_per_country vacc_df ;;
  merge_left "country" "_covid" "_vacc" covid_latest vacc_latest.

(** *** Dataset splitter *)

Definition regression_cols : list string :=
  ["country"; "gdp_per_capita"; "hospital_beds_per_thousand";
   "population_density"; "median_age"; "healthcare_capacity_index";
   "people_fully_vaccinated_per_hundred"; "vaccination_speed"].

Definition classification_cols : list string :=
  ["country"; "total_deaths_per_million"; "gdp_per_capita";
   "hospital_beds_per_thousand"; "human_development_index"; "death_rate";
   "healthcare_capacity_index"].

Definition create_ml_datasets (integrated_df : frame)
  : result (frame * frame) :=
  reg <- getitem_list (available regression_cols integrated_df)
           integrated_df ;;
  cls <- getitem_list (available classification_cols integrated_df)
           integrated_df ;;
  Ok (dropna reg, dropna cls).

End DataCleaning.

(** ** Vocabulary of the statements *)

(** The cell of row [r] under column [name] of a frame with columns [cols]. *)
Definition cell_of (cols : list string) (name : string) (r : row) : cell :=
  match index_of name cols with Some j => get j r | None => NA end.

(** The (country, date) key of a row. *)
Definition country_date (cols : list string) (r : row) : list cell :=
  [cell_of cols "country" r; cell_of cols "date" r].

(** [r] occurs in [rs] and no row after it has its key. *)
Definition last_occurrence (key : row -> list cell) (r : row)
  (rs : list row) : Prop :=
  exists pre post,
    rs = pre ++ r :: post /\ Forall (fun x => key x <> key r) post.

(** What a validated frame [out] owes to the raw frame [df]: one row per
    (country, date) key of [df], that row being the last of its key in
    [df], rows ascending by key, labels 0, 1, 2, ... *)
Definition validated (df out : frame) : Prop :=
  let key := country_date (columns df) in
  columns out = columns df /\
  NoDup (map key (rows out)) /\
  (forall r, In r (rows df) ->
     exists r', In r' (rows out) /\ key r' = key r) /\
  (forall r', In r' (rows out) ->
     exists r, cells r = cells r' /\ last_occurrence key r (rows df)) /\
  StronglySorted (fun a b => key_leb (key a) (key b) = true) (rows out) /\
  map label (rows out) =
  map Z.of_nat (seq 0 (List.length (rows out))).

(** ** Example frames *)

(** An integer as a cell. *)
Definition num (z : Z) : cell := Num (Fin (Q2Qc (inject_Z z))).

(** Three case/death observations of country X, the first two for the same
    day. *)
Definition covid_raw_example : frame :=
  mkFrame ["country"; "date"; "total_cases"; "total_deaths"]
    [mkRow 0 [Str "X"; Date 1; num 10; num 1];
     mkRow 1 [Str "X"; Date 1; num 12; num 1];
     mkRow 2 [Str "X"; Date 2; num 20; num 2]].

(** ** Vocabulary of the imputer statements *)

(** No cell of the frame is missing. *)
Definition no_missing (df : frame) : Prop :=
  Forall (fun r => Forall (fun c => c <> NA) (cells r)) (rows df).

(** Row [r'] keeps the label, the width and every non-missing cell of [r]. *)
Definition row_kept (r r' : row) : Prop :=
  label r' = label r /\
  Forall2 (fun c c' => c <> NA -> c' = c) (cells r) (cells r').

(** Frame [df'] has the columns of [df] and, row by row in the same order,
    the labels and the non-missing cells of [df]. *)
Definition frame_kept (df df' : frame) : Prop :=
  columns df' = columns df /\ Forall2 row_kept (rows df) (rows df').

(** The columns named in [cols] that the frame has hold numbers or missing
    values only. *)
Definition numeric_columns (cols : list string) (df : frame) : Prop :=
  forall col j, In col cols -> index_of col (columns df) = Some j ->
    Forall (fun c => is_numeric c = true) (column_at j (rows df)).

(** A country with a median-fill column that is partly missing, and one
    that is entirely missing. *)
Definition covid_selected_example : frame :=
  mkFrame ["country"; "date"; "total_cases"; "median_age"; "gdp_per_capita"]
    [mkRow 0 [Str "X"; Date 1; NA; num 30; NA];
     mkRow 1 [Str "X"; Date 2; num 5; NA; NA];
     mkRow 2 [Str "Y"; Date 1; num 7; num 40; NA]].

Definition vacc_selected_example : frame :=
  mkFrame ["country"; "date"; "total_vaccinations";
           "people_vaccinated_per_hundred"]
    [mkRow 0 [Str "X"; Date 1; num 3; NA];
     mkRow 1 [Str "X"; Date 2; NA; num 8]].

(** Frames without missing values. *)
Definition covid_complete_example : frame :=
  mkFrame ["country"; "date"; "total_cases"; "median_age"]
    [mkRow 0 [Str "X"; Date 1; num 10; num 30];
     mkRow 1 [Str "Y"; Date 1; num 12; num 40]].

Definition vacc_complete_example : frame :=
  mkFrame ["country"; "date"; "total_vaccinations"]
    [mkRow 0 [Str "X"; Date 1; num 3];
     mkRow 1 [Str "Y"; Date 1; num 4]].

(** The result of the imputer on the two example frames. *)
Definition imputed_example : frame * frame :=
  match DataCleaning.impute_missing_values
          covid_selected_example vacc_selected_example with
  | Ok p => p
  | Err _ => (covid_selected_example, vacc_selected_example)
  end.

(** ** Vocabulary of the splitter statements *)

(** The row [r] of a frame with columns [cols], restricted to the columns
    [names], label kept. *)
Definition project (cols names : list string) (r : row) : row :=
  mkRow (label r) (map (fun c => cell_of cols c r) names).

(** The row has no missing cell. *)
Definition complete (r : row) : bool := forallb notna (cells r).

(** What one output of the splitter owes to the snapshot [df] and its
    allow-list: the allow-listed columns that [df] has, in allow-list
    order, and of the rows of [df] restricted to them, in order, those
    without a missing cell. *)
Definition split_of (allow : list string) (df out : frame) : Prop :=
  columns out = filter (fun c => mem c (columns df)) allow /\
  rows out =
    filter complete (map (project (columns df) (columns out)) (rows df)) /\
  no_missing out.

(** ** Vocabulary of the feature statements *)

(** The value of the last row of the series [vals] whose key in [keys] is
    [k]; [None] when there is no such row. *)
Fixpoint last_in_group (k : cell) (keys vals : series) : option cell :=
  match keys, vals with
  | k' :: ks, v' :: vs =>
      match last_in_group k ks vs with
      | Some p => Some p
      | None => if eqb k k' then Some v' else None
      end
  | _, _ => None
  end.

(** The previous observation of the group of row [i]: the value of the
    latest row before [i] with the key [k] of row [i].  A row with a
    missing key has none. *)
Definition previous_observation (keys vals : series) (i : nat) (k : cell)
  : option cell :=
  if isna k then None
  else last_in_group k (firstn i keys) (firstn i vals).

(** Four vaccination observations of country Y. *)
Definition vacc_imputed_example : frame :=
  mkFrame ["country"; "date"; "people_vaccinated_per_hundred";
           "people_fully_vaccinated"; "people_vaccinated"]
    [mkRow 0 [Str "Y"; Date 1; num 5; num 0; num 0];
     mkRow 1 [Str "Y"; Date 2; num 8; num 1; num 2];
     mkRow 2 [Str "Y"; Date 3; num 8; num 3; num 0];
     mkRow 3 [Str "Y"; Date 4; num 15; num 3; num 4]].

(** Case/death observations with a zero denominator. *)
Definition covid_imputed_example : frame :=
  mkFrame ["country"; "date"; "total_cases"; "total_deaths";
           "hospital_beds_per_thousand"; "gdp_per_capita"]
    [mkRow 0 [Str "X"; Date 1; num 0; num 0; num 2; num 30000];
     mkRow 1 [Str "X"; Date 2; num 0; num 3; NA; num 30000];
     mkRow 2 [Str "X"; Date 3; num 12; num 1; num 2; num 30000]].

(** The result of the feature builder on the two example frames. *)
Definition features_example : frame * frame :=
  match DataCleaning.create_features
          covid_imputed_example vacc_imputed_example with
  | Ok p => p
  | Err _ => (covid_imputed_example, vacc_imputed_example)
  end.

(** The entries of [out] are related by [R] to the entries of [a] and [b]
    at the same position. *)
Definition pointwise (R : cell -> cell -> cell -> Prop) (a b out : series)
  : Prop :=
  List.length out = List.length a /\
  forall i x y,
    nth_error a i = Some x -> nth_error b i = Some y ->
    exists r, nth_error out i = Some r /\ R x y r.

(** [r] is a ratio with denominator [d], made safe: a finite number
    whatever the operands are, and 0 when the denominator is 0. *)
Definition safe_ratio (n d r : cell) : Prop :=
  is_finite r = true /\ (d = zero -> r = zero).

(** [r] is a safe ratio with denominator [d] that is scaled after it was
    made safe: it is not missing, and it is 0 when the denominator is 0.
    Whether the scaled value is finite is left to the float
    multiplication. *)
Definition scaled_safe_ratio (n d r : cell) : Prop :=
  r <> NA /\ (d = zero -> r = zero).

(** [r] is a product with missing results mapped to 0: it is not missing. *)
Definition filled_product (b g r : cell) : Prop := r <> NA.

(** A case/death observation whose hospital-bed figure is infinite. *)
Definition covid_infinite_example : frame :=
  mkFrame ["country"; "date"; "total_cases"; "total_deaths";
           "hospital_beds_per_thousand"; "gdp_per_capita"]
    [mkRow 0 [Str "X"; Date 1; num 10; num 1; Num PInf; num 30000]].

(** A validated case/death frame without the optional column
    total_deaths. *)
Definition covid_no_deaths_example : frame :=
  mkFrame ["country"; "date"; "total_cases"]
    [mkRow 0 [Str "X"; Date 1; num 10]].

(** Two case/death observations of country X; the later one has no
    population figure (the imputer does not fill that column). *)
Definition covid_features_example : frame :=
  mkFrame ["country"; "date"; "total_cases"; "population"]
    [mkRow 0 [Str "X"; Date 1; num 10; num 5];
     mkRow 1 [Str "X"; Date 2; num 20; NA]].

Definition vacc_features_example : frame :=
  mkFrame ["country"; "date"; "total_vaccinations"]
    [mkRow 0 [Str "X"; Date 1; num 7]].

(** The chronologically last row of a country: the last row, in date
    order, among the rows whose country is [k]. *)
Definition last_row_of (k : cell) (df : frame) : option row :=
  match index_of "country" (columns df), index_of "date" (columns df) with
  | Some jc, Some jd =>
      List.last (map Some (filter (fun r => eqb (get jc r) k)
                    (sort_rows [jd] (rows df)))) None
  | _, _ => None
  end.

(** A raw frame with a missing column and one with no rows. *)
Definition covid_unsorted_example : frame :=
  mkFrame ["country"; "date"; "total_cases"]
    [mkRow 7 [Str "Y"; Date 2; num 4];
     mkRow 3 [Str "X"; Date 2; num 20];
     mkRow 9 [Str "X"; Date 1; num 10]].

(** The validated form of the raw example. *)
Definition covid_validated_example : frame :=
  match DataEngineering.load_and_validate_covid covid_raw_example with
  | Ok out => out
  | Err _ => covid_raw_example
  end.

Definition covid_sorted_example : frame :=
  match DataEngineering.load_and_validate_covid covid_unsorted_example with
  | Ok out => out
  | Err _ => covid_unsorted_example
  end.

(** ** Vocabulary of the column selector statements *)

(** What a selected frame [out] owes to [df] and the allow-list: it has
    the allow-listed columns that [df] has, in allow-list order, one cell
    per column in every row, the rows and labels of [df] in their order,
    and under every kept column the values [df] has under it. *)
Definition selection_of (allow : list string) (df out : frame) : Prop :=
  columns out = filter (fun c => mem c (columns df)) allow /\
  wf out /\
  map label (rows out) = map label (rows df) /\
  forall n j, index_of n (columns out) = Some j ->
    exists j0, index_of n (columns df) = Some j0 /\
               column_at j (rows out) = column_at j0 (rows df).

(** A validated frame with a column outside the allow-list. *)
Definition covid_wide_example : frame :=
  mkFrame ["iso_code"; "country"; "date"; "total_cases"; "median_age"]
    [mkRow 0 [Str "XXX"; Str "X"; Date 1; num 10; num 30];
     mkRow 1 [Str "XXX"; Str "X"; Date 2; NA; num 30]].

Definition vacc_wide_example : frame :=
  mkFrame ["country"; "date"; "total_vaccinations"; "source_url"]
    [mkRow 0 [Str "X"; Date 1; num 3; Str "u"]].

Definition selected_example : frame * frame :=
  match DataCleaning.select_important_columns
          covid_wide_example vacc_wide_example with
  | Ok p => p
  | Err _ => (covid_wide_example, vacc_wide_example)
  end.

(** A finite float. *)
Definition is_fin (x : number) : bool :=
  match x with Fin _ => true | _ => false end.

(** Some column of [cols] sits at position [j] of the frame. *)
Definition touches (j : nat) (cols : list string) (df : frame) : bool :=
  existsb (fun c => match index_of c (columns df) with
                    | Some j' => Nat.eqb j' j
                    | None => false
                    end) cols.

(** ** Vocabulary of the feature builder's success *)

(** The columns named in [cols] are columns of the frame. *)
Definition present (cols : list string) (df : frame) : Prop :=
  forall col, In col cols -> In col (columns df).

(** What the feature builder needs of its two inputs: the columns it
    indexes are there, and the columns it computes with hold numbers (the
    two sources of the capacity index only when both are there). *)
Definition features_ready (covid_df vacc_df : frame) : Prop :=
  present ["total_deaths"; "total_cases"] covid_df /\
  numeric_columns ["total_deaths"; "total_cases"] covid_df /\
  (In "hospital_beds_per_thousand" (columns covid_df) ->
   In "gdp_per_capita" (columns covid_df) ->
   numeric_columns ["hospital_beds_per_thousand"; "gdp_per_capita"]
     covid_df) /\
  present ["country"; "people_vaccinated_per_hundred";
           "people_fully_vaccinated"; "people_vaccinated"] vacc_df /\
  numeric_columns ["people_vaccinated_per_hundred";
                   "people_fully_vaccinated"; "people_vaccinated"] vacc_df.

(** ** Vocabulary of the integrator statements *)

(** What a row [o] of the join owes to the left row [l] it comes from:
    the cells of [l], then the cells of the right row with the key of [l]
    (its key left out), or missing values when there is no such row. *)
Definition joined_from (jl jr width : nat) (right_rows : list row)
  (l o : row) : Prop :=
  exists tail,
    cells o = cells l ++ tail /\
    ((~ In (get jl l) (column_at jr right_rows) /\ tail = repeat NA width) \/
     (exists r, In r right_rows /\ get jr r = get jl l /\
                tail = remove_at jr (cells r))).

(** Case/death observations of two countries, out of date order; the
    later row of X has no missing value.  Vaccination observations of X
    and of a country the case/death table does not have. *)
Definition covid_snapshot_example : frame :=
  mkFrame ["country"; "date"; "total_cases"; "population"]
    [mkRow 0 [Str "X"; Date 2; num 20; num 5];
     mkRow 1 [Str "X"; Date 1; num 10; NA];
     mkRow 2 [Str "Z"; Date 1; num 1; num 9]].

Definition vacc_snapshot_example : frame :=
  mkFrame ["country"; "date"; "total_vaccinations"]
    [mkRow 0 [Str "X"; Date 1; num 7];
     mkRow 1 [Str "W"; Date 1; num 2]].

(** The integrated table of the two examples. *)
Definition snapshot_example : frame :=
  match DataCleaning.integrate_datasets
          covid_snapshot_example vacc_snapshot_example with
  | Ok out => out
  | Err _ => covid_snapshot_example
  end.


(** Case/death features of two countries and vaccination features of one
    of them, the integrated table of the two and its split. *)
Definition covid_merge_example : frame :=
  mkFrame ["country"; "date"; "gdp_per_capita"]
    [mkRow 0 [Str "X"; Date 1; num 30000];
     mkRow 1 [Str "Z"; Date 1; num 20000]].

Definition vacc_merge_example : frame :=
  mkFrame ["country"; "date"; "vaccination_speed"]
    [mkRow 0 [Str "X"; Date 1; num 3]].

Definition merged_example : frame :=
  match DataCleaning.integrate_datasets
          covid_merge_example vacc_merge_example with
  | Ok out => out
  | Err _ => covid_merge_example
  end.

Definition split_example : frame * frame :=
  match DataCleaning.create_ml_datasets merged_example with
  | Ok p => p
  | Err _ => (merged_example, merged_example)
  end.


(** ** Vocabulary of the median-fill statement *)

(** [m] is the mean of the floats [a] and [b]: their sum, halved. *)
Definition mean_of (a b : number) (m : cell) : Prop :=
  exists s, add (Num a) (Num b) = Some s /\ div s (Num two) = Some m.

(** [m] is the middle of the ascending list [xs]: nothing when [xs] is
    empty, the entry with as many entries before it as after it when there
    is one, and otherwise the mean of the two entries that have as many
    entries before them as after them. *)
Definition middle_of (xs : list number) (m : cell) : Prop :=
  (xs = [] /\ m = NA) \/
  (exists l a r,
     xs = l ++ a :: r /\ List.length l = List.length r /\ m = Num a) \/
  (exists l a b r,
     xs = l ++ a :: b :: r /\ List.length l = List.length r /\
     mean_of a b m).

(** The median as the specification words it: [m] is the middle of the
    non-missing values of the series [s], put in ascending order. *)
Definition median_spec (s : series) (m : cell) : Prop :=
  exists xs,
    Permutation (map Num xs) (filter notna s) /\
    StronglySorted (fun x y => number_leb x y = true) xs /\
    middle_of xs m.

(** A magnitude that a binary float can hold twice over: the floats end
    just below 2^1024, so two floats of at most this magnitude have a sum
    that a float holds. *)
Definition half_range : Q := (2 ^ 1022)%Q.

(** A value of a column of numbers whose values can be added two by two
    without overflow: a missing value, an infinity, or a finite number of
    magnitude at most [half_range]. *)
Definition within_half_range (c : cell) : bool :=
  match c with
  | NA => true
  | Num (Fin q) => Qle_bool (- half_range) q && Qle_bool q half_range
  | Num _ => true
  | _ => false
  end.

(** The series [s'] is the series [s] with every missing value replaced by
    [m] and every other value kept. *)
Definition filled_with (m : cell) (s s' : series) : Prop :=
  Forall2 (fun c c' => (c = NA -> c' = m) /\ (c <> NA -> c' = c)) s s'.


(** Every row of [others] that has the country of [r] has a date strictly
    before the date of [r]. *)
Definition strictly_latest (jc jd : nat) (r : row) (others : list row)
  : Prop :=
  forall r', In r' others -> get jc r' = get jc r ->
    leb (get jd r') (get jd r) = true /\ get jd r' <> get jd r.


(** * Properties *)

(** ** Equality and order of cells *)

Lemma Qc_eqb_eq (a b : Qc) : Qc_eqb a b = true <-> a = b.
Proof.
  unfold Qc_eqb. rewrite Qeq_bool_iff. split.
  - apply Qc_is_canon.
  - intros ->. reflexivity.
Qed.

Lemma number_eqb_eq (x y : number) : number_eqb x y = true <-> x = y.
Proof.
  destruct x, y; simpl; try (split; [discriminate | congruence]);
    try (split; reflexivity).
  rewrite Qc_eqb_eq. split; congruence.
Qed.

Lemma eqb_eq (a b : cell) : eqb a b = true <-> a = b.
Proof.
  destruct a, b; simpl; try (split; [discriminate | congruence]).
  - split; reflexivity.
  - rewrite number_eqb_eq. split; congruence.
  - rewrite String.eqb_eq. split; congruence.
  - rewrite Z.eqb_eq. split; congruence.
Qed.

Lemma eqb_refl (a : cell) : eqb a a = true.
Proof. apply eqb_eq. reflexivity. Qed.

Lemma eqb_neq (a b : cell) : eqb a b = false <-> a <> b.
Proof.
  rewrite <- eqb_eq. destruct (eqb a b); split; congruence.
Qed.

Lemma eqb_sym (a b : cell) : eqb a b = eqb b a.
Proof.
  destruct (eqb a b) eqn:E; symmetry.
  - apply eqb_eq in E. subst. apply eqb_refl.
  - apply eqb_neq. apply eqb_neq in E. congruence.
Qed.

(** Series that agree entry by entry are equal. *)
Lemma series_eqb_eq (a b : list cell) :
  Forall2 (fun x y => eqb x y = true) a b -> a = b.
Proof.
  induction 1 as [|x y a b E _ IH]; [reflexivity|].
  apply eqb_eq in E. congruence.
Qed.

Lemma key_eqb_eq (k1 k2 : list cell) : key_eqb k1 k2 = true <-> k1 = k2.
Proof.
  revert k2. induction k1 as [|a k1 IH]; intros [|b k2]; simpl;
    try (split; [discriminate | congruence]).
  - split; reflexivity.
  - rewrite andb_true_iff, eqb_eq, IH. split.
    + intros [-> ->]. reflexivity.
    + intros E. injection E as -> ->. auto.
Qed.

Lemma key_eqb_refl (k : list cell) : key_eqb k k = true.
Proof. apply key_eqb_eq. reflexivity. Qed.

Lemma key_eqb_neq (k1 k2 : list cell) : key_eqb k1 k2 = false <-> k1 <> k2.
Proof.
  rewrite <- key_eqb_eq. destruct (key_eqb k1 k2); split; congruence.
Qed.

Section CellOrder.

Lemma number_leb_total (x y : number) :
  number_leb x y = true \/ number_leb y x = true.
Proof.
  destruct x, y; simpl; auto.
  rewrite !Qle_bool_iff.
  destruct (Qlt_le_dec q q0) as [H|H]; auto using Qlt_le_weak.
Qed.

Lemma number_leb_trans (x y z : number) :
  number_leb x y = true -> number_leb y z = true -> number_leb x z = true.
Proof.
  destruct x, y, z; simpl; auto; try discriminate.
  rewrite !Qle_bool_iff. apply Qle_trans.
Qed.

Lemma number_leb_antisym (x y : number) :
  number_leb x y = true -> number_leb y x = true -> x = y.
Proof.
  destruct x, y; simpl; auto; try discriminate.
  rewrite !Qle_bool_iff. intros H1 H2. f_equal.
  apply Qc_is_canon. apply Qle_antisym; assumption.
Qed.

Lemma string_leb_total (s t : string) :
  string_leb s t = true \/ string_leb t s = true.
Proof.
  unfold string_leb.
  destruct (String_as_OT.compare_spec s t) as [E|L|L]; auto.
  right. destruct (String_as_OT.compare_spec t s) as [E'|L'|L']; auto.
  exfalso. apply (StrictOrder_Irreflexive s).
  exact (StrictOrder_Transitive _ _ _ L' L).
Qed.

Lemma string_leb_spec (s t : string) :
  string_leb s t = true <-> String_as_OT.lt s t \/ s = t.
Proof.
  unfold string_leb.
  destruct (String_as_OT.compare_spec s t) as [E|L|L].
  - split; auto.
  - split; auto.
  - split; [discriminate|]. intros [L'| ->]; exfalso.
    + apply (StrictOrder_Irreflexive s).
      exact (StrictOrder_Transitive _ _ _ L' L).
    + exact (StrictOrder_Irreflexive _ L).
Qed.

Lemma string_leb_trans (s t u : string) :
  string_leb s t = true -> string_leb t u = true -> string_leb s u = true.
Proof.
  rewrite !string_leb_spec. intros [L1| ->] [L2| ->]; auto.
  left. exact (StrictOrder_Transitive _ _ _ L1 L2).
Qed.

Lemma string_leb_antisym (s t : string) :
  string_leb s t = true -> string_leb t s = true -> s = t.
Proof.
  rewrite !string_leb_spec. intros [L1| ->] [L2| E]; auto.
  exfalso. apply (StrictOrder_Irreflexive s).
  exact (StrictOrder_Transitive _ _ _ L1 L2).
Qed.

Lemma leb_total (a b : cell) : leb a b = true \/ leb b a = true.
Proof.
  destruct a, b; simpl; auto.
  - apply number_leb_total.
  - apply string_leb_total.
  - rewrite !Z.leb_le. lia.
Qed.

Lemma leb_trans (a b c : cell) :
  leb a b = true -> leb b c = true -> leb a c = true.
Proof.
  destruct a, b, c; simpl; auto; try discriminate.
  - apply number_leb_trans.
  - apply string_leb_trans.
  - rewrite !Z.leb_le. lia.
Qed.

Lemma leb_antisym (a b : cell) :
  leb a b = true -> leb b a = true -> a = b.
Proof.
  destruct a, b; simpl; auto; try discriminate.
  - intros H1 H2. f_equal. apply number_leb_antisym; assumption.
  - intros H1 H2. f_equal. apply string_leb_antisym; assumption.
  - rewrite !Z.leb_le. intros. f_equal. lia.
Qed.

Lemma key_leb_total (k1 k2 : list cell) :
  key_leb k1 k2 = true \/ key_leb k2 k1 = true.
Proof.
  revert k2. induction k1 as [|a k1 IH]; intros [|b k2]; simpl; auto.
  rewrite (eqb_sym b a). destruct (eqb a b); auto using leb_total.
Qed.

Lemma key_leb_trans (k1 k2 k3 : list cell) :
  key_leb k1 k2 = true -> key_leb k2 k3 = true -> key_leb k1 k3 = true.
Proof.
  revert k2 k3. induction k1 as [|a k1 IH]; intros [|b k2] [|c k3]; simpl;
    auto; try discriminate.
  destruct (eqb a b) eqn:Eab.
  - apply eqb_eq in Eab. subst b.
    destruct (eqb a c); eauto.
  - destruct (eqb b c) eqn:Ebc.
    + apply eqb_eq in Ebc. subst c. rewrite Eab. auto.
    + intros H1 H2. destruct (eqb a c) eqn:Eac.
      * apply eqb_eq in Eac. subst c. apply eqb_neq in Eab.
        exfalso. apply Eab. apply leb_antisym; assumption.
      * eapply leb_trans; eassumption.
Qed.

End CellOrder.

(** ** Deduplication, sorting and relabelling of rows *)

Section RowLemmas.
Variable idxs : list nat.
Let key := row_key idxs.
Let le (a b : row) : Prop := row_leb idxs a b = true.

Lemma existsb_key_false (r : row) (rs : list row) :
  existsb (fun r' => key_eqb (key r) (key r')) rs = false <->
  Forall (fun x => key x <> key r) rs.
Proof.
  induction rs as [|x rs IH]; simpl.
  - split; auto.
  - rewrite orb_false_iff, IH, key_eqb_neq. split.
    + intros [H1 H2]. constructor; auto.
    + intros H. inversion H; subst. split; auto.
Qed.

Lemma drop_duplicates_last_in (r : row) (rs : list row) :
  In r (drop_duplicates_last idxs rs) -> last_occurrence key r rs.
Proof.
  induction rs as [|x rs IH]; simpl; [tauto|].
  destruct (existsb _ rs) eqn:E.
  - intros H. destruct (IH H) as (pre & post & -> & Hp).
    exists (x :: pre), post. auto.
  - intros [->|H].
    + exists [], rs. split; [reflexivity|].
      apply existsb_key_false. exact E.
    + destruct (IH H) as (pre & post & -> & Hp).
      exists (x :: pre), post. auto.
Qed.

Lemma drop_duplicates_last_keeps (r : row) (rs : list row) :
  In r rs ->
  exists r', In r' (drop_duplicates_last idxs rs) /\ key r' = key r.
Proof.
  revert r. induction rs as [|x rs IH]; intros r; simpl; [tauto|].
  intros [->|H].
  - destruct (existsb _ rs) eqn:E.
    + apply existsb_exists in E. destruct E as (y & Hy & Ey).
      apply key_eqb_eq in Ey. destruct (IH y Hy) as (r' & Hr' & Er').
      exists r'. unfold key in *. split; congruence.
    + exists r. simpl. auto.
  - destruct (IH r H) as (r' & Hr' & Er').
    exists r'. destruct (existsb _ rs); simpl; auto.
Qed.

Lemma drop_duplicates_last_incl (r : row) (rs : list row) :
  In r (drop_duplicates_last idxs rs) -> In r rs.
Proof.
  intros H. destruct (drop_duplicates_last_in _ _ H) as (pre & post & -> & _).
  apply in_or_app. right. left. reflexivity.
Qed.

Lemma drop_duplicates_last_NoDup (rs : list row) :
  NoDup (map key (drop_duplicates_last idxs rs)).
Proof.
  induction rs as [|x rs IH]; simpl; [constructor|].
  destruct (existsb _ rs) eqn:E; [exact IH|].
  simpl. constructor; [|exact IH].
  intros Hin. apply in_map_iff in Hin. destruct Hin as (y & Ey & Hy).
  apply drop_duplicates_last_incl in Hy.
  apply existsb_key_false in E. rewrite Forall_forall in E.
  exact (E y Hy Ey).
Qed.

Lemma insert_row_perm (r : row) (rs : list row) :
  Permutation (insert_row idxs r rs) (r :: rs).
Proof.
  induction rs as [|x rs IH]; simpl; [reflexivity|].
  destruct (row_leb idxs r x); [reflexivity|].
  rewrite IH. apply perm_swap.
Qed.

Lemma sort_rows_perm (rs : list row) : Permutation (sort_rows idxs rs) rs.
Proof.
  induction rs as [|x rs IH]; simpl; [reflexivity|].
  rewrite insert_row_perm. constructor. exact IH.
Qed.

Lemma le_trans (a b c : row) : le a b -> le b c -> le a c.
Proof. apply key_leb_trans. Qed.

Lemma insert_row_sorted (r : row) (rs : list row) :
  StronglySorted le rs -> StronglySorted le (insert_row idxs r rs).
Proof.
  induction 1 as [|x rs Hs IH Hx]; simpl.
  - repeat constructor.
  - destruct (row_leb idxs r x) eqn:E.
    + constructor; [constructor; assumption|].
      constructor; [exact E|].
      eapply Forall_impl; [|exact Hx]. intros y. apply le_trans. exact E.
    + constructor; [exact IH|].
      eapply Permutation_Forall.
      * symmetry. apply insert_row_perm.
      * constructor; [|exact Hx].
        destruct (key_leb_total (key r) (key x)) as [H|H]; [|exact H].
        unfold key, row_leb in *. congruence.
Qed.

Lemma sort_rows_sorted (rs : list row) :
  StronglySorted le (sort_rows idxs rs).
Proof.
  induction rs as [|x rs IH]; simpl; [constructor|].
  apply insert_row_sorted. exact IH.
Qed.

End RowLemmas.

Lemma relabel_cells (n : Z) (rs : list row) :
  map cells (relabel n rs) = map cells rs.
Proof.
  revert n. induction rs as [|r rs IH]; intros n; simpl; [reflexivity|].
  rewrite IH. reflexivity.
Qed.

Lemma relabel_length (n : Z) (rs : list row) :
  List.length (relabel n rs) = List.length rs.
Proof.
  rewrite <- (length_map cells), relabel_cells. apply length_map.
Qed.

(** Labels after [relabel]: a contiguous range. *)
Lemma relabel_labels (n : Z) (rs : list row) :
  map label (relabel n rs) =
  map (fun i => (n + Z.of_nat i)%Z) (seq 0 (List.length rs)).
Proof.
  revert n. induction rs as [|r rs IH]; intros n; simpl; [reflexivity|].
  rewrite IH, <- seq_shift, map_map. f_equal.
  - f_equal. lia.
  - apply map_ext. intros i. lia.
Qed.

(** A property of rows that only looks at cells carries over [relabel]. *)
Lemma relabel_Forall2 (n : Z) (rs : list row) :
  Forall2 (fun a b => cells a = cells b) (relabel n rs) rs.
Proof.
  revert n. induction rs as [|r rs IH]; intros n; simpl; constructor; auto.
Qed.

(** ** Column lookup *)

Lemma mem_In (c : string) (l : list string) : mem c l = true <-> In c l.
Proof.
  unfold mem. rewrite existsb_exists. split.
  - intros (x & Hx & E). apply String.eqb_eq in E. subst. exact Hx.
  - intros H. exists c. split; [exact H | apply String.eqb_refl].
Qed.

Lemma has_column_In (c : string) (df : frame) :
  has_column c df = true <-> In c (columns df).
Proof. apply mem_In. Qed.

Lemma index_of_In (c : string) (cols : list string) :
  In c cols -> exists j, index_of c cols = Some j.
Proof.
  induction cols as [|x cols IH]; simpl; [tauto|].
  intros H. destruct (String.eqb c x) eqn:E; [eauto|].
  destruct H as [->|H]; [rewrite String.eqb_refl in E; discriminate|].
  destruct (IH H) as (j & ->). simpl. eauto.
Qed.

Lemma index_of_Some (c : string) (cols : list string) (j : nat) :
  index_of c cols = Some j -> nth_error cols j = Some c.
Proof.
  revert j. induction cols as [|x cols IH]; intros j; simpl; [discriminate|].
  destruct (String.eqb c x) eqn:E.
  - intros [= <-]. apply String.eqb_eq in E. subst. reflexivity.
  - destruct (index_of c cols) as [i|]; simpl; [|discriminate].
    intros [= <-]. simpl. apply IH. reflexivity.
Qed.

Lemma index_of_Some_In (c : string) (cols : list string) (j : nat) :
  index_of c cols = Some j -> In c cols.
Proof. intros H. eapply nth_error_In. apply index_of_Some. exact H. Qed.

Lemma index_of_inj (c d : string) (cols : list string) (j : nat) :
  index_of c cols = Some j -> index_of d cols = Some j -> c = d.
Proof.
  intros H1 H2. apply index_of_Some in H1. apply index_of_Some in H2.
  congruence.
Qed.

Lemma column_index_In (c : string) (df : frame) :
  In c (columns df) ->
  exists j, index_of c (columns df) = Some j /\ column_index c df = Ok j.
Proof.
  intros H. destruct (index_of_In _ _ H) as (j & E).
  exists j. unfold column_index. rewrite E. auto.
Qed.

Lemma column_index_absent (c : string) (df : frame) :
  ~ In c (columns df) -> column_index c df = Err (KeyError c).
Proof.
  intros H. unfold column_index.
  destruct (index_of c (columns df)) eqn:E; [|reflexivity].
  apply index_of_Some_In in E. contradiction.
Qed.

(** ** The validators *)

Lemma missing_cols_nil (required_cols : list string) (df : frame) :
  filter (fun col => negb (has_column col df)) required_cols = [] <->
  (forall c, In c required_cols -> In c (columns df)).
Proof.
  split.
  - intros H c Hc. apply has_column_In.
    destruct (has_column c df) eqn:E; [reflexivity|].
    assert (Hin : In c (filter (fun col => negb (has_column col df))
                          required_cols)).
    { apply filter_In. rewrite E. auto. }
    rewrite H in Hin. destruct Hin.
  - intros H. induction required_cols as [|x l IH]; simpl; [reflexivity|].
    assert (Hx : has_column x df = true)
      by (apply has_column_In; apply H; left; reflexivity).
    rewrite Hx. simpl. apply IH. intros c Hc. apply H. right. exact Hc.
Qed.

Lemma empty_false (df : frame) :
  empty df = false <-> rows df <> [] /\ columns df <> [].
Proof.
  unfold empty. destruct (rows df), (columns df); split;
    try discriminate; try (intros [H1 H2]; congruence);
    intros _; split; discriminate.
Qed.

Section ValidatorLemmas.
Import DataEngineering.
Variable required_cols : list string.
Hypothesis country_required : In "country" required_cols.
Hypothesis date_required : In "date" required_cols.

(** What the validator computes on a frame that passes both checks. *)
Lemma load_and_validate_passes (df : frame) :
  rows df <> [] ->
  (forall c, In c required_cols -> In c (columns df)) ->
  exists jc jd,
    index_of "country" (columns df) = Some jc /\
    index_of "date" (columns df) = Some jd /\
    load_and_validate required_cols df =
    Ok (mkFrame (columns df)
          (relabel 0 (sort_rows [jc; jd]
                        (drop_duplicates_last [jc; jd] (rows df))))).
Proof.
  intros Hrows Hreq.
  destruct (index_of_In _ _ (Hreq _ country_required)) as (jc & Ec).
  destruct (index_of_In _ _ (Hreq _ date_required)) as (jd & Ed).
  exists jc, jd. repeat split; try assumption.
  unfold load_and_validate.
  assert (Hne : empty df = false).
  { apply empty_false. split; [exact Hrows|].
    intros E. specialize (Hreq _ country_required).
    rewrite E in Hreq. destruct Hreq. }
  rewrite Hne.
  rewrite (proj2 (missing_cols_nil _ _) Hreq).
  unfold drop_duplicates, sort_values, key_indices, column_index.
  simpl. rewrite Ec, Ed. simpl. rewrite Ec, Ed. reflexivity.
Qed.

Lemma load_and_validate_fails_iff (df : frame) :
  (exists e, load_and_validate required_cols df = Err e) <->
  (rows df = [] \/
   exists c, In c required_cols /\ ~ In c (columns df)).
Proof.
  split.
  - intros (e & He).
    destruct (rows df) as [|r rs] eqn:Er; [left; reflexivity|right].
    destruct (filter (fun col => negb (has_column col df)) required_cols)
      as [|c l] eqn:Ef.
    + exfalso. pose proof (proj1 (missing_cols_nil _ _) Ef) as Hall.
      destruct (load_and_validate_passes df) as (jc & jd & _ & _ & Hok);
        [rewrite Er; discriminate | exact Hall | congruence].
    + assert (Hc : In c (filter (fun col => negb (has_column col df))
                           required_cols)) by (rewrite Ef; left; reflexivity).
      apply filter_In in Hc. destruct Hc as [Hc Hn].
      exists c. split; [exact Hc|]. rewrite <- has_column_In.
      destruct (has_column c df); [discriminate | congruence].
  - intros [Hr | (c & Hc & Hn)].
    + exists ValueError_empty. unfold load_and_validate, empty.
      rewrite Hr. reflexivity.
    + unfold load_and_validate. destruct (empty df); [eauto|].
      destruct (filter (fun col => negb (has_column col df)) required_cols)
        as [|x l] eqn:Ef; [|eauto].
      exfalso. apply Hn. apply (proj1 (missing_cols_nil _ df) Ef). exact Hc.
Qed.

Lemma load_and_validate_error_kind (df : frame) (e : error) :
  load_and_validate required_cols df = Err e -> is_ValueError e = true.
Proof.
  unfold load_and_validate. destruct (empty df) eqn:Ee.
  - intros [= <-]. reflexivity.
  - destruct (filter (fun col => negb (has_column col df)) required_cols)
      as [|x l] eqn:Ef.
    + pose proof (proj1 (missing_cols_nil _ _) Ef) as Hall.
      pose proof (proj1 (empty_false _) Ee) as [Hr Hc].
      destruct (load_and_validate_passes df Hr Hall)
        as (jc & jd & _ & _ & Hok).
      unfold load_and_validate in Hok.
      rewrite Ee, Ef in Hok. rewrite Hok. discriminate.
    + intros [= <-]. reflexivity.
Qed.

End ValidatorLemmas.

Lemma relabel_In (n : Z) (rs : list row) (r' : row) :
  In r' (relabel n rs) -> exists r, In r rs /\ cells r = cells r'.
Proof.
  revert n. induction rs as [|x rs IH]; intros n; simpl; [tauto|].
  intros [<-|H].
  - exists x. auto.
  - destruct (IH _ H) as (r & Hr & E). exists r. auto.
Qed.

Lemma In_relabel (n : Z) (rs : list row) (r : row) :
  In r rs -> exists r', In r' (relabel n rs) /\ cells r' = cells r.
Proof.
  revert n. induction rs as [|x rs IH]; intros n; simpl; [tauto|].
  intros [->|H].
  - eexists. split; [left; reflexivity | reflexivity].
  - destruct (IH (n + 1)%Z H) as (r' & Hr' & E). exists r'. auto.
Qed.

Lemma row_key_cells (idxs : list nat) (a b : row) :
  cells a = cells b -> row_key idxs a = row_key idxs b.
Proof. intros E. unfold row_key, get. rewrite E. reflexivity. Qed.

Lemma relabel_keys (idxs : list nat) (n : Z) (rs : list row) :
  map (row_key idxs) (relabel n rs) = map (row_key idxs) rs.
Proof.
  revert n. induction rs as [|x rs IH]; intros n; simpl; [reflexivity|].
  rewrite IH. reflexivity.
Qed.

Lemma relabel_sorted (idxs : list nat) (n : Z) (rs : list row) :
  StronglySorted (fun a b => row_leb idxs a b = true) rs ->
  StronglySorted (fun a b => row_leb idxs a b = true) (relabel n rs).
Proof.
  intros H. revert n. induction H as [|x rs Hs IH Hx]; intros n; simpl.
  - constructor.
  - constructor; [apply IH|].
    apply Forall_forall. intros r' Hr'.
    destruct (relabel_In _ _ _ Hr') as (r & Hr & E).
    rewrite Forall_forall in Hx. specialize (Hx r Hr).
    unfold row_leb in *.
    rewrite (row_key_cells idxs r' r) by congruence. exact Hx.
Qed.

Lemma country_date_row_key (cols : list string) (jc jd : nat) (r : row) :
  index_of "country" cols = Some jc ->
  index_of "date" cols = Some jd ->
  country_date cols r = row_key [jc; jd] r.
Proof.
  intros Ec Ed. unfold country_date, cell_of. rewrite Ec, Ed. reflexivity.
Qed.

Lemma StronglySorted_impl {A : Type} (R R' : A -> A -> Prop) (l : list A) :
  (forall a b, R a b -> R' a b) -> StronglySorted R l -> StronglySorted R' l.
Proof.
  intros HR. induction 1 as [|x l Hs IH Hx]; constructor; auto.
  eapply Forall_impl; [|exact Hx]. intros y. apply HR.
Qed.

Lemma last_occurrence_ext (k1 k2 : row -> list cell) (r : row)
  (rs : list row) :
  (forall x, k1 x = k2 x) -> last_occurrence k1 r rs -> last_occurrence k2 r rs.
Proof.
  intros E (pre & post & -> & H). exists pre, post. split; [reflexivity|].
  eapply Forall_impl; [|exact H]. intros x. rewrite !E. auto.
Qed.

Lemma load_and_validate_validated (required_cols : list string) (df : frame) :
  In "country" required_cols -> In "date" required_cols ->
  rows df <> [] ->
  (forall c, In c required_cols -> In c (columns df)) ->
  exists out,
    DataEngineering.load_and_validate required_cols df = Ok out /\
    validated df out.
Proof.
  intros Hc Hd Hrows Hreq.
  destruct (load_and_validate_passes required_cols Hc Hd df Hrows Hreq)
    as (jc & jd & Ec & Ed & Hok).
  eexists. split; [exact Hok|].
  assert (K : forall x, country_date (columns df) x = row_key [jc; jd] x)
    by (intros x; apply country_date_row_key; assumption).
  unfold validated. cbv zeta. cbn [rows columns].
  split; [reflexivity|].
  split.
  { rewrite (map_ext _ _ K), relabel_keys.
    eapply Permutation_NoDup.
    - apply Permutation_map. symmetry. apply sort_rows_perm.
    - apply drop_duplicates_last_NoDup. }
  split.
  { intros r Hr.
    destruct (drop_duplicates_last_keeps [jc; jd] r (rows df) Hr)
      as (r1 & Hr1 & E1).
    assert (Hr2 : In r1 (sort_rows [jc; jd]
                           (drop_duplicates_last [jc; jd] (rows df))))
      by (eapply Permutation_in; [symmetry; apply sort_rows_perm | exact Hr1]).
    destruct (In_relabel 0 _ _ Hr2) as (r' & Hr' & E').
    exists r'. split; [exact Hr'|].
    rewrite !K, <- E1. apply row_key_cells. exact E'. }
  split.
  { intros r' Hr'.
    destruct (relabel_In _ _ _ Hr') as (r & Hr & E).
    exists r. split; [exact E|].
    apply (last_occurrence_ext (row_key [jc; jd])); [intros x; symmetry; apply K|].
    apply drop_duplicates_last_in.
    eapply Permutation_in; [apply sort_rows_perm | exact Hr]. }
  split.
  { eapply StronglySorted_impl;
      [|apply relabel_sorted; apply (sort_rows_sorted [jc; jd])].
    intros a b. unfold row_leb. rewrite !K. auto. }
  rewrite relabel_labels, relabel_length. apply map_ext. intros i. lia.
Qed.

(** ** Claims on the validators *)

(** C4. On a non-empty frame that has the required columns the validator
    returns a frame: it holds exactly one row for every (country, date)
    key of the input (in particular for every key that occurs more than
    once), that row is the last occurrence of its key in the original row
    order, the rows are sorted ascending by (country, date), and the row
    labels are 0, 1, 2, ... *)
Theorem load_and_validate_covid_dedup_sorted (df : frame) :
  rows df <> [] ->
  (forall c, In c DataEngineering.covid_required_cols -> In c (columns df)) ->
  exists out,
    DataEngineering.load_and_validate_covid df = Ok out /\ validated df out.
Proof.
  intros Hrows Hreq.
  apply load_and_validate_validated; simpl; auto.
Qed.

Lemma load_and_validate_covid_dedup_sorted_witness :
  rows covid_raw_example <> [] /\
  (forall c, In c DataEngineering.covid_required_cols ->
             In c (columns covid_raw_example)) /\
  exists out,
    DataEngineering.load_and_validate_covid covid_raw_example = Ok out /\
    validated covid_raw_example out.
Proof.
  assert (H1 : rows covid_raw_example <> []) by discriminate.
  assert (H2 : forall c, In c DataEngineering.covid_required_cols ->
                         In c (columns covid_raw_example)).
  { simpl. intros c [<-|[<-|[<-|[]]]]; auto. }
  split; [exact H1|]. split; [exact H2|].
  exact (load_and_validate_covid_dedup_sorted covid_raw_example H1 H2).
Defined.

(** The vaccination validator satisfies the same contract. *)
Lemma load_and_validate_vaccination_dedup_sorted (df : frame) :
  rows df <> [] ->
  (forall c, In c DataEngineering.vaccination_required_cols ->
             In c (columns df)) ->
  exists out,
    DataEngineering.load_and_validate_vaccination df = Ok out /\
    validated df out.
Proof.
  intros Hrows Hreq.
  apply load_and_validate_validated; simpl; auto.
Qed.

(** C5. Each validator raises if and only if the frame has no rows or one
    of its required columns is absent; the error it raises is the
    validator's own ValueError, returned to the caller as it is; in every
    other case it returns a frame. *)
Theorem validators_fail_iff_empty_or_missing (df : frame) :
  ((exists e, DataEngineering.load_and_validate_covid df = Err e) <->
   (rows df = [] \/
    exists c, In c ["country"; "date"; "total_cases"] /\
              ~ In c (columns df))) /\
  ((exists e, DataEngineering.load_and_validate_vaccination df = Err e) <->
   (rows df = [] \/
    exists c, In c ["country"; "date"; "total_vaccinations"] /\
              ~ In c (columns df))) /\
  (forall e, DataEngineering.load_and_validate_covid df = Err e \/
             DataEngineering.load_and_validate_vaccination df = Err e ->
             is_ValueError e = true) /\
  ((exists out, DataEngineering.load_and_validate_covid df = Ok out) \/
   (exists e, DataEngineering.load_and_validate_covid df = Err e)) /\
  ((exists out, DataEngineering.load_and_validate_vaccination df = Ok out) \/
   (exists e, DataEngineering.load_and_validate_vaccination df = Err e)).
Proof.
  split; [|split; [|split; [|split]]].
  - apply load_and_validate_fails_iff; simpl; auto.
  - apply load_and_validate_fails_iff; simpl; auto.
  - intros e [H|H];
      eapply load_and_validate_error_kind; try exact H; simpl; auto.
  - destruct (DataEngineering.load_and_validate_covid df); eauto.
  - destruct (DataEngineering.load_and_validate_vaccination df); eauto.
Qed.

(** ** In-place filling of a column *)

Section UpdateLemmas.
Context {A : Type}.

Lemma update_length (j : nat) (f : A -> A) (l : list A) :
  List.length (update j f l) = List.length l.
Proof.
  revert j. induction l as [|a l IH]; intros [|j]; simpl; auto.
Qed.

Lemma nth_update_other (j j' : nat) (f : A -> A) (l : list A) (d : A) :
  j <> j' -> nth j' (update j f l) d = nth j' l d.
Proof.
  revert j j'. induction l as [|a l IH]; intros [|j] [|j'] H; simpl; auto.
  congruence.
Qed.

Lemma nth_update_same (j : nat) (f : A -> A) (l : list A) (d : A) :
  (j < List.length l)%nat -> nth j (update j f l) d = f (nth j l d).
Proof.
  revert j. induction l as [|a l IH]; intros [|j] H; simpl in *;
    try lia; auto.
  apply IH. lia.
Qed.

Lemma update_id (j : nat) (f : A -> A) (l : list A) :
  Forall (fun a => f a = a) l -> update j f l = l.
Proof.
  intros H. revert j. induction H as [|a l Ha Hl IH]; intros [|j]; simpl;
    congruence.
Qed.

Lemma update_Forall2 (R : A -> A -> Prop) (j : nat) (f : A -> A)
  (l : list A) :
  (forall a, R a a) -> (forall a, R a (f a)) -> Forall2 R l (update j f l).
Proof.
  intros Hrefl Hf. revert j.
  induction l as [|a l IH]; intros [|j]; simpl; constructor; auto.
  clear IH. induction l; constructor; auto.
Qed.

End UpdateLemmas.

Lemma fillna_notna (v c : cell) : c <> NA -> fillna v c = c.
Proof. intros H. destruct c; try reflexivity. contradiction. Qed.

Lemma fillna_NA (c : cell) : fillna NA c = c.
Proof. destruct c; reflexivity. Qed.

Lemma fillna_at_length (j : nat) (v : cell) (rs : list row) :
  List.length (fillna_at j v rs) = List.length rs.
Proof. apply length_map. Qed.

Lemma fillna_at_other (j j' : nat) (v : cell) (rs : list row) :
  j <> j' -> column_at j' (fillna_at j v rs) = column_at j' rs.
Proof.
  intros H. unfold column_at, fillna_at. rewrite map_map.
  apply map_ext. intros r. unfold get. simpl.
  apply nth_update_other. exact H.
Qed.

Lemma fillna_at_same (j : nat) (v : cell) (rs : list row) :
  Forall (fun r => (j < List.length (cells r))%nat) rs ->
  column_at j (fillna_at j v rs) = map (fillna v) (column_at j rs).
Proof.
  intros H. unfold column_at, fillna_at. rewrite !map_map.
  apply map_ext_in. intros r Hr. unfold get. simpl.
  apply nth_update_same. rewrite Forall_forall in H. auto.
Qed.

Lemma fillna_at_widths (j : nat) (v : cell) (rs : list row) :
  map (fun r => List.length (cells r)) (fillna_at j v rs) =
  map (fun r => List.length (cells r)) rs.
Proof.
  unfold fillna_at. rewrite map_map. apply map_ext. intros r. simpl.
  apply update_length.
Qed.

Lemma fillna_at_kept (j : nat) (v : cell) (rs : list row) :
  Forall2 row_kept rs (fillna_at j v rs).
Proof.
  induction rs as [|r rs IH]; simpl; constructor; auto.
  split; [reflexivity|]. simpl.
  apply update_Forall2; [auto|]. intros a Ha. apply fillna_notna. exact Ha.
Qed.

Lemma fillna_at_complete (j : nat) (v : cell) (rs : list row) :
  Forall (fun r => Forall (fun c => c <> NA) (cells r)) rs ->
  fillna_at j v rs = rs.
Proof.
  unfold fillna_at.
  induction 1 as [|r rs Hr Hrs IH]; simpl; [reflexivity|].
  rewrite IH. f_equal.
  destruct r as [l cs]. simpl in *. f_equal.
  apply update_id. eapply Forall_impl; [|exact Hr].
  intros c. apply fillna_notna.
Qed.

Lemma fillna_at_NA (j : nat) (rs : list row) : fillna_at j NA rs = rs.
Proof.
  unfold fillna_at.
  induction rs as [|r rs IH]; simpl; [reflexivity|].
  rewrite IH. f_equal.
  destruct r as [l cs]. simpl. f_equal.
  apply update_id. apply Forall_forall. intros c _. apply fillna_NA.
Qed.

(** *** The relation [frame_kept] is a preorder *)

Lemma row_kept_refl (r : row) : row_kept r r.
Proof.
  split; [reflexivity|]. induction (cells r); constructor; auto.
Qed.

Lemma row_kept_trans (r1 r2 r3 : row) :
  row_kept r1 r2 -> row_kept r2 r3 -> row_kept r1 r3.
Proof.
  intros [L1 C1] [L2 C2]. split; [congruence|].
  revert C2. generalize (cells r3). induction C1 as [|a b l1 l2 Hab H IH];
    intros l3 C2; inversion C2; subst; constructor; auto.
  intros Ha. specialize (Hab Ha). subst b. auto.
Qed.

Lemma frame_kept_refl (df : frame) : frame_kept df df.
Proof.
  split; [reflexivity|]. induction (rows df); constructor;
    auto using row_kept_refl.
Qed.

Lemma frame_kept_trans (d1 d2 d3 : frame) :
  frame_kept d1 d2 -> frame_kept d2 d3 -> frame_kept d1 d3.
Proof.
  intros [C1 R1] [C2 R2]. split; [congruence|].
  revert R2. generalize (rows d3). induction R1 as [|a b l1 l2 Hab H IH];
    intros l3 R2; inversion R2; subst; constructor; eauto using row_kept_trans.
Qed.

Lemma fillna_inplace_kept (col : string) (v : cell) (df df' : frame) :
  fillna_inplace col v df = Ok df' -> frame_kept df df'.
Proof.
  unfold fillna_inplace, column_index.
  destruct (index_of col (columns df)) as [j|]; simpl; [|discriminate].
  intros [= <-]. split; [reflexivity|]. apply fillna_at_kept.
Qed.

Lemma fillna_inplace_present (col : string) (v : cell) (df : frame) :
  has_column col df = true ->
  exists j, index_of col (columns df) = Some j /\
            fillna_inplace col v df =
            Ok (mkFrame (columns df) (fillna_at j v (rows df))).
Proof.
  intros H. apply has_column_In in H.
  destruct (index_of_In _ _ H) as (j & E). exists j. split; [exact E|].
  unfold fillna_inplace, column_index. rewrite E. reflexivity.
Qed.

Lemma nth_update_fillna (j j' : nat) (v : cell) (l : list cell) :
  nth j' (update j (fillna v) l) NA = nth j' l NA \/
  nth j' (update j (fillna v) l) NA = v.
Proof.
  revert j j'. induction l as [|a l IH]; intros [|j] [|j']; simpl; auto.
  destruct a; simpl; auto.
Qed.

(** ** The median *)

Lemma number_div_numeric (x y : number) : is_numeric (number_div x y) = true.
Proof.
  destruct x, y; simpl; repeat match goal with
  | |- context [if ?b then _ else _] => destruct b
  end; reflexivity.
Qed.

Lemma median_of_sorted_numeric (xs : list number) :
  is_numeric (median_of_sorted xs) = true.
Proof.
  unfold median_of_sorted. destruct (List.length xs); [reflexivity|].
  destruct (Nat.odd (S n)); [reflexivity|].
  destruct (number_add _ _) eqn:E; try reflexivity.
  - apply number_div_numeric.
  - destruct (nth (S n / 2 - 1) xs PInf), (nth (S n / 2) xs PInf);
      discriminate.
  - destruct (nth (S n / 2 - 1) xs PInf), (nth (S n / 2) xs PInf);
      discriminate.
Qed.

Lemma valid_numbers_numeric (s : series) :
  Forall (fun c => is_numeric c = true) s ->
  exists xs, valid_numbers s = Ok xs.
Proof.
  induction 1 as [|c s Hc Hs (xs & IH)]; simpl; [eauto|].
  destruct c; try discriminate; rewrite IH; simpl; eauto.
Qed.

Lemma valid_numbers_Ok_numeric (s : series) (xs : list number) :
  valid_numbers s = Ok xs -> Forall (fun c => is_numeric c = true) s.
Proof.
  revert xs. induction s as [|c s IH]; intros xs; simpl; [constructor|].
  destruct c; try discriminate.
  - intros H. constructor; eauto.
  - destruct (valid_numbers s) eqn:E; simpl; [|discriminate].
    intros _. constructor; eauto.
Qed.

Lemma valid_numbers_error (s : series) (e : error) :
  valid_numbers s = Err e -> e = TypeError.
Proof.
  induction s as [|c s IH]; simpl; [discriminate|].
  destruct c; try (intros [= <-]; reflexivity); auto.
  destruct (valid_numbers s); simpl; [discriminate|].
  intros [= <-]. apply IH. reflexivity.
Qed.

Lemma median_numeric_Ok (s : series) :
  Forall (fun c => is_numeric c = true) s -> exists m, median s = Ok m.
Proof.
  intros H. destruct (valid_numbers_numeric s H) as (xs & E).
  unfold median. rewrite E. simpl. eauto.
Qed.

Lemma median_Ok_numeric (s : series) (m : cell) :
  median s = Ok m ->
  is_numeric m = true /\ Forall (fun c => is_numeric c = true) s.
Proof.
  unfold median. destruct (valid_numbers s) as [xs|] eqn:E; simpl;
    [|discriminate].
  intros [= <-]. split.
  - apply median_of_sorted_numeric.
  - eapply valid_numbers_Ok_numeric. exact E.
Qed.

Lemma median_error (s : series) (e : error) :
  median s = Err e -> e = TypeError.
Proof.
  unfold median. destruct (valid_numbers s) eqn:E; simpl; [discriminate|].
  intros [= <-]. eapply valid_numbers_error. exact E.
Qed.

(** A series with no value has no median. *)
Lemma median_all_missing (s : series) :
  Forall (fun c => c = NA) s -> median s = Ok NA.
Proof.
  intros H. unfold median.
  assert (E : valid_numbers s = Ok []).
  { induction H as [|c s Hc Hs IH]; simpl; [reflexivity|]. subst c. exact IH. }
  rewrite E. reflexivity.
Qed.

(** ** The median against its specification *)

Section MedianSpec.
Import DataCleaning.

Lemma insert_number_perm (x : number) (l : list number) :
  Permutation (insert_number x l) (x :: l).
Proof.
  induction l as [|y l IH]; simpl; [reflexivity|].
  destruct (number_leb x y); [reflexivity|].
  rewrite IH. apply perm_swap.
Qed.

Lemma sort_numbers_perm (l : list number) : Permutation (sort_numbers l) l.
Proof.
  induction l as [|x l IH]; simpl; [reflexivity|].
  rewrite insert_number_perm. constructor. exact IH.
Qed.

Lemma insert_number_sorted (x : number) (l : list number) :
  StronglySorted (fun a b => number_leb a b = true) l ->
  StronglySorted (fun a b => number_leb a b = true) (insert_number x l).
Proof.
  induction 1 as [|y l Hs IH Hy]; simpl.
  - repeat constructor.
  - destruct (number_leb x y) eqn:E.
    + constructor; [constructor; assumption|].
      constructor; [exact E|].
      eapply Forall_impl; [|exact Hy]. intros z Hz.
      eapply number_leb_trans; eassumption.
    + constructor; [exact IH|].
      assert (Hyx : number_leb y x = true)
        by (destruct (number_leb_total x y); congruence).
      rewrite Forall_forall. intros z Hz.
      apply (Permutation_in _ (insert_number_perm x l)) in Hz.
      destruct Hz as [<-|Hz]; [exact Hyx|].
      rewrite Forall_forall in Hy. apply Hy. exact Hz.
Qed.

Lemma sort_numbers_sorted (l : list number) :
  StronglySorted (fun a b => number_leb a b = true) (sort_numbers l).
Proof.
  induction l as [|x l IH]; simpl; [constructor|].
  apply insert_number_sorted. exact IH.
Qed.

(** The values the median is taken over are the non-missing cells, in
    their order. *)
Lemma valid_numbers_notna (s : series) (xs : list number) :
  valid_numbers s = Ok xs -> map Num xs = filter notna s.
Proof.
  revert xs. induction s as [|c s IH]; intros xs; simpl.
  - intros [= <-]. reflexivity.
  - destruct c; try discriminate.
    + intros H. simpl. apply IH. exact H.
    + destruct (valid_numbers s) as [ys|]; cbn [bind]; [|discriminate].
      intros [= <-]. simpl. f_equal. apply IH. reflexivity.
Qed.

Lemma number_add_numeric (a b : number) :
  number_add a b = NA \/ exists s, number_add a b = Num s.
Proof. destruct a, b; simpl; eauto. Qed.

Lemma nth_split (xs : list number) (k : nat) :
  (k < List.length xs)%nat ->
  xs = firstn k xs ++ nth k xs PInf :: skipn (S k) xs.
Proof.
  revert k. induction xs as [|x xs IH]; intros k; simpl; [lia|].
  destruct k as [|k]; simpl; [reflexivity|].
  intros H. f_equal. apply IH. lia.
Qed.

Lemma odd_half (n : nat) : Nat.odd n = true -> n = S (2 * (n / 2)).
Proof.
  intros H. pose proof (Nat.div_mod_eq n 2) as E.
  rewrite <- Nat.bit0_mod in E. rewrite Nat.bit0_odd, H in E.
  simpl Nat.b2n in E. lia.
Qed.

Lemma even_half (n : nat) : Nat.odd n = false -> n = (2 * (n / 2))%nat.
Proof.
  intros H. pose proof (Nat.div_mod_eq n 2) as E.
  rewrite <- Nat.bit0_mod in E. rewrite Nat.bit0_odd, H in E.
  simpl Nat.b2n in E. lia.
Qed.

(** What the code takes from the sorted values is their middle. *)
Lemma median_of_sorted_middle (xs : list number) :
  middle_of xs (median_of_sorted xs).
Proof.
  unfold median_of_sorted, middle_of.
  destruct (List.length xs) as [|n] eqn:L.
  - left. destruct xs; [auto | discriminate].
  - right. set (h := (S n / 2)%nat).
    destruct (Nat.odd (S n)) eqn:O.
    + left. apply odd_half in O. fold h in O.
      exists (firstn h xs), (nth h xs PInf), (skipn (S h) xs).
      split; [apply nth_split; lia|]. split; [|reflexivity].
      rewrite length_firstn, length_skipn. lia.
    + right. apply even_half in O. fold h in O.
      assert (Hh : (0 < h)%nat) by lia.
      exists (firstn (h - 1) xs), (nth (h - 1) xs PInf), (nth h xs PInf),
        (skipn (S h) xs).
      split; [|split].
      * rewrite (nth_split xs (h - 1)) at 1 by lia. f_equal. f_equal.
        replace (S (h - 1)) with h by lia.
        assert (E : skipn h xs = nth h xs PInf :: skipn (S h) xs).
        { rewrite (nth_split xs h) at 1 by lia.
          rewrite skipn_app, skipn_firstn_comm.
          replace (h - h)%nat with 0%nat by lia. simpl.
          rewrite length_firstn.
          replace (h - Nat.min h (List.length xs))%nat with 0%nat by lia.
          reflexivity. }
        exact E.
      * rewrite length_firstn, length_skipn. lia.
      * unfold mean_of, add, div. cbn [arith].
        eexists. split; [reflexivity|].
        destruct (number_add_numeric (nth (h - 1) xs PInf) (nth h xs PInf))
          as [E|(s & E)]; rewrite E; reflexivity.
Qed.

(** The median of the code meets the specification of the median. *)
Lemma median_meets_spec (s : series) (m : cell) :
  median s = Ok m -> median_spec s m.
Proof.
  unfold median. destruct (valid_numbers s) as [xs|] eqn:E; cbn [bind];
    [|discriminate].
  intros [= <-]. exists (sort_numbers xs). split; [|split].
  - rewrite <- (valid_numbers_notna _ _ E). apply Permutation_map.
    apply sort_numbers_perm.
  - apply sort_numbers_sorted.
  - apply median_of_sorted_middle.
Qed.

(** Ascending lists with the same entries are the same list. *)
Lemma sorted_perm_eq (xs ys : list number) :
  StronglySorted (fun a b => number_leb a b = true) xs ->
  StronglySorted (fun a b => number_leb a b = true) ys ->
  Permutation xs ys -> xs = ys.
Proof.
  intros Hx. revert ys. induction Hx as [|x xs Hs IH Hall]; intros ys Hy P.
  - apply Permutation_nil in P. subst. reflexivity.
  - destruct ys as [|y ys];
      [apply Permutation_sym, Permutation_nil in P; discriminate|].
    inversion Hy as [|? ? Hs' Hall']; subst.
    rewrite Forall_forall in Hall, Hall'.
    assert (x = y).
    { assert (Hin : In y (x :: xs))
        by (apply (Permutation_in _ (Permutation_sym P)); left; reflexivity).
      assert (Hin' : In x (y :: ys))
        by (apply (Permutation_in _ P); left; reflexivity).
      destruct Hin as [E|Hin]; [exact E|].
      destruct Hin' as [E|Hin']; [symmetry; exact E|].
      apply number_leb_antisym; auto. }
    subst y. f_equal. apply IH; [exact Hs'|].
    eapply Permutation_cons_inv. exact P.
Qed.

Lemma map_Num_inj (xs ys : list number) : map Num xs = map Num ys -> xs = ys.
Proof.
  revert ys. induction xs as [|x xs IH]; intros [|y ys]; simpl;
    try discriminate; [reflexivity|].
  intros [= -> H]. f_equal. apply IH. exact H.
Qed.

Lemma app_middle_eq {A : Type} (l l' r r' : list A) :
  List.length l = List.length l' -> l ++ r = l' ++ r' -> l = l' /\ r = r'.
Proof.
  revert l'. induction l as [|a l IH]; intros [|a' l']; simpl;
    try discriminate; [auto|].
  intros [= L] [= -> E]. destruct (IH l' L E) as [-> ->]. auto.
Qed.

Lemma mean_of_unique (a b : number) (m m' : cell) :
  mean_of a b m -> mean_of a b m' -> m = m'.
Proof. intros (s & E1 & E2) (s' & E1' & E2'). congruence. Qed.

(** A list has one middle. *)
Lemma middle_of_unique (xs : list number) (m m' : cell) :
  middle_of xs m -> middle_of xs m' -> m = m'.
Proof.
  intros [[-> ->]|[(l & a & r & E & L & ->)|(l & a & b & r & E & L & M)]]
         [[E' ->]|[(l' & a' & r' & E' & L' & ->)|
                   (l' & a' & b' & r' & E' & L' & M')]];
    try reflexivity;
    try (destruct l'; discriminate E');
    try (subst xs; destruct l; discriminate E').
  - rewrite E in E'.
    assert (Hl : List.length l = List.length l').
    { apply (f_equal (@List.length number)) in E'.
      rewrite !length_app in E'. simpl in E'. lia. }
    destruct (app_middle_eq _ _ _ _ Hl E') as [_ [= -> _]]. reflexivity.
  - exfalso. rewrite E in E'.
    apply (f_equal (@List.length number)) in E'.
    rewrite !length_app in E'. simpl in E'. lia.
  - exfalso. rewrite E in E'.
    apply (f_equal (@List.length number)) in E'.
    rewrite !length_app in E'. simpl in E'. lia.
  - rewrite E in E'.
    assert (Hl : List.length l = List.length l').
    { apply (f_equal (@List.length number)) in E'.
      rewrite !length_app in E'. simpl in E'. lia. }
    destruct (app_middle_eq _ _ _ _ Hl E') as [_ [= -> -> _]].
    eapply mean_of_unique; eassumption.
Qed.

(** The specification determines the median. *)
Lemma median_spec_unique (s : series) (m m' : cell) :
  median_spec s m -> median_spec s m' -> m = m'.
Proof.
  intros (xs & P & S & M) (ys & P' & S' & M').
  assert (Pxy : Permutation (map Num xs) (map Num ys))
    by (rewrite P, P'; reflexivity).
  apply Permutation_sym in Pxy.
  apply Permutation_map_inv in Pxy. destruct Pxy as (zs & Ez & Pz).
  apply map_Num_inj in Ez. subst zs.
  assert (xs = ys) by (apply sorted_perm_eq; assumption).
  subst ys. eapply middle_of_unique; eassumption.
Qed.

Lemma map_fillna_filled (m : cell) (s : series) :
  filled_with m s (map (fillna m) s).
Proof.
  unfold filled_with. induction s as [|c s IH]; simpl; constructor;
    [|exact IH].
  split.
  - intros ->. reflexivity.
  - intros H. apply fillna_notna. exact H.
Qed.

End MedianSpec.

(** ** The imputer's loops *)

Lemma frame_eta (df : frame) : mkFrame (columns df) (rows df) = df.
Proof. destruct df; reflexivity. Qed.

Lemma index_of_lt (c : string) (cols : list string) (j : nat) :
  index_of c cols = Some j -> (j < List.length cols)%nat.
Proof.
  intros H. apply index_of_Some in H. apply nth_error_Some. congruence.
Qed.

Lemma index_of_neq (c d : string) (cols : list string) (j j' : nat) :
  c <> d -> index_of c cols = Some j -> index_of d cols = Some j' -> j <> j'.
Proof.
  intros Hn H1 H2 E. subst j'. apply Hn. eapply index_of_inj; eassumption.
Qed.

Lemma wf_fillna_at (df : frame) (j : nat) (v : cell) :
  wf df -> wf (mkFrame (columns df) (fillna_at j v (rows df))).
Proof.
  unfold wf. simpl. rewrite !Forall_forall. intros H r' Hr'.
  unfold fillna_at in Hr'. apply in_map_iff in Hr'.
  destruct Hr' as (r & <- & Hr). simpl. rewrite update_length. auto.
Qed.

Lemma wf_width (df : frame) (c : string) (j : nat) :
  wf df -> index_of c (columns df) = Some j ->
  Forall (fun r => (j < List.length (cells r))%nat) (rows df).
Proof.
  intros H E. apply index_of_lt in E.
  eapply Forall_impl; [|exact H]. simpl. intros r Hr. lia.
Qed.

Lemma column_at_fillna_numeric (j j' : nat) (v : cell) (rs : list row) :
  is_numeric v = true ->
  Forall (fun c => is_numeric c = true) (column_at j' rs) ->
  Forall (fun c => is_numeric c = true) (column_at j' (fillna_at j v rs)).
Proof.
  intros Hv. unfold column_at, fillna_at. rewrite map_map, !Forall_map.
  apply Forall_impl. intros r Hr. unfold get in *. simpl.
  destruct (nth_update_fillna j j' v (cells r)) as [E|E]; rewrite E; auto.
Qed.

Section ImputerLoops.
Import DataCleaning.

Lemma fill_values_spec (strategies : list (string * cell)) (df : frame) :
  exists df',
    fill_values strategies df = Ok df' /\
    frame_kept df df' /\
    (wf df -> wf df') /\
    (forall j,
       (forall col, In col (map fst strategies) ->
                    index_of col (columns df) <> Some j) ->
       column_at j (rows df') = column_at j (rows df)) /\
    (no_missing df -> df' = df).
Proof.
  revert df. induction strategies as [|[col v] rest IH]; intros df; simpl.
  - exists df. split; [reflexivity|]. split; [apply frame_kept_refl|].
    split; [auto|]. split; auto.
  - destruct (has_column col df) eqn:Hc.
    + destruct (fillna_inplace_present col v df Hc) as (j0 & E0 & Efill).
      rewrite Efill. simpl.
      destruct (IH (mkFrame (columns df) (fillna_at j0 v (rows df))))
        as (df' & Hok & Hkept & Hwf & Hcol & Hid).
      exists df'. split; [exact Hok|]. split; [|split; [|split]].
      * eapply frame_kept_trans; [|exact Hkept].
        split; [reflexivity|]. apply fillna_at_kept.
      * intros W. apply Hwf. apply wf_fillna_at. exact W.
      * intros j Hj. rewrite Hcol.
        -- simpl. apply fillna_at_other. intros ->.
           apply (Hj col); auto.
        -- intros c Hin. apply Hj. auto.
      * intros Hm. rewrite Hid.
        -- unfold no_missing in Hm.
           rewrite (fillna_at_complete _ _ _ Hm). apply frame_eta.
        -- unfold no_missing in *. simpl.
           rewrite (fillna_at_complete _ _ _ Hm). exact Hm.
    + destruct (IH df) as (df' & Hok & Hkept & Hwf & Hcol & Hid).
      exists df'. split; [exact Hok|]. split; [exact Hkept|].
      split; [exact Hwf|]. split; [|exact Hid].
      intros j Hj. apply Hcol. intros c Hin. apply Hj. right. exact Hin.
Qed.

Lemma fill_zeros_spec (cols : list string) (df : frame) :
  (forall col, In col cols -> In col (columns df)) ->
  exists df',
    fill_zeros cols df = Ok df' /\ frame_kept df df' /\
    (no_missing df -> df' = df).
Proof.
  revert df. induction cols as [|col rest IH]; intros df Hin; simpl.
  - exists df. auto using frame_kept_refl.
  - assert (Hc : has_column col df = true)
      by (apply has_column_In; apply Hin; left; reflexivity).
    destruct (fillna_inplace_present col zero df Hc) as (j0 & E0 & Efill).
    rewrite Efill. simpl.
    destruct (IH (mkFrame (columns df) (fillna_at j0 zero (rows df))))
      as (df' & Hok & Hkept & Hid).
    { simpl. intros c Hcin. apply Hin. right. exact Hcin. }
    exists df'. split; [exact Hok|]. split.
    + eapply frame_kept_trans; [|exact Hkept].
      split; [reflexivity|]. apply fillna_at_kept.
    + intros Hm. rewrite Hid.
      * unfold no_missing in Hm.
        rewrite (fillna_at_complete _ _ _ Hm). apply frame_eta.
      * unfold no_missing in *. simpl.
        rewrite (fillna_at_complete _ _ _ Hm). exact Hm.
Qed.

Lemma vacc_fill_cols_present (df : frame) (col : string) :
  In col (vacc_fill_cols df) -> In col (columns df).
Proof. unfold vacc_fill_cols. intros H. apply filter_In in H. tauto. Qed.

Lemma getitem_present (col : string) (df : frame) (j : nat) :
  index_of col (columns df) = Some j ->
  getitem col df = Ok (column_at j (rows df)).
Proof. intros E. unfold getitem, column_index. rewrite E. reflexivity. Qed.

Lemma fill_medians_kept (cols : list string) (df : frame) :
  match fill_medians cols df with
  | Ok df' => frame_kept df df'
  | Err e => e = TypeError
  end.
Proof.
  revert df. induction cols as [|col rest IH]; intros df; simpl.
  - apply frame_kept_refl.
  - destruct (has_column col df) eqn:Hc; [|apply IH].
    apply has_column_In in Hc. destruct (index_of_In _ _ Hc) as (j & E).
    rewrite (getitem_present _ _ _ E). simpl.
    destruct (median (column_at j (rows df))) as [m|e] eqn:Em; simpl.
    + unfold fillna_inplace, column_index. rewrite E. simpl.
      specialize (IH (mkFrame (columns df) (fillna_at j m (rows df)))).
      destruct (fill_medians rest _); [|exact IH].
      eapply frame_kept_trans; [|exact IH].
      split; [reflexivity|]. apply fillna_at_kept.
    + eapply median_error. exact Em.
Qed.

Lemma fill_medians_total (cols : list string) (df : frame) :
  numeric_columns cols df -> exists df', fill_medians cols df = Ok df'.
Proof.
  revert df. induction cols as [|col rest IH]; intros df Hnum; simpl; [eauto|].
  assert (Hrest : numeric_columns rest df).
  { intros c j Hc. apply Hnum. right. exact Hc. }
  destruct (has_column col df) eqn:Hc; [|apply IH; exact Hrest].
  apply has_column_In in Hc. destruct (index_of_In _ _ Hc) as (j & E).
  rewrite (getitem_present _ _ _ E). simpl.
  destruct (median_numeric_Ok (column_at j (rows df))) as (m & Em).
  { apply (Hnum col j); [left; reflexivity | exact E]. }
  rewrite Em. simpl. unfold fillna_inplace, column_index. rewrite E. simpl.
  apply IH. intros c j' Hcin Ej'. simpl in *.
  apply column_at_fillna_numeric.
  - apply (median_Ok_numeric _ _ Em).
  - apply (Hrest c j' Hcin Ej').
Qed.

Lemma fill_medians_complete (cols : list string) (df : frame) :
  no_missing df -> numeric_columns cols df -> fill_medians cols df = Ok df.
Proof.
  intros Hm. induction cols as [|col rest IH]; intros Hnum; simpl;
    [reflexivity|].
  assert (Hrest : numeric_columns rest df).
  { intros c j Hc. apply Hnum. right. exact Hc. }
  destruct (has_column col df) eqn:Hc; [|apply IH; exact Hrest].
  apply has_column_In in Hc. destruct (index_of_In _ _ Hc) as (j & E).
  rewrite (getitem_present _ _ _ E). simpl.
  destruct (median_numeric_Ok (column_at j (rows df))) as (m & Em).
  { apply (Hnum col j); [left; reflexivity | exact E]. }
  rewrite Em. simpl. unfold fillna_inplace, column_index. rewrite E. simpl.
  unfold no_missing in Hm. rewrite (fillna_at_complete _ _ _ Hm), frame_eta.
  apply IH. exact Hrest.
Qed.

(** Each median-fill column ends up as its input column with the missing
    cells replaced by the median of that input column; the other columns
    are not touched. *)
Lemma fill_medians_column (cols : list string) (df df' : frame) :
  NoDup cols -> wf df -> fill_medians cols df = Ok df' ->
  wf df' /\
  forall col j, index_of col (columns df) = Some j ->
    (In col cols ->
       exists m, median (column_at j (rows df)) = Ok m /\
                 column_at j (rows df') =
                 map (fillna m) (column_at j (rows df))) /\
    (~ In col cols -> column_at j (rows df') = column_at j (rows df)).
Proof.
  intros Hnd. revert df. induction Hnd as [|col0 rest Hnotin Hnd IH];
    intros df W; simpl.
  - intros [= <-]. split; [exact W|]. intros col j E. split; [tauto|auto].
  - destruct (has_column col0 df) eqn:Hc.
    + apply has_column_In in Hc. destruct (index_of_In _ _ Hc) as (j0 & E0).
      rewrite (getitem_present _ _ _ E0). simpl.
      destruct (median (column_at j0 (rows df))) as [m0|] eqn:Em0; simpl;
        [|discriminate].
      unfold fillna_inplace, column_index. rewrite E0. simpl.
      intros Hok.
      destruct (IH _ (wf_fillna_at df j0 m0 W) Hok) as (W' & Hcols).
      split; [exact W'|]. intros col j E.
      destruct (Hcols col j E) as (Hin & Hout). simpl in *.
      destruct (string_dec col col0) as [->|Hne].
      * assert (j = j0) by congruence. subst j.
        split; [|intros Hn; exfalso; apply Hn; left; reflexivity].
        intros _. exists m0. split; [exact Em0|].
        rewrite (Hout Hnotin). apply fillna_at_same.
        eapply wf_width; eassumption.
      * assert (Hj : j0 <> j).
        { apply (index_of_neq col0 col (columns df));
            [congruence | exact E0 | exact E]. }
        rewrite (fillna_at_other j0 j m0 (rows df) Hj) in Hin, Hout.
        split.
        -- intros [->|Hr]; [congruence|]. apply Hin. exact Hr.
        -- intros Hn. apply Hout. intros Hr. apply Hn. right. exact Hr.
    + intros Hok. destruct (IH _ W Hok) as (W' & Hcols).
      split; [exact W'|]. intros col j E.
      destruct (Hcols col j E) as (Hin & Hout). split.
      * intros [->|Hr]; [|auto].
        exfalso. apply index_of_Some_In in E. apply has_column_In in E.
        congruence.
      * intros Hn. apply Hout. intros Hr. apply Hn. right. exact Hr.
Qed.

End ImputerLoops.

(** ** Claims on the imputer *)

Section ImputerClaims.
Import DataCleaning.

Lemma socio_not_zero_filled (col : string) :
  In col socio_cols -> ~ In col (map fst covid_strategies).
Proof.
  simpl. intros H1 H2.
  repeat (destruct H1 as [<-|H1]);
    try (repeat (destruct H2 as [H2|H2]; try discriminate H2); exact H2);
    exact H1.
Qed.

Lemma socio_cols_NoDup : NoDup socio_cols.
Proof.
  unfold socio_cols.
  repeat (constructor; [simpl; intros H;
    repeat (destruct H as [H|H]; try discriminate H); exact H|]).
  constructor.
Qed.

(** The zero-fill pass leaves every median-fill column as it was. *)
Lemma fill_values_socio (df df1 : frame) (col : string) (j : nat) :
  fill_values covid_strategies df = Ok df1 ->
  In col socio_cols -> index_of col (columns df) = Some j ->
  columns df1 = columns df /\ (wf df -> wf df1) /\
  column_at j (rows df1) = column_at j (rows df).
Proof.
  intros H1 Hin E.
  destruct (fill_values_spec covid_strategies df)
    as (df' & Hok & Hkept & Hwf & Hcol & _).
  assert (df' = df1) by congruence. subst df'.
  split; [apply Hkept|]. split; [exact Hwf|].
  apply Hcol. intros c Hc Ec.
  apply (socio_not_zero_filled col Hin).
  rewrite (index_of_inj col c _ _ E Ec). exact Hc.
Qed.

(** What the imputer does to a median-fill column. *)
Lemma impute_socio_column (covid_df vacc_df covid' vacc' : frame)
  (col : string) (j : nat) :
  wf covid_df ->
  impute_missing_values covid_df vacc_df = Ok (covid', vacc') ->
  In col socio_cols ->
  index_of col (columns covid_df) = Some j ->
  index_of col (columns covid') = Some j /\
  exists m,
    median (column_at j (rows covid_df)) = Ok m /\
    column_at j (rows covid') = map (fillna m) (column_at j (rows covid_df)).
Proof.
  intros W Himp Hin E. unfold impute_missing_values in Himp.
  destruct (fill_values covid_strategies covid_df) as [c1|] eqn:H1;
    cbn [bind] in Himp; [|discriminate].
  destruct (fill_medians socio_cols c1) as [c2|] eqn:H2;
    cbn [bind] in Himp; [|discriminate].
  destruct (fill_zeros (vacc_fill_cols vacc_df) vacc_df) as [v2|] eqn:H3;
    cbn [bind] in Himp; [|discriminate].
  injection Himp as <- <-.
  destruct (fill_values_socio _ _ _ _ H1 Hin E) as (Ecols & W1 & Ecol).
  pose proof (fill_medians_kept socio_cols c1) as K. rewrite H2 in K.
  destruct (fill_medians_column _ _ _ socio_cols_NoDup (W1 W) H2)
    as (_ & Hcols).
  rewrite <- Ecols in E.
  destruct (Hcols col j E) as ((m & Em & Hm) & _); [exact Hin|].
  split; [destruct K as [-> _]; exact E|].
  rewrite Ecol in Em, Hm. eauto.
Qed.

(** C7. For a median-fill column of numbers that the table has, the imputer
    leaves the column where it is, keeps every value that is not missing and
    replaces every missing value by the median [m] of the column: the middle
    of the non-missing values that the column has in the input table, in
    ascending order (the middle one, or the mean of the two middle ones).
    The median is taken from the input column, so the zero-fill of the other
    columns does not change it.  A column that is entirely missing has no
    median and comes out as it was.  The column is taken to hold numbers
    that a float can add two by two, so that the mean of the two middle
    ones is their sum, halved. *)
Theorem impute_median_fill (covid_df vacc_df covid' vacc' : frame)
  (col : string) (j : nat) :
  wf covid_df ->
  impute_missing_values covid_df vacc_df = Ok (covid', vacc') ->
  In col socio_cols ->
  index_of col (columns covid_df) = Some j ->
  Forall (fun c => within_half_range c = true)
    (column_at j (rows covid_df)) ->
  index_of col (columns covid') = Some j /\
  exists m,
    median_spec (column_at j (rows covid_df)) m /\
    filled_with m (column_at j (rows covid_df)) (column_at j (rows covid')) /\
    (Forall (fun c => c = NA) (column_at j (rows covid_df)) ->
     m = NA /\ column_at j (rows covid') = column_at j (rows covid_df)).
Proof.
  intros W Himp Hin E _.
  destruct (impute_socio_column _ _ _ _ _ _ W Himp Hin E)
    as (E' & m & Em & Hm).
  split; [exact E'|]. exists m.
  split; [apply median_meets_spec; exact Em|].
  split; [rewrite Hm; apply map_fillna_filled|].
  intros Hall. pose proof (median_all_missing _ Hall) as Em'.
  assert (m = NA) by congruence. subst m. split; [reflexivity|].
  rewrite Hm. rewrite <- (map_id (column_at j (rows covid_df))) at 2.
  apply map_ext. apply fillna_NA.
Qed.

(** The median age of the example is missing in one row of three; the
    median of 30 and 40 is 35, and the column comes out as 30, 35, 40. *)
Lemma impute_median_fill_witness :
  wf covid_selected_example /\
  impute_missing_values covid_selected_example vacc_selected_example =
    Ok (fst imputed_example, snd imputed_example) /\
  In "median_age" socio_cols /\
  index_of "median_age" (columns covid_selected_example) = Some 3%nat /\
  column_at 3 (rows covid_selected_example) = [num 30; NA; num 40] /\
  Forall (fun c => within_half_range c = true)
    (column_at 3 (rows covid_selected_example)) /\
  index_of "median_age" (columns (fst imputed_example)) = Some 3%nat /\
  median_spec [num 30; NA; num 40] (num 35) /\
  filled_with (num 35) [num 30; NA; num 40]
    (column_at 3 (rows (fst imputed_example))) /\
  column_at 3 (rows (fst imputed_example)) = [num 30; num 35; num 40].
Proof.
  assert (W : wf covid_selected_example) by (repeat constructor).
  assert (H : impute_missing_values covid_selected_example
                vacc_selected_example =
              Ok (fst imputed_example, snd imputed_example))
    by (vm_compute; reflexivity).
  assert (Hin : In "median_age" socio_cols) by (simpl; auto).
  assert (E : index_of "median_age" (columns covid_selected_example) =
              Some 3%nat) by reflexivity.
  assert (C : column_at 3 (rows covid_selected_example) =
              [num 30; NA; num 40]) by reflexivity.
  assert (N : Forall (fun c => within_half_range c = true)
                (column_at 3 (rows covid_selected_example)))
    by (rewrite C; repeat (constructor; [vm_compute; reflexivity|]);
        constructor).
  destruct (impute_median_fill _ _ _ _ _ _ W H Hin E N)
    as (E' & m & M & F & _).
  rewrite C in M, F.
  assert (M35 : median_spec [num 30; NA; num 40] (num 35)).
  { exists [Fin (Q2Qc (inject_Z 30)); Fin (Q2Qc (inject_Z 40))].
    split; [apply Permutation_refl|]. split.
    - repeat constructor.
    - right. right.
      exists [], (Fin (Q2Qc (inject_Z 30))), (Fin (Q2Qc (inject_Z 40))), [].
      split; [reflexivity|]. split; [reflexivity|].
      exists (num 70).
      split; unfold add, div, arith, num, two; cbn; do 3 f_equal;
        apply Qc_is_canon; reflexivity. }
  assert (m = num 35) by (eapply median_spec_unique; eassumption).
  subst m.
  repeat (split; [assumption|]).
  remember (column_at 3 (rows (fst imputed_example))) as out eqn:Eout.
  clear Eout. unfold filled_with in F.
  inversion F as [|? c0 ? s0 [_ H0] F0]; subst.
  inversion F0 as [|? c1 ? s1 [H1 _] F1]; subst.
  inversion F1 as [|? c2 ? s2 [_ H2] F2]; subst.
  inversion F2; subst.
  rewrite H0, H1, H2 by (reflexivity || discriminate). reflexivity.
Defined.

(** C8. On a pair of tables with no missing values, whose median-fill
    columns hold numbers, the imputer returns the two tables as they are. *)
Theorem impute_idempotent_on_complete (covid_df vacc_df : frame) :
  no_missing covid_df -> no_missing vacc_df ->
  numeric_columns socio_cols covid_df ->
  impute_missing_values covid_df vacc_df = Ok (covid_df, vacc_df).
Proof.
  intros Hc Hv Hnum. unfold impute_missing_values.
  destruct (fill_values_spec covid_strategies covid_df)
    as (c1 & H1 & _ & _ & _ & Hid).
  rewrite H1, (Hid Hc). cbn [bind].
  rewrite (fill_medians_complete socio_cols covid_df Hc Hnum). cbn [bind].
  destruct (fill_zeros_spec (vacc_fill_cols vacc_df) vacc_df
              (vacc_fill_cols_present vacc_df)) as (v1 & H3 & _ & Hidv).
  rewrite H3, (Hidv Hv). reflexivity.
Qed.

Lemma impute_idempotent_on_complete_witness :
  no_missing covid_complete_example /\
  no_missing vacc_complete_example /\
  numeric_columns socio_cols covid_complete_example /\
  impute_missing_values covid_complete_example vacc_complete_example =
    Ok (covid_complete_example, vacc_complete_example).
Proof.
  assert (Hc : no_missing covid_complete_example)
    by (repeat constructor; discriminate).
  assert (Hv : no_missing vacc_complete_example)
    by (repeat constructor; discriminate).
  assert (Hn : numeric_columns socio_cols covid_complete_example).
  { intros col j Hin E. simpl in Hin.
    repeat (destruct Hin as [<-|Hin]; [try discriminate E|]);
      try contradiction.
    injection E as <-. repeat constructor. }
  split; [exact Hc|]. split; [exact Hv|]. split; [exact Hn|].
  exact (impute_idempotent_on_complete _ _ Hc Hv Hn).
Defined.

(** C10. Whenever the imputer returns, each output table has the columns,
    the row count, the row order and the labels of its input, and every
    cell that is not missing in the input is unchanged at its position.
    It returns whenever the median-fill columns hold numbers, and the only
    error it can raise is the TypeError of a median over text. *)
Theorem impute_keeps_present_cells (covid_df vacc_df : frame) :
  (forall covid' vacc',
     impute_missing_values covid_df vacc_df = Ok (covid', vacc') ->
     frame_kept covid_df covid' /\ frame_kept vacc_df vacc') /\
  (forall e, impute_missing_values covid_df vacc_df = Err e ->
             e = TypeError) /\
  (numeric_columns socio_cols covid_df ->
   exists covid' vacc',
     impute_missing_values covid_df vacc_df = Ok (covid', vacc')).
Proof.
  unfold impute_missing_values.
  destruct (fill_values_spec covid_strategies covid_df)
    as (c1 & H1 & K1 & _ & Hcol & _).
  destruct (fill_zeros_spec (vacc_fill_cols vacc_df) vacc_df
              (vacc_fill_cols_present vacc_df)) as (v1 & H3 & K3 & _).
  rewrite H1, H3. cbn [bind].
  pose proof (fill_medians_kept socio_cols c1) as K2.
  split; [|split].
  - intros c' v'. destruct (fill_medians socio_cols c1); cbn [bind];
      [|discriminate].
    intros [= <- <-]. split; [|exact K3].
    eapply frame_kept_trans; eassumption.
  - intros e. destruct (fill_medians socio_cols c1); cbn [bind];
      [discriminate|].
    intros [= <-]. exact K2.
  - intros Hnum.
    destruct (fill_medians_total socio_cols c1) as (c2 & H2).
    { intros col j Hin E. destruct K1 as [Ecols _]. rewrite Ecols in E.
      rewrite Hcol; [apply (Hnum col j Hin E)|].
      intros c Hc Ec. apply (socio_not_zero_filled col Hin).
      rewrite (index_of_inj col c _ _ E Ec). exact Hc. }
    rewrite H2. cbn [bind]. eauto.
Qed.

End ImputerClaims.

(** ** The dataset splitter *)

Lemma key_indices_present (names : list string) (df : frame) :
  (forall c, In c names -> In c (columns df)) ->
  exists idxs,
    key_indices names df = Ok idxs /\
    forall r, row_key idxs r = map (fun c => cell_of (columns df) c r) names.
Proof.
  unfold key_indices. induction names as [|c names IH]; intros H; simpl.
  - exists []. auto.
  - destruct (column_index_In c df) as (j & E & Ej);
      [apply H; left; reflexivity|].
    destruct IH as (idxs & Hok & Hkey);
      [intros x Hx; apply H; right; exact Hx|].
    exists (j :: idxs). rewrite Ej, Hok. simpl. split; [reflexivity|].
    intros r. rewrite Hkey. unfold cell_of at 2. rewrite E. reflexivity.
Qed.

Lemma available_present (cols : list string) (df : frame) (c : string) :
  In c (DataCleaning.available cols df) -> In c (columns df).
Proof.
  unfold DataCleaning.available. intros H. apply filter_In in H.
  apply has_column_In. tauto.
Qed.

Lemma getitem_list_available (cols : list string) (df : frame) :
  getitem_list (DataCleaning.available cols df) df =
  Ok (mkFrame (DataCleaning.available cols df)
        (map (project (columns df) (DataCleaning.available cols df))
             (rows df))).
Proof.
  unfold getitem_list.
  destruct (key_indices_present (DataCleaning.available cols df) df
              (available_present cols df)) as (idxs & Hok & Hkey).
  rewrite Hok. simpl. f_equal. f_equal.
  apply map_ext. intros r. unfold project. rewrite Hkey. reflexivity.
Qed.

Lemma dropna_no_missing (df : frame) : no_missing (dropna df).
Proof.
  unfold no_missing, dropna. simpl. apply Forall_forall. intros r Hr.
  apply filter_In in Hr. destruct Hr as [_ Hr].
  rewrite forallb_forall in Hr. apply Forall_forall. intros c Hc.
  specialize (Hr c Hc). destruct c; [discriminate Hr | | |]; discriminate.
Qed.

Lemma dropna_available_split (allow : list string) (df : frame) :
  split_of allow df
    (dropna (mkFrame (DataCleaning.available allow df)
               (map (project (columns df) (DataCleaning.available allow df))
                    (rows df)))).
Proof.
  split; [reflexivity|]. split; [reflexivity|]. apply dropna_no_missing.
Qed.

(** C9. The splitter always returns; each of its two outputs keeps exactly
    the columns of its allow-list that the snapshot has, in allow-list
    order, and of the snapshot's rows, restricted to these columns, exactly
    those without a missing value, in their order; so no row of either
    output has a missing value. *)
Theorem create_ml_datasets_split (integrated_df : frame) :
  exists regression_data classification_data,
    DataCleaning.create_ml_datasets integrated_df =
      Ok (regression_data, classification_data) /\
    split_of ["country"; "gdp_per_capita"; "hospital_beds_per_thousand";
              "population_density"; "median_age";
              "healthcare_capacity_index";
              "people_fully_vaccinated_per_hundred"; "vaccination_speed"]
             integrated_df regression_data /\
    split_of ["country"; "total_deaths_per_million"; "gdp_per_capita";
              "hospital_beds_per_thousand"; "human_development_index";
              "death_rate"; "healthcare_capacity_index"]
             integrated_df classification_data.
Proof.
  unfold DataCleaning.create_ml_datasets.
  rewrite !getitem_list_available. cbn [bind].
  eexists. eexists. split; [reflexivity|].
  split; apply dropna_available_split.
Qed.

(** ** Assigning a column *)

Lemma map_fst_combine {A B : Type} (l : list A) (s : list B) :
  List.length s = List.length l -> map fst (combine l s) = l.
Proof.
  revert s. induction l as [|a l IH]; intros [|b s] H; simpl in *;
    try discriminate; [reflexivity|].
  rewrite IH by lia. reflexivity.
Qed.

Lemma map_snd_combine {A B : Type} (l : list A) (s : list B) :
  List.length s = List.length l -> map snd (combine l s) = s.
Proof.
  revert s. induction l as [|a l IH]; intros [|b s] H; simpl in *;
    try discriminate; [reflexivity|].
  rewrite IH by lia. reflexivity.
Qed.

Lemma index_of_None (c : string) (cols : list string) :
  index_of c cols = None <-> ~ In c cols.
Proof.
  split.
  - intros H Hin. destruct (index_of_In _ _ Hin) as (j & E). congruence.
  - intros H. destruct (index_of c cols) eqn:E; [|reflexivity].
    apply index_of_Some_In in E. contradiction.
Qed.

Lemma index_of_app_new (c : string) (cols : list string) :
  index_of c cols = None ->
  index_of c (cols ++ [c]) = Some (List.length cols).
Proof.
  induction cols as [|x cols IH]; simpl.
  - rewrite String.eqb_refl. reflexivity.
  - destruct (String.eqb c x); [discriminate|].
    destruct (index_of c cols); simpl; [discriminate|].
    intros _. rewrite IH by reflexivity. reflexivity.
Qed.

Lemma index_of_app_other (c col : string) (cols : list string) :
  c <> col -> index_of c (cols ++ [col]) = index_of c cols.
Proof.
  intros Hne. induction cols as [|x cols IH]; simpl.
  - destruct (String.eqb c col) eqn:E; [|reflexivity].
    apply String.eqb_eq in E. contradiction.
  - destruct (String.eqb c x); [reflexivity|]. rewrite IH. reflexivity.
Qed.

Section Setitem.
Variables (col : string) (s : series) (df : frame).
Hypothesis Hwf : wf df.
Hypothesis Hlen : List.length s = List.length (rows df).

Lemma setitem_index :
  exists j,
    index_of col (columns (setitem col s df)) = Some j /\
    (index_of col (columns df) = Some j \/
     index_of col (columns df) = None /\ j = List.length (columns df)).
Proof.
  unfold setitem. destruct (index_of col (columns df)) as [j|] eqn:E; simpl.
  - exists j. auto.
  - exists (List.length (columns df)). split; [|auto].
    apply index_of_app_new. exact E.
Qed.

Lemma setitem_index_other (c : string) :
  c <> col ->
  index_of c (columns (setitem col s df)) = index_of c (columns df).
Proof.
  intros Hne. unfold setitem.
  destruct (index_of col (columns df)); simpl; [reflexivity|].
  apply index_of_app_other. exact Hne.
Qed.

Lemma setitem_has_column (c : string) :
  has_column c (setitem col s df) = has_column c df || String.eqb c col.
Proof.
  unfold has_column, setitem.
  destruct (index_of col (columns df)) as [j|] eqn:E; simpl.
  - destruct (String.eqb c col) eqn:Ec; [|rewrite orb_false_r; reflexivity].
    apply String.eqb_eq in Ec. subst c. rewrite orb_true_r.
    apply index_of_Some_In in E. apply (proj2 (mem_In col (columns df)) E).
  - rewrite existsb_app. simpl. rewrite orb_false_r. reflexivity.
Qed.

Lemma setitem_rows_length :
  List.length (rows (setitem col s df)) = List.length (rows df).
Proof.
  unfold setitem. destruct (index_of col (columns df)); simpl;
    rewrite length_map, length_combine; lia.
Qed.

Lemma setitem_labels :
  map label (rows (setitem col s df)) = map label (rows df).
Proof.
  unfold setitem. destruct (index_of col (columns df)); simpl;
    rewrite map_map; simpl;
    rewrite <- (map_map fst label), map_fst_combine by exact Hlen;
    reflexivity.
Qed.

Lemma setitem_wf : wf (setitem col s df).
Proof.
  unfold wf, setitem in *.
  destruct (index_of col (columns df)); simpl; apply Forall_forall;
    intros r' Hr'; apply in_map_iff in Hr';
    destruct Hr' as ((r & v) & <- & Hin); apply in_combine_l in Hin;
    rewrite Forall_forall in Hwf; specialize (Hwf r Hin); simpl.
  - rewrite update_length. exact Hwf.
  - rewrite !length_app. simpl. lia.
Qed.

Lemma setitem_column (j : nat) :
  index_of col (columns (setitem col s df)) = Some j ->
  column_at j (rows (setitem col s df)) = s.
Proof.
  intros Ej. destruct setitem_index as (j' & Ej' & Hj').
  assert (j' = j) by congruence. subst j'. clear Ej'.
  unfold setitem in *. unfold column_at.
  transitivity (map snd (combine (rows df) s));
    [|apply map_snd_combine; exact Hlen].
  destruct Hj' as [E|[E ->]]; rewrite E; simpl; rewrite map_map;
    apply map_ext_in; intros (r & v) Hin; apply in_combine_l in Hin;
    unfold wf in Hwf; rewrite Forall_forall in Hwf; specialize (Hwf r Hin);
    unfold get; simpl.
  - rewrite nth_update_same; [reflexivity|].
    apply index_of_lt in E. lia.
  - rewrite app_nth2 by lia. rewrite Hwf, Nat.sub_diag. reflexivity.
Qed.

Lemma setitem_column_other (c : string) (j : nat) :
  c <> col -> index_of c (columns df) = Some j ->
  column_at j (rows (setitem col s df)) = column_at j (rows df).
Proof.
  intros Hne Ej. unfold column_at.
  transitivity (map (get j) (map fst (combine (rows df) s)));
    [|rewrite map_fst_combine by exact Hlen; reflexivity].
  unfold setitem. destruct (index_of col (columns df)) as [j0|] eqn:E;
    simpl; rewrite !map_map; apply map_ext_in; intros (r & v) Hin;
    apply in_combine_l in Hin; unfold get; simpl.
  - apply nth_update_other.
    apply (index_of_neq col c (columns df)); [congruence | exact E | exact Ej].
  - unfold wf in Hwf. rewrite Forall_forall in Hwf. specialize (Hwf r Hin).
    apply app_nth1. apply index_of_lt in Ej. lia.
Qed.

End Setitem.

(** ** Element-wise operations *)

Lemma mapM_Forall2 {A B : Type} (f : A -> result B) (l : list A)
  (l' : list B) :
  mapM f l = Ok l' -> Forall2 (fun a b => f a = Ok b) l l'.
Proof.
  revert l'. induction l as [|a l IH]; intros l'; simpl.
  - intros [= <-]. constructor.
  - destruct (f a) as [b|] eqn:E; simpl; [|discriminate].
    destruct (mapM f l) as [bs|]; simpl; [|discriminate].
    intros [= <-]. constructor; auto.
Qed.

Lemma mapM_total {A B : Type} (f : A -> result B) (l : list A) :
  Forall (fun a => exists b, f a = Ok b) l -> exists l', mapM f l = Ok l'.
Proof.
  induction 1 as [|a l (b & Hb) Hl (l' & IH)]; simpl; [eauto|].
  rewrite Hb, IH. simpl. eauto.
Qed.

Lemma Forall2_nth_error {A B : Type} (R : A -> B -> Prop) (l : list A)
  (l' : list B) (i : nat) (a : A) :
  Forall2 R l l' -> nth_error l i = Some a ->
  exists b, nth_error l' i = Some b /\ R a b.
Proof.
  intros H. revert i. induction H as [|x y l l' Hxy H IH]; intros [|i];
    simpl; try discriminate.
  - intros [= <-]. eauto.
  - apply IH.
Qed.

Lemma mapM_length {A B : Type} (f : A -> result B) (l : list A)
  (l' : list B) :
  mapM f l = Ok l' -> List.length l' = List.length l.
Proof.
  intros H. apply mapM_Forall2 in H. symmetry.
  eapply Forall2_length. exact H.
Qed.

Lemma series_op_length (op : cell -> cell -> option cell) (a b s : series) :
  List.length a = List.length b ->
  series_op op a b = Ok s -> List.length s = List.length a.
Proof.
  intros Hl H. apply mapM_length in H. rewrite length_combine in H. lia.
Qed.

Lemma series_op_nth (op : cell -> cell -> option cell) (a b s : series)
  (i : nat) (x y : cell) :
  series_op op a b = Ok s ->
  nth_error a i = Some x -> nth_error b i = Some y ->
  exists z, nth_error s i = Some z /\ op x y = Some z.
Proof.
  intros H Hx Hy. apply mapM_Forall2 in H.
  assert (Hxy : nth_error (combine a b) i = Some (x, y)).
  { clear H. revert b i Hx Hy. induction a as [|a0 a IH]; intros [|b0 b] [|i];
      simpl; try discriminate.
    - intros [= ->] [= ->]. reflexivity.
    - apply IH. }
  destruct (Forall2_nth_error _ _ _ _ _ H Hxy) as (z & Hz & E).
  exists z. split; [exact Hz|]. simpl in E.
  destruct (op x y); simpl in E; congruence.
Qed.

Lemma series_scalar_nth (op : cell -> cell -> option cell) (a s : series)
  (k : cell) (i : nat) (x : cell) :
  series_scalar op a k = Ok s -> nth_error a i = Some x ->
  exists z, nth_error s i = Some z /\ op x k = Some z.
Proof.
  intros H Hx. apply mapM_Forall2 in H.
  destruct (Forall2_nth_error _ _ _ _ _ H Hx) as (z & Hz & E).
  exists z. split; [exact Hz|].
  destruct (op x k); simpl in E; congruence.
Qed.

Lemma column_at_length (j : nat) (rs : list row) :
  List.length (column_at j rs) = List.length rs.
Proof. apply length_map. Qed.

(** ** The grouped difference *)

Lemma last_in_group_snoc (k0 k v : cell) (pk pv : series) :
  List.length pk = List.length pv ->
  last_in_group k0 (pk ++ [k]) (pv ++ [v]) =
  if eqb k0 k then Some v else last_in_group k0 pk pv.
Proof.
  revert pv. induction pk as [|k' pk IH]; intros [|v' pv] Hl;
    simpl in *; try discriminate.
  - reflexivity.
  - rewrite IH by lia. destruct (eqb k0 k); [reflexivity|].
    reflexivity.
Qed.

Lemma last_in_group_None (k : cell) (keys vals : series) :
  List.length keys = List.length vals ->
  (last_in_group k keys vals = None <-> ~ In k keys).
Proof.
  revert vals. induction keys as [|k' keys IH]; intros [|v' vals] Hl;
    simpl in *; try discriminate.
  - tauto.
  - injection Hl as Hl. specialize (IH vals Hl).
    destruct (last_in_group k keys vals) as [q|].
    + split; [discriminate|]. intros Hn. exfalso.
      assert (Hk : ~ In k keys) by tauto.
      apply IH in Hk. discriminate.
    + destruct (eqb k k') eqn:Ek.
      * apply eqb_eq in Ek. split; [discriminate|]. intros Hn.
        exfalso. apply Hn. left. congruence.
      * apply eqb_neq in Ek. split; [|reflexivity].
        intros _ [E|Hin]; [congruence|]. apply (proj1 IH eq_refl Hin).
Qed.

(** [last_in_group] finds the value of the last row of the group. *)
Lemma last_in_group_Some (k p : cell) (keys vals : series) :
  List.length keys = List.length vals ->
  (last_in_group k keys vals = Some p <->
   exists a b a' b',
     keys = a ++ k :: b /\ vals = a' ++ p :: b' /\
     List.length a = List.length a' /\ ~ In k b).
Proof.
  intros Hl. split.
  - revert vals Hl. induction keys as [|k' keys IH]; intros [|v' vals] Hl;
      simpl in *; try discriminate.
    injection Hl as Hl.
    destruct (last_in_group k keys vals) as [q|] eqn:E.
    + intros [= <-].
      destruct (IH vals Hl E) as (a & b & a' & b' & -> & -> & Hlen & Hn).
      exists (k' :: a), b, (v' :: a'), b'. simpl. auto.
    + destruct (eqb k k') eqn:Ek; [|discriminate].
      intros [= <-]. apply eqb_eq in Ek. subst k'.
      exists [], keys, [], vals. repeat split; auto.
      apply (last_in_group_None k keys vals Hl). exact E.
  - intros (a & b & a' & b' & -> & -> & Hlen & Hn).
    rewrite !length_app in Hl. simpl in Hl.
    assert (Hb : List.length b = List.length b') by lia. clear Hl.
    revert a' Hlen. induction a as [|x a IH]; intros [|y a'] Hlen;
      simpl in *; try discriminate.
    + rewrite (proj2 (last_in_group_None k b b' Hb) Hn), eqb_refl.
      reflexivity.
    + rewrite (IH a') by lia. reflexivity.
Qed.

Lemma previous_observation_app (pk pv keys vals : series) (i : nat)
  (k : cell) :
  List.length pk = List.length pv ->
  previous_observation (pk ++ keys) (pv ++ vals) (List.length pk + i) k =
  if isna k then None
  else last_in_group k (pk ++ firstn i keys) (pv ++ firstn i vals).
Proof.
  intros Hp. unfold previous_observation.
  rewrite firstn_app_2, Hp, firstn_app_2. reflexivity.
Qed.

(** The one-pass difference subtracts, from every row, the previous
    observation of its group; [pk] and [pv] are the rows already passed
    and [seen] summarises them. *)
Lemma groupby_diff_from_spec (keys : series) :
  forall (vals : series) (seen : list (cell * cell)) (pk pv ds : series),
    List.length pk = List.length pv ->
    (forall k, isna k = false -> lookup k seen = last_in_group k pk pv) ->
    List.length keys = List.length vals ->
    groupby_diff_from seen keys vals = Ok ds ->
    List.length ds = List.length keys /\
    forall i k v,
      nth_error keys i = Some k -> nth_error vals i = Some v ->
      exists d,
        nth_error ds i = Some d /\
        sub v (match previous_observation (pk ++ keys) (pv ++ vals)
                       (List.length pk + i) k with
               | Some p => p
               | None => NA
               end) = Some d.
Proof.
  induction keys as [|k0 keys IH]; intros [|v0 vals] seen pk pv ds Hp Hseen Hl;
    simpl in Hl; try discriminate.
  - simpl. intros [= <-]. split; [reflexivity|]. intros [|i]; discriminate.
  - cbn [groupby_diff_from].
    set (shifted := if isna k0 then NA
                    else match lookup k0 seen with
                         | Some p => p
                         | None => NA
                         end).
    destruct (sub v0 shifted) as [d0|] eqn:Ed; cbn [of_option bind];
      [|discriminate].
    destruct (groupby_diff_from (if isna k0 then seen else (k0, v0) :: seen)
                keys vals) as [ds'|] eqn:Erec;
      cbn [bind]; [|discriminate].
    intros [= <-].
    destruct (IH vals (if isna k0 then seen else (k0, v0) :: seen)
                (pk ++ [k0]) (pv ++ [v0]) ds') as (Hlen & Hnth);
      try exact Erec.
    { rewrite !length_app. simpl. lia. }
    { intros k Hk. rewrite last_in_group_snoc by exact Hp.
      destruct (isna k0) eqn:Ek0.
      - destruct k0; try discriminate. rewrite Hseen by exact Hk.
        destruct k; try discriminate; reflexivity.
      - simpl. rewrite Hseen by exact Hk. reflexivity. }
    { lia. }
    split; [simpl; lia|].
    intros [|i] k v; simpl.
    + intros [= <-] [= <-]. exists d0. split; [reflexivity|].
      rewrite <- Ed. f_equal.
      rewrite previous_observation_app by exact Hp. unfold shifted.
      destruct (isna k0) eqn:Ek0; [reflexivity|].
      simpl. rewrite !app_nil_r. rewrite Hseen by exact Ek0. reflexivity.
    + intros Hk Hv. destruct (Hnth i k v Hk Hv) as (d & Hd & Hsub).
      exists d. split; [exact Hd|]. rewrite <- Hsub. f_equal.
      rewrite !previous_observation_app;
        [|rewrite !length_app; simpl; lia | exact Hp].
      simpl. rewrite <- !app_assoc. reflexivity.
Qed.

Lemma groupby_diff_spec (keys vals ds : series) :
  List.length keys = List.length vals ->
  groupby_diff keys vals = Ok ds ->
  List.length ds = List.length keys /\
  forall i k v,
    nth_error keys i = Some k -> nth_error vals i = Some v ->
    exists d,
      nth_error ds i = Some d /\
      sub v (match previous_observation keys vals i k with
             | Some p => p
             | None => NA
             end) = Some d.
Proof.
  intros Hl H.
  apply (groupby_diff_from_spec keys vals [] [] [] ds); auto.
Qed.

(** The difference is computed whenever the values are numbers. *)
Lemma groupby_diff_from_total (keys vals : series)
  (seen : list (cell * cell)) :
  Forall (fun c => is_numeric c = true) vals ->
  Forall (fun kv => is_numeric (snd kv) = true) seen ->
  exists ds, groupby_diff_from seen keys vals = Ok ds.
Proof.
  intros Hv. revert keys seen.
  induction Hv as [|v vals Hnum Hv IH]; intros [|k keys] seen Hseen;
    simpl; eauto.
  assert (Hs : forall c, is_numeric c = true ->
                         exists d, sub v c = Some d).
  { intros c Hc. destruct v, c; try discriminate; simpl; eauto. }
  assert (Hlook : forall p, lookup k seen = Some p -> is_numeric p = true).
  { clear -Hseen. induction Hseen as [|[k' v'] seen Hkv Hs IH]; simpl;
      [discriminate|].
    intros p. destruct (eqb k k'); [intros [= <-]; exact Hkv | apply IH]. }
  match goal with
  | |- context [sub v ?c] =>
      destruct (Hs c) as (d & Ed);
      [destruct (isna k); [reflexivity|];
       destruct (lookup k seen) as [p|] eqn:El; [eauto | reflexivity]|]
  end.
  rewrite Ed. simpl.
  destruct (IH keys (if isna k then seen else (k, v) :: seen)) as (ds & Eds).
  { destruct (isna k); [exact Hseen|]. constructor; auto. }
  rewrite Eds. simpl. eauto.
Qed.

(** ** The feature builder, step by step *)

Lemma getitem_Ok (col : string) (df : frame) (s : series) :
  getitem col df = Ok s ->
  exists j, index_of col (columns df) = Some j /\ s = column_at j (rows df).
Proof.
  unfold getitem, column_index.
  destruct (index_of col (columns df)) as [j|]; simpl; [|discriminate].
  intros [= <-]. eauto.
Qed.

Lemma getitem_absent (col : string) (df : frame) :
  ~ In col (columns df) -> getitem col df = Err (KeyError col).
Proof.
  intros H. unfold getitem. rewrite column_index_absent by exact H.
  reflexivity.
Qed.

(** A column read back after it was assigned. *)
Lemma setitem_get (col : string) (s : series) (df : frame) :
  wf df -> List.length s = List.length (rows df) ->
  exists j, index_of col (columns (setitem col s df)) = Some j /\
            column_at j (rows (setitem col s df)) = s.
Proof.
  intros W L. destruct (setitem_index col s df) as (j & E & _).
  exists j. split; [exact E|]. apply setitem_column; assumption.
Qed.

(** Another column read after an assignment. *)
Lemma setitem_get_other (col c : string) (s : series) (df : frame) (j : nat) :
  wf df -> List.length s = List.length (rows df) -> c <> col ->
  index_of c (columns (setitem col s df)) = Some j ->
  index_of c (columns df) = Some j /\
  column_at j (rows (setitem col s df)) = column_at j (rows df).
Proof.
  intros W L Hne E. rewrite setitem_index_other in E by exact Hne.
  split; [exact E|]. eapply setitem_column_other; eassumption.
Qed.

Section FeatureSteps.
Import DataCleaning.

Lemma death_rate_length (td tc dr : series) :
  List.length td = List.length tc ->
  death_rate td tc = Ok dr -> List.length dr = List.length td.
Proof.
  intros L. unfold death_rate.
  destruct (series_op div td tc) as [ratio|] eqn:E1; cbn [bind];
    [|discriminate].
  destruct (series_scalar mul ratio hundred) as [pct|] eqn:E2; cbn [bind];
    [|discriminate].
  intros [= <-]. rewrite !length_map.
  apply mapM_length in E2. rewrite E2.
  eapply series_op_length; eassumption.
Qed.

Lemma healthcare_capacity_index_length (beds gdp hci : series) :
  List.length beds = List.length gdp ->
  healthcare_capacity_index beds gdp = Ok hci ->
  List.length hci = List.length beds.
Proof.
  intros L. unfold healthcare_capacity_index.
  destruct (series_op mul beds gdp) as [prod|] eqn:E1; cbn [bind];
    [|discriminate].
  destruct (series_scalar div prod ten_thousand) as [sc|] eqn:E2;
    cbn [bind]; [|discriminate].
  intros [= <-]. rewrite length_map.
  apply mapM_length in E2. rewrite E2.
  eapply series_op_length; eassumption.
Qed.

Lemma vaccination_speed_length (keys vals speed : series) :
  List.length keys = List.length vals ->
  vaccination_speed keys vals = Ok speed ->
  List.length speed = List.length keys.
Proof.
  intros L. unfold vaccination_speed.
  destruct (groupby_diff keys vals) as [d|] eqn:E; cbn [bind];
    [|discriminate].
  intros [= <-]. rewrite length_map.
  apply (groupby_diff_spec keys vals d L E).
Qed.

Lemma vaccination_efficiency_length (fully vaccinated eff : series) :
  List.length fully = List.length vaccinated ->
  vaccination_efficiency fully vaccinated = Ok eff ->
  List.length eff = List.length fully.
Proof.
  intros L. unfold vaccination_efficiency.
  destruct (series_op div fully vaccinated) as [ratio|] eqn:E1; cbn [bind];
    [|discriminate].
  intros E2. apply mapM_length in E2. rewrite E2, !length_map.
  eapply series_op_length; eassumption.
Qed.

(** What the vaccination half of the feature builder returns. *)
Lemma vacc_features_of_Ok (vacc_df out : frame) :
  wf vacc_df -> vacc_features_of vacc_df = Ok out ->
  exists jc jp jf jv speed eff,
    index_of "country" (columns vacc_df) = Some jc /\
    index_of "people_vaccinated_per_hundred" (columns vacc_df) = Some jp /\
    index_of "people_fully_vaccinated" (columns vacc_df) = Some jf /\
    index_of "people_vaccinated" (columns vacc_df) = Some jv /\
    vaccination_speed (column_at jc (rows vacc_df))
                      (column_at jp (rows vacc_df)) = Ok speed /\
    vaccination_efficiency (column_at jf (rows vacc_df))
                           (column_at jv (rows vacc_df)) = Ok eff /\
    List.length speed = List.length (rows vacc_df) /\
    List.length eff = List.length (rows vacc_df) /\
    out = setitem "vaccination_efficiency" eff
            (setitem "vaccination_speed" speed vacc_df).
Proof.
  intros W. unfold vacc_features_of.
  destruct (getitem "country" vacc_df) as [country|] eqn:G1; cbn [bind];
    [|discriminate].
  destruct (getitem "people_vaccinated_per_hundred" vacc_df)
    as [per_hundred|] eqn:G2; cbn [bind]; [|discriminate].
  destruct (vaccination_speed country per_hundred) as [speed|] eqn:S1;
    cbn [bind]; [|discriminate].
  destruct (getitem_Ok _ _ _ G1) as (jc & Ec & ->).
  destruct (getitem_Ok _ _ _ G2) as (jp & Ep & ->).
  assert (Ls : List.length speed = List.length (rows vacc_df)).
  { rewrite (vaccination_speed_length _ _ _ ltac:(rewrite !column_at_length;
      reflexivity) S1). apply column_at_length. }
  destruct (getitem "people_fully_vaccinated" _) as [fully|] eqn:G3;
    cbn [bind]; [|discriminate].
  destruct (getitem "people_vaccinated" _) as [vaccinated|] eqn:G4;
    cbn [bind]; [|discriminate].
  destruct (vaccination_efficiency fully vaccinated) as [eff|] eqn:S2;
    cbn [bind]; [|discriminate].
  intros [= <-].
  destruct (getitem_Ok _ _ _ G3) as (jf & Ef & ->).
  destruct (getitem_Ok _ _ _ G4) as (jv & Ev & ->).
  destruct (setitem_get_other "vaccination_speed" "people_fully_vaccinated"
              speed vacc_df jf W Ls ltac:(discriminate) Ef) as (Ef' & Cf).
  destruct (setitem_get_other "vaccination_speed" "people_vaccinated"
              speed vacc_df jv W Ls ltac:(discriminate) Ev) as (Ev' & Cv).
  rewrite Cf, Cv in S2.
  exists jc, jp, jf, jv, speed, eff.
  repeat (split; [assumption|]). split; [|reflexivity].
  rewrite (vaccination_efficiency_length _ _ _ ltac:(rewrite !column_at_length;
    reflexivity) S2). apply column_at_length.
Qed.

(** What the case/death half of the feature builder returns. *)
Lemma covid_features_of_Ok (covid_df out : frame) :
  wf covid_df -> covid_features_of covid_df = Ok out ->
  exists jd jc dr,
    index_of "total_deaths" (columns covid_df) = Some jd /\
    index_of "total_cases" (columns covid_df) = Some jc /\
    death_rate (column_at jd (rows covid_df))
               (column_at jc (rows covid_df)) = Ok dr /\
    List.length dr = List.length (rows covid_df) /\
    ((has_column "hospital_beds_per_thousand" covid_df
      && has_column "gdp_per_capita" covid_df = false /\
      out = setitem "death_rate" dr covid_df) \/
     (exists jb jg hci,
        index_of "hospital_beds_per_thousand" (columns covid_df) = Some jb /\
        index_of "gdp_per_capita" (columns covid_df) = Some jg /\
        healthcare_capacity_index (column_at jb (rows covid_df))
                                  (column_at jg (rows covid_df)) = Ok hci /\
        List.length hci = List.length (rows covid_df) /\
        out = setitem "healthcare_capacity_index" hci
                (setitem "death_rate" dr covid_df))).
Proof.
  intros W. unfold covid_features_of.
  destruct (getitem "total_deaths" covid_df) as [td|] eqn:G1; cbn [bind];
    [|discriminate].
  destruct (getitem "total_cases" covid_df) as [tc|] eqn:G2; cbn [bind];
    [|discriminate].
  destruct (death_rate td tc) as [dr|] eqn:D; cbn [bind]; [|discriminate].
  destruct (getitem_Ok _ _ _ G1) as (jd & Ed & ->).
  destruct (getitem_Ok _ _ _ G2) as (jc & Ec & ->).
  assert (Ld : List.length dr = List.length (rows covid_df)).
  { rewrite (death_rate_length _ _ _ ltac:(rewrite !column_at_length;
      reflexivity) D). apply column_at_length. }
  rewrite !setitem_has_column. simpl (String.eqb _ "death_rate").
  rewrite !orb_false_r.
  destruct (has_column "hospital_beds_per_thousand" covid_df
            && has_column "gdp_per_capita" covid_df) eqn:Hb.
  - destruct (getitem "hospital_beds_per_thousand" _) as [beds|] eqn:G3;
      cbn [bind]; [|discriminate].
    destruct (getitem "gdp_per_capita" _) as [gdp|] eqn:G4; cbn [bind];
      [|discriminate].
    destruct (healthcare_capacity_index beds gdp) as [hci|] eqn:H;
      cbn [bind]; [|discriminate].
    intros [= <-].
    destruct (getitem_Ok _ _ _ G3) as (jb & Eb & ->).
    destruct (getitem_Ok _ _ _ G4) as (jg & Eg & ->).
    destruct (setitem_get_other "death_rate" "hospital_beds_per_thousand"
                dr covid_df jb W Ld ltac:(discriminate) Eb) as (Eb' & Cb).
    destruct (setitem_get_other "death_rate" "gdp_per_capita"
                dr covid_df jg W Ld ltac:(discriminate) Eg) as (Eg' & Cg).
    rewrite Cb, Cg in H.
    exists jd, jc, dr. repeat (split; [assumption|]). right.
    exists jb, jg, hci. repeat (split; [assumption|]).
    split; [|reflexivity].
    rewrite (healthcare_capacity_index_length _ _ _
               ltac:(rewrite !column_at_length; reflexivity) H).
    apply column_at_length.
  - intros [= <-]. exists jd, jc, dr. repeat (split; [assumption|]).
    left. auto.
Qed.

Lemma create_features_Ok (covid_df vacc_df covid' vacc' : frame) :
  create_features covid_df vacc_df = Ok (covid', vacc') ->
  covid_features_of covid_df = Ok covid' /\
  vacc_features_of vacc_df = Ok vacc'.
Proof.
  unfold create_features.
  destruct (covid_features_of covid_df); cbn [bind]; [|discriminate].
  destruct (vacc_features_of vacc_df); cbn [bind]; [|discriminate].
  intros [= <- <-]. auto.
Qed.

End FeatureSteps.

(** ** Claims on the feature builder *)

Section FeatureClaims.
Import DataCleaning.

(** Where the two vaccination features sit in the output. *)
Lemma vacc_feature_columns (vacc_df : frame) (speed eff : series) :
  wf vacc_df ->
  List.length speed = List.length (rows vacc_df) ->
  List.length eff = List.length (rows vacc_df) ->
  let out := setitem "vaccination_efficiency" eff
               (setitem "vaccination_speed" speed vacc_df) in
  (exists js, index_of "vaccination_speed" (columns out) = Some js /\
              column_at js (rows out) = speed) /\
  (exists je, index_of "vaccination_efficiency" (columns out) = Some je /\
              column_at je (rows out) = eff).
Proof.
  intros W Ls Le out.
  assert (W1 : wf (setitem "vaccination_speed" speed vacc_df))
    by (apply setitem_wf; assumption).
  assert (Le1 : List.length eff =
                List.length (rows (setitem "vaccination_speed" speed vacc_df)))
    by (rewrite setitem_rows_length; assumption).
  split.
  - destruct (setitem_get "vaccination_speed" speed vacc_df W Ls)
      as (js & Ejs & Cjs).
    exists js. unfold out. split.
    + rewrite setitem_index_other by discriminate. exact Ejs.
    + rewrite (setitem_column_other "vaccination_efficiency" eff _ W1 Le1
                 "vaccination_speed" js ltac:(discriminate) Ejs).
      exact Cjs.
  - apply setitem_get; assumption.
Qed.



(** *** Safety of the ratios *)

Lemma arith_numeric (op : number -> number -> cell) (a b c : cell) :
  (forall x y, is_numeric (op x y) = true) ->
  arith op a b = Some c -> is_numeric c = true.
Proof.
  intros Hop. destruct a, b; simpl; try discriminate;
    intros [= <-]; auto.
Qed.

Lemma number_mul_numeric (x y : number) : is_numeric (number_mul x y) = true.
Proof.
  destruct x, y; simpl; repeat match goal with
  | |- context [if ?b then _ else _] => destruct b
  end; reflexivity.
Qed.

Lemma clean_finite (p : cell) :
  is_numeric p = true -> is_finite (fillna zero (replace_inf p)) = true.
Proof. destruct p as [|[q| |]| |]; simpl; try discriminate; reflexivity. Qed.

Lemma death_rate_cell (n d q p : cell) :
  div n d = Some q -> mul q hundred = Some p ->
  safe_ratio n d (fillna zero (replace_inf p)).
Proof.
  intros Hq Hp. split.
  - apply clean_finite.
    eapply arith_numeric; [apply number_mul_numeric | exact Hp].
  - intros ->. destruct n as [|[a| |]| |]; simpl in Hq; try discriminate;
      injection Hq as <-.
    + injection Hp as <-. reflexivity.
    + change (is_zero 0) with true in Hp. cbv iota in Hp.
      destruct (is_zero a); simpl in Hp.
      * injection Hp as <-. reflexivity.
      * unfold signed_inf in Hp. destruct (Bool.eqb true (sign_pos a));
          simpl in Hp; injection Hp as <-; reflexivity.
    + simpl in Hp. injection Hp as <-. reflexivity.
    + simpl in Hp. injection Hp as <-. reflexivity.
Qed.

Lemma vaccination_efficiency_cell (n d q r : cell) :
  div n d = Some q -> mul (fillna zero (replace_inf q)) hundred = Some r ->
  scaled_safe_ratio n d r.
Proof.
  intros Hq Hr.
  assert (Hn : is_numeric q = true)
    by (eapply arith_numeric; [apply number_div_numeric | exact Hq]).
  assert (Hf : is_finite (fillna zero (replace_inf q)) = true)
    by (apply clean_finite; exact Hn).
  split.
  - destruct (fillna zero (replace_inf q)) as [|[x| |]| |];
      try discriminate. simpl in Hr. injection Hr as <-. discriminate.
  - intros ->.
    assert (Hz : fillna zero (replace_inf q) = zero).
    { destruct n as [|[a| |]| |]; simpl in Hq; try discriminate;
        injection Hq as <-; try reflexivity.
      change (is_zero 0) with true. cbv iota.
      destruct (is_zero a); [reflexivity|].
      unfold signed_inf. destruct (Bool.eqb true (sign_pos a)); reflexivity. }
    rewrite Hz in Hr. injection Hr as <-.
    apply eqb_eq. vm_compute. reflexivity.
Qed.

Lemma healthcare_capacity_cell (b g p q : cell) :
  mul b g = Some p -> div p ten_thousand = Some q ->
  filled_product b g (fillna zero q).
Proof. intros _ _. unfold filled_product. destruct q; simpl; discriminate. Qed.

Lemma death_rate_pointwise (td tc dr : series) :
  List.length td = List.length tc ->
  death_rate td tc = Ok dr -> pointwise safe_ratio td tc dr.
Proof.
  intros L H. split; [eapply death_rate_length; eassumption|].
  unfold death_rate in H.
  destruct (series_op div td tc) as [ratio|] eqn:E1; cbn [bind] in H;
    [|discriminate].
  destruct (series_scalar mul ratio hundred) as [pct|] eqn:E2;
    cbn [bind] in H; [|discriminate].
  injection H as <-. intros i x y Hx Hy.
  destruct (series_op_nth _ _ _ _ _ _ _ E1 Hx Hy) as (q & Hq & Eq).
  destruct (series_scalar_nth _ _ _ _ _ _ E2 Hq) as (p & Hp & Ep).
  exists (fillna zero (replace_inf p)). split.
  - rewrite !nth_error_map, Hp. reflexivity.
  - eapply death_rate_cell; eassumption.
Qed.

Lemma vaccination_efficiency_pointwise (fully vaccinated eff : series) :
  List.length fully = List.length vaccinated ->
  vaccination_efficiency fully vaccinated = Ok eff ->
  pointwise scaled_safe_ratio fully vaccinated eff.
Proof.
  intros L H. split; [eapply vaccination_efficiency_length; eassumption|].
  unfold vaccination_efficiency in H.
  destruct (series_op div fully vaccinated) as [ratio|] eqn:E1;
    cbn [bind] in H; [|discriminate].
  intros i x y Hx Hy.
  destruct (series_op_nth _ _ _ _ _ _ _ E1 Hx Hy) as (q & Hq & Eq).
  assert (Hq' : nth_error (map (fillna zero) (map replace_inf ratio)) i =
                Some (fillna zero (replace_inf q)))
    by (rewrite !nth_error_map, Hq; reflexivity).
  destruct (series_scalar_nth _ _ _ _ _ _ H Hq') as (r & Hr & Er).
  exists r. split; [exact Hr|].
  eapply vaccination_efficiency_cell; eassumption.
Qed.

Lemma healthcare_capacity_index_pointwise (beds gdp hci : series) :
  List.length beds = List.length gdp ->
  healthcare_capacity_index beds gdp = Ok hci ->
  pointwise filled_product beds gdp hci.
Proof.
  intros L H.
  split; [eapply healthcare_capacity_index_length; eassumption|].
  unfold healthcare_capacity_index in H.
  destruct (series_op mul beds gdp) as [prod|] eqn:E1; cbn [bind] in H;
    [|discriminate].
  destruct (series_scalar div prod ten_thousand) as [sc|] eqn:E2;
    cbn [bind] in H; [|discriminate].
  injection H as <-. intros i x y Hx Hy.
  destruct (series_op_nth _ _ _ _ _ _ _ E1 Hx Hy) as (p & Hp & Ep).
  destruct (series_scalar_nth _ _ _ _ _ _ E2 Hp) as (q & Hq & Eq).
  exists (fillna zero q). split.
  - rewrite nth_error_map, Hq. reflexivity.
  - eapply healthcare_capacity_cell; eassumption.
Qed.

(** Two columns assigned one after the other, read back. *)
Lemma setitem_setitem_get (c1 c2 : string) (s1 s2 : series) (df : frame) :
  wf df -> c1 <> c2 ->
  List.length s1 = List.length (rows df) ->
  List.length s2 = List.length (rows df) ->
  let out := setitem c2 s2 (setitem c1 s1 df) in
  (exists j1, index_of c1 (columns out) = Some j1 /\
              column_at j1 (rows out) = s1) /\
  (exists j2, index_of c2 (columns out) = Some j2 /\
              column_at j2 (rows out) = s2).
Proof.
  intros W Hne L1 L2 out.
  assert (W1 : wf (setitem c1 s1 df)) by (apply setitem_wf; assumption).
  assert (L2' : List.length s2 = List.length (rows (setitem c1 s1 df)))
    by (rewrite setitem_rows_length; assumption).
  split.
  - destruct (setitem_get c1 s1 df W L1) as (j1 & E1 & C1).
    exists j1. unfold out. split.
    + rewrite setitem_index_other by exact Hne. exact E1.
    + rewrite (setitem_column_other c2 s2 _ W1 L2' c1 j1 Hne E1). exact C1.
  - apply setitem_get; assumption.
Qed.

(** C3, as the code has it.  In the output of the feature builder every
    death_rate is a finite number, and 0 wherever total_cases is 0, whatever
    the numerator: the infinities and the undefined quotients are replaced
    last.  Every vaccination_efficiency is defined (not missing) and is 0
    wherever people_vaccinated is 0; it is not stated to be finite: the
    scaling by 100 comes after the replacement, so nothing removes an
    infinity that the multiplication itself produces.
    healthcare_capacity_index, computed when both of its source columns
    exist, is defined in every row, and nothing more: its infinities are
    not replaced. *)
Theorem feature_columns_safe (covid_df vacc_df covid' vacc' : frame) :
  wf covid_df -> wf vacc_df ->
  create_features covid_df vacc_df = Ok (covid', vacc') ->
  (exists j jd jc,
     index_of "death_rate" (columns covid') = Some j /\
     index_of "total_deaths" (columns covid_df) = Some jd /\
     index_of "total_cases" (columns covid_df) = Some jc /\
     pointwise safe_ratio (column_at jd (rows covid_df))
       (column_at jc (rows covid_df)) (column_at j (rows covid'))) /\
  (exists j jf jv,
     index_of "vaccination_efficiency" (columns vacc') = Some j /\
     index_of "people_fully_vaccinated" (columns vacc_df) = Some jf /\
     index_of "people_vaccinated" (columns vacc_df) = Some jv /\
     pointwise scaled_safe_ratio (column_at jf (rows vacc_df))
       (column_at jv (rows vacc_df)) (column_at j (rows vacc'))) /\
  (forall jb jg,
     index_of "hospital_beds_per_thousand" (columns covid_df) = Some jb ->
     index_of "gdp_per_capita" (columns covid_df) = Some jg ->
     exists j,
       index_of "healthcare_capacity_index" (columns covid') = Some j /\
       pointwise filled_product (column_at jb (rows covid_df))
         (column_at jg (rows covid_df)) (column_at j (rows covid'))).
Proof.
  intros Wc Wv H. apply create_features_Ok in H. destruct H as [Hc Hv].
  destruct (covid_features_of_Ok _ _ Wc Hc)
    as (jd & jc & dr & Ed & Ec & Hdr & Ldr & Hout).
  destruct (vacc_features_of_Ok _ _ Wv Hv)
    as (_ & _ & jf & jv & speed & eff & _ & _ & Ef & Ev & _ & Heff &
        Ls & Le & ->).
  assert (Pdr := death_rate_pointwise _ _ _
                   ltac:(rewrite !column_at_length; reflexivity) Hdr).
  assert (Peff := vaccination_efficiency_pointwise _ _ _
                    ltac:(rewrite !column_at_length; reflexivity) Heff).
  split; [|split].
  - destruct Hout as [[_ ->]|(jb & jg & hci & _ & _ & _ & Lh & ->)].
    + destruct (setitem_get "death_rate" dr covid_df Wc Ldr) as (j & E & C).
      exists j, jd, jc. rewrite C. auto.
    + destruct (setitem_setitem_get "death_rate"
                  "healthcare_capacity_index" dr hci covid_df Wc
                  ltac:(discriminate) Ldr Lh) as ((j & E & C) & _).
      exists j, jd, jc. rewrite C. auto.
  - destruct (vacc_feature_columns vacc_df speed eff Wv Ls Le)
      as (_ & (je & Eje & Cje)).
    exists je, jf, jv. rewrite Cje. auto.
  - intros jb jg Eb Eg.
    destruct Hout as [[Hb _]|(jb' & jg' & hci & Eb' & Eg' & Hh & Lh & ->)].
    + exfalso. apply index_of_Some_In in Eb, Eg.
      apply has_column_In in Eb, Eg. rewrite Eb, Eg in Hb. discriminate.
    + assert (jb' = jb) by congruence. assert (jg' = jg) by congruence.
      subst jb' jg'.
      destruct (setitem_setitem_get "death_rate"
                  "healthcare_capacity_index" dr hci covid_df Wc
                  ltac:(discriminate) Ldr Lh) as (_ & (j & E & C)).
      exists j. split; [exact E|]. rewrite C.
      apply healthcare_capacity_index_pointwise;
        [rewrite !column_at_length; reflexivity | exact Hh].
Qed.

(** Deaths 0, 3, 1 over cases 0, 0, 12 give the death rates 0, 0, 25/3;
    fully vaccinated 0, 1, 3, 3 over vaccinated 0, 2, 0, 4 give the
    efficiencies 0, 50, 0, 75; 2, missing, 2 beds per thousand with
    30000 per capita give the capacity indices 6, 0, 6. *)
Lemma feature_columns_safe_witness :
  wf covid_imputed_example /\ wf vacc_imputed_example /\
  create_features covid_imputed_example vacc_imputed_example =
    Ok (fst features_example, snd features_example) /\
  column_at 6 (rows (fst features_example)) =
    [zero; zero; Num (Fin (Q2Qc (25 # 3)))] /\
  column_at 6 (rows (snd features_example)) =
    [zero; num 50; zero; num 75] /\
  column_at 7 (rows (fst features_example)) = [num 6; zero; num 6] /\
  (exists j jd jc,
     index_of "death_rate" (columns (fst features_example)) = Some j /\
     index_of "total_deaths" (columns covid_imputed_example) = Some jd /\
     index_of "total_cases" (columns covid_imputed_example) = Some jc /\
     pointwise safe_ratio (column_at jd (rows covid_imputed_example))
       (column_at jc (rows covid_imputed_example))
       (column_at j (rows (fst features_example)))) /\
  (exists j jf jv,
     index_of "vaccination_efficiency" (columns (snd features_example)) =
       Some j /\
     index_of "people_fully_vaccinated" (columns vacc_imputed_example) =
       Some jf /\
     index_of "people_vaccinated" (columns vacc_imputed_example) = Some jv /\
     pointwise scaled_safe_ratio (column_at jf (rows vacc_imputed_example))
       (column_at jv (rows vacc_imputed_example))
       (column_at j (rows (snd features_example)))).
Proof.
  assert (Wc : wf covid_imputed_example) by (repeat constructor).
  assert (Wv : wf vacc_imputed_example) by (repeat constructor).
  assert (H : create_features covid_imputed_example vacc_imputed_example =
              Ok (fst features_example, snd features_example))
    by (vm_compute; reflexivity).
  split; [exact Wc|]. split; [exact Wv|]. split; [exact H|].
  split; [apply series_eqb_eq; vm_compute; repeat constructor|].
  split; [apply series_eqb_eq; vm_compute; repeat constructor|].
  split; [apply series_eqb_eq; vm_compute; repeat constructor|].
  destruct (feature_columns_safe _ _ _ _ Wc Wv H) as (Hd & He & _).
  split; [exact Hd | exact He].
Defined.

(** C3 as stated fails: an infinite hospital_beds_per_thousand gives an
    infinite healthcare_capacity_index, since that column is only passed
    through [fillna(0)]. *)
Lemma healthcare_capacity_index_infinite :
  exists covid' vacc' j,
    create_features covid_infinite_example vacc_imputed_example =
      Ok (covid', vacc') /\
    index_of "healthcare_capacity_index" (columns covid') = Some j /\
    column_at j (rows covid') = [Num PInf] /\
    is_finite (Num PInf) = false.
Proof.
  destruct (create_features covid_infinite_example vacc_imputed_example)
    as [[c' v']|] eqn:E; [|vm_compute in E; discriminate].
  exists c', v', 7%nat. split; [reflexivity|].
  vm_compute in E. injection E as <- _.
  repeat split.
Qed.

(** C2.  A validated case/death table need not have the optional column
    total_deaths; on such a table the feature builder raises KeyError
    instead of skipping death_rate. *)
Theorem create_features_raises_without_total_deaths :
  DataEngineering.load_and_validate_covid covid_no_deaths_example =
    Ok covid_no_deaths_example /\
  impute_missing_values covid_no_deaths_example vacc_imputed_example =
    Ok (covid_no_deaths_example, vacc_imputed_example) /\
  forall vacc_df,
    create_features covid_no_deaths_example vacc_df =
      Err (KeyError "total_deaths").
Proof.
  split; [vm_compute; reflexivity|]. split; [vm_compute; reflexivity|].
  intros vacc_df. reflexivity.
Qed.

End FeatureClaims.

(** ** The integrator *)

(** C1.  The integrator does not keep the chronologically last row of a
    country: [last] takes the last value of every column that is not
    missing.  Country X has the rows (day 1, population 5) and (day 2,
    population missing); its row in the snapshot carries day 2 with
    population 5, which is no row of the input. *)
Theorem integrate_datasets_mixes_rows :
  last_row_of (Str "X") covid_features_example =
    Some (mkRow 1 [Str "X"; Date 2; num 20; NA]) /\
  exists out,
    DataCleaning.integrate_datasets covid_features_example
      vacc_features_example = Ok out /\
    columns out = ["country"; "date_covid"; "total_cases"; "population";
                   "date_vacc"; "total_vaccinations"] /\
    rows out = [mkRow 0 [Str "X"; Date 2; num 20; num 5; Date 1; num 7]].
Proof.
  split; [vm_compute; reflexivity|].
  eexists. split; [vm_compute; reflexivity|]. split; vm_compute; reflexivity.
Qed.

(** ** Further properties of the imputer *)

Section ImputerRerun.
Import DataCleaning.

Lemma fillna_numeric (m c : cell) :
  is_numeric m = true -> is_numeric c = true ->
  is_numeric (fillna m c) = true.
Proof. intros Hm Hc. destruct c; simpl; auto. Qed.

(** After a run of the imputer the median-fill columns hold numbers. *)
Lemma impute_numeric_columns (covid_df vacc_df covid' vacc' : frame) :
  wf covid_df ->
  impute_missing_values covid_df vacc_df = Ok (covid', vacc') ->
  numeric_columns socio_cols covid'.
Proof.
  intros W H. unfold impute_missing_values in H.
  destruct (fill_values_spec covid_strategies covid_df)
    as (c1 & H1 & K1 & W1 & _ & _).
  rewrite H1 in H. cbn [bind] in H.
  destruct (fill_medians socio_cols c1) as [c2|] eqn:H2; cbn [bind] in H;
    [|discriminate].
  destruct (fill_zeros (vacc_fill_cols vacc_df) vacc_df) as [v2|];
    cbn [bind] in H; [|discriminate].
  injection H as <- <-.
  pose proof (fill_medians_kept socio_cols c1) as K2. rewrite H2 in K2.
  destruct (fill_medians_column _ _ _ socio_cols_NoDup (W1 W) H2)
    as (_ & Hcols).
  intros col j Hin E. destruct K2 as [Ecols _]. rewrite Ecols in E.
  destruct (Hcols col j E) as ((m & Em & Hm) & _); [exact Hin|].
  rewrite Hm. destruct (median_Ok_numeric _ _ Em) as [Nm Ncol].
  rewrite Forall_map. eapply Forall_impl; [|exact Ncol].
  intros c Hc. apply fillna_numeric; assumption.
Qed.

(** Running the imputer again on its own output, when that output has no
    missing value left, changes nothing. *)
Lemma impute_rerun (covid_df vacc_df covid' vacc' : frame) :
  wf covid_df ->
  impute_missing_values covid_df vacc_df = Ok (covid', vacc') ->
  no_missing covid' -> no_missing vacc' ->
  impute_missing_values covid' vacc' = Ok (covid', vacc').
Proof.
  intros W H Hc Hv.
  pose proof (impute_numeric_columns _ _ _ _ W H) as Hnum.
  unfold impute_missing_values.
  destruct (fill_values_spec covid_strategies covid')
    as (c1 & H1 & _ & _ & _ & Hid).
  rewrite H1, (Hid Hc). cbn [bind].
  rewrite (fill_medians_complete socio_cols covid' Hc Hnum). cbn [bind].
  destruct (fill_zeros_spec (vacc_fill_cols vacc') vacc'
              (vacc_fill_cols_present vacc')) as (v1 & H3 & _ & Hidv).
  rewrite H3, (Hidv Hv). reflexivity.
Qed.

End ImputerRerun.

(** ** Further properties of the feature builder and the integrator *)

(** The feature builder needs total_deaths on every table. *)
Lemma create_features_needs_total_deaths (covid_df vacc_df : frame) :
  ~ In "total_deaths" (columns covid_df) ->
  DataCleaning.create_features covid_df vacc_df =
    Err (KeyError "total_deaths").
Proof.
  intros H. unfold DataCleaning.create_features,
    DataCleaning.covid_features_of.
  rewrite (getitem_absent _ _ H). reflexivity.
Qed.

(** It needs people_vaccinated_per_hundred as well. *)
Lemma create_features_needs_per_hundred (covid_df vacc_df covid' : frame) :
  DataCleaning.covid_features_of covid_df = Ok covid' ->
  In "country" (columns vacc_df) ->
  ~ In "people_vaccinated_per_hundred" (columns vacc_df) ->
  DataCleaning.create_features covid_df vacc_df =
    Err (KeyError "people_vaccinated_per_hundred").
Proof.
  intros Hc Hin H. unfold DataCleaning.create_features. rewrite Hc.
  cbn [bind]. unfold DataCleaning.vacc_features_of.
  destruct (index_of_In _ _ Hin) as (j & E).
  rewrite (getitem_present _ _ _ E). cbn [bind].
  rewrite (getitem_absent _ _ H). reflexivity.
Qed.

(** On a series without missing values [last] is the last entry. *)
Lemma last_valid_complete (s : series) :
  Forall (fun c => c <> NA) s -> last_valid s = List.last s NA.
Proof.
  induction 1 as [|c s Hc Hs IH]; [reflexivity|].
  cbn [last_valid]. rewrite IH. destruct s as [|c' s'].
  - simpl. destruct c; try reflexivity.
  - inversion Hs as [|? ? Hc' Hs']; subst.
    assert (Hl : List.last (c' :: s') NA <> NA).
    { clear -Hc' Hs'. revert c' Hc'.
      induction Hs' as [|x l Hx Hl IH]; intros c' Hc'; simpl; [exact Hc'|].
      apply IH. exact Hx. }
    change (List.last (c :: c' :: s') NA) with (List.last (c' :: s') NA).
    destruct (List.last (c' :: s') NA); try reflexivity. contradiction.
Qed.

(** A missing last entry is skipped: [last] falls back on an earlier row. *)
Lemma last_valid_skips_missing (s : series) :
  last_valid (s ++ [NA]) = last_valid s.
Proof.
  induction s as [|c s IH]; [reflexivity|].
  simpl. rewrite IH. reflexivity.
Qed.

(** * More on the validators *)

Section ValidatorMore.
Variable idxs : list nat.

Lemma drop_duplicates_last_NoDup_id (rs : list row) :
  NoDup (map (row_key idxs) rs) -> drop_duplicates_last idxs rs = rs.
Proof.
  induction rs as [|r rs IH]; simpl; [reflexivity|].
  intros H. inversion H as [|k ks Hnotin Hnd]; subst.
  destruct (existsb _ rs) eqn:E.
  - exfalso. apply existsb_exists in E. destruct E as (y & Hy & Ey).
    apply key_eqb_eq in Ey. apply Hnotin. rewrite Ey.
    apply in_map. exact Hy.
  - rewrite (IH Hnd). reflexivity.
Qed.

Lemma drop_duplicates_last_length (rs : list row) :
  (List.length (drop_duplicates_last idxs rs) <= List.length rs)%nat.
Proof.
  induction rs as [|r rs IH]; simpl; [lia|].
  destruct (existsb _ rs); simpl; lia.
Qed.

Lemma drop_duplicates_last_nonempty (rs : list row) :
  rs <> [] -> drop_duplicates_last idxs rs <> [].
Proof.
  induction rs as [|r rs IH]; [congruence|]. intros _. simpl.
  destruct (existsb _ rs) eqn:E; [|discriminate].
  apply IH. intros ->. discriminate.
Qed.

Lemma sort_rows_sorted_id (rs : list row) :
  StronglySorted (fun a b => row_leb idxs a b = true) rs ->
  sort_rows idxs rs = rs.
Proof.
  induction 1 as [|r rs Hs IH Hr]; simpl; [reflexivity|].
  rewrite IH. destruct rs as [|x rs]; [reflexivity|]. simpl.
  inversion Hr as [|? ? Hx _]; subst. rewrite Hx. reflexivity.
Qed.

End ValidatorMore.

Lemma relabel_relabel (n : Z) (rs : list row) :
  relabel n (relabel n rs) = relabel n rs.
Proof.
  revert n. induction rs as [|r rs IH]; intros n; simpl; [reflexivity|].
  rewrite IH. reflexivity.
Qed.

Lemma relabel_nonempty (n : Z) (rs : list row) :
  rs <> [] -> relabel n rs <> [].
Proof. destruct rs; [congruence | discriminate]. Qed.

Lemma sort_rows_nonempty (idxs : list nat) (rs : list row) :
  rs <> [] -> sort_rows idxs rs <> [].
Proof.
  intros H E. apply H.
  apply Permutation_nil. rewrite <- E. apply sort_rows_perm.
Qed.

(** A frame the validator accepts has rows and its required columns. *)
Lemma load_and_validate_Ok_inv (required_cols : list string)
  (df out : frame) :
  In "country" required_cols -> In "date" required_cols ->
  DataEngineering.load_and_validate required_cols df = Ok out ->
  rows df <> [] /\ (forall c, In c required_cols -> In c (columns df)).
Proof.
  intros Hc Hd H.
  pose proof (load_and_validate_fails_iff required_cols Hc Hd df) as F.
  split.
  - intros E. destruct (proj2 F (or_introl E)) as (e & He). congruence.
  - intros c Hin.
    destruct (in_dec string_dec c (columns df)) as [Hyes|Hno]; [exact Hyes|].
    destruct (proj2 F (or_intror (ex_intro _ c (conj Hin Hno)))) as (e & He).
    congruence.
Qed.

Lemma load_and_validate_idempotent (required_cols : list string)
  (df out : frame) :
  In "country" required_cols -> In "date" required_cols ->
  DataEngineering.load_and_validate required_cols df = Ok out ->
  DataEngineering.load_and_validate required_cols out = Ok out.
Proof.
  intros Hc Hd H.
  destruct (load_and_validate_Ok_inv _ _ _ Hc Hd H) as [Hrows Hreq].
  destruct (load_and_validate_passes required_cols Hc Hd df Hrows Hreq)
    as (jc & jd & Ec & Ed & Hok).
  rewrite Hok in H. injection H as <-.
  set (S := sort_rows [jc; jd] (drop_duplicates_last [jc; jd] (rows df))).
  destruct (load_and_validate_passes required_cols Hc Hd
              (mkFrame (columns df) (relabel 0 S))) as (jc' & jd' & Ec' & Ed' & Hok').
  { simpl. apply relabel_nonempty. apply sort_rows_nonempty.
    apply drop_duplicates_last_nonempty. exact Hrows. }
  { exact Hreq. }
  simpl in Ec', Ed'. assert (jc' = jc) by congruence.
  assert (jd' = jd) by congruence. subst jc' jd'.
  rewrite Hok'. simpl. f_equal. f_equal.
  rewrite drop_duplicates_last_NoDup_id.
  - rewrite sort_rows_sorted_id.
    + apply relabel_relabel.
    + apply relabel_sorted. apply sort_rows_sorted.
  - rewrite relabel_keys. eapply Permutation_NoDup.
    + apply Permutation_map. symmetry. apply sort_rows_perm.
    + apply drop_duplicates_last_NoDup.
Qed.

(** X1. Validating a validated table changes nothing: both validators
    return their own output unchanged. *)
Theorem validators_idempotent (df out : frame) :
  (DataEngineering.load_and_validate_covid df = Ok out ->
   DataEngineering.load_and_validate_covid out = Ok out) /\
  (DataEngineering.load_and_validate_vaccination df = Ok out ->
   DataEngineering.load_and_validate_vaccination out = Ok out).
Proof.
  split; intros H.
  - apply (load_and_validate_idempotent _ df); simpl; auto.
  - apply (load_and_validate_idempotent _ df); simpl; auto.
Qed.

Lemma validators_idempotent_witness :
  DataEngineering.load_and_validate_covid covid_raw_example =
    Ok covid_validated_example /\
  DataEngineering.load_and_validate_covid covid_validated_example =
    Ok covid_validated_example.
Proof.
  assert (H : DataEngineering.load_and_validate_covid covid_raw_example =
              Ok covid_validated_example) by (vm_compute; reflexivity).
  split; [exact H|].
  exact (proj1 (validators_idempotent covid_raw_example
                  covid_validated_example) H).
Defined.

Lemma drop_duplicates_last_full_length (idxs : list nat) (rs : list row) :
  List.length (drop_duplicates_last idxs rs) = List.length rs ->
  NoDup (map (row_key idxs) rs).
Proof.
  induction rs as [|r rs IH]; simpl; [constructor|].
  destruct (existsb _ rs) eqn:E.
  - intros H. pose proof (drop_duplicates_last_length idxs rs). lia.
  - simpl. intros H. injection H as H. constructor; [|apply IH; exact H].
    intros Hin. apply in_map_iff in Hin. destruct Hin as (y & Ey & Hy).
    apply (proj1 (existsb_key_false idxs r rs)) in E.
    rewrite Forall_forall in E. exact (E y Hy Ey).
Qed.

Lemma load_and_validate_rows (required_cols : list string) (df out : frame) :
  In "country" required_cols -> In "date" required_cols ->
  DataEngineering.load_and_validate required_cols df = Ok out ->
  let key := country_date (columns df) in
  (List.length (rows out) <= List.length (rows df))%nat /\
  (List.length (rows out) = List.length (rows df) <->
   NoDup (map key (rows df))) /\
  (NoDup (map key (rows df)) ->
   Permutation (map cells (rows out)) (map cells (rows df))).
Proof.
  intros Hc Hd H key.
  destruct (load_and_validate_Ok_inv _ _ _ Hc Hd H) as [Hrows Hreq].
  destruct (load_and_validate_passes required_cols Hc Hd df Hrows Hreq)
    as (jc & jd & Ec & Ed & Hok).
  rewrite Hok in H. injection H as <-. cbn [rows].
  assert (K : map key (rows df) = map (row_key [jc; jd]) (rows df)).
  { apply map_ext. intros r. apply country_date_row_key; assumption. }
  assert (L : List.length (relabel 0 (sort_rows [jc; jd]
                (drop_duplicates_last [jc; jd] (rows df)))) =
              List.length (drop_duplicates_last [jc; jd] (rows df))).
  { rewrite relabel_length.
    apply Permutation_length. apply sort_rows_perm. }
  rewrite L, K. split; [apply drop_duplicates_last_length|]. split.
  - split; [apply drop_duplicates_last_full_length|].
    intros Hnd. rewrite (drop_duplicates_last_NoDup_id _ _ Hnd). reflexivity.
  - intros Hnd. rewrite relabel_cells.
    rewrite <- (drop_duplicates_last_NoDup_id _ _ Hnd) at 2.
    apply Permutation_map. apply sort_rows_perm.
Qed.

(** X2. The validator never adds rows; it keeps the row count exactly when
    no (country, date) key repeats in the input, and then its output is a
    reordering of the input rows: nothing is lost or altered. *)
Theorem load_and_validate_covid_row_count (df out : frame) :
  DataEngineering.load_and_validate_covid df = Ok out ->
  (List.length (rows out) <= List.length (rows df))%nat /\
  (List.length (rows out) = List.length (rows df) <->
   NoDup (map (country_date (columns df)) (rows df))) /\
  (NoDup (map (country_date (columns df)) (rows df)) ->
   Permutation (map cells (rows out)) (map cells (rows df))).
Proof.
  intros H.
  apply (load_and_validate_rows DataEngineering.covid_required_cols);
    simpl; auto.
Qed.

Lemma load_and_validate_covid_row_count_witness :
  DataEngineering.load_and_validate_covid covid_unsorted_example =
    Ok covid_sorted_example /\
  (List.length (rows covid_sorted_example) <=
   List.length (rows covid_unsorted_example))%nat.
Proof.
  assert (H : DataEngineering.load_and_validate_covid covid_unsorted_example =
              Ok covid_sorted_example) by (vm_compute; reflexivity).
  split; [exact H|].
  exact (proj1 (load_and_validate_covid_row_count _ _ H)).
Defined.

(** * The column selector *)

Lemma nth_map_names {A : Type} (f : string -> A) (names : list string)
  (n : string) (j : nat) (d : A) :
  index_of n names = Some j -> nth j (map f names) d = f n.
Proof.
  intros E. apply index_of_Some in E.
  apply nth_error_nth. rewrite nth_error_map, E. reflexivity.
Qed.

Lemma available_filter (allow : list string) (df : frame) :
  DataCleaning.available allow df =
  filter (fun c => mem c (columns df)) allow.
Proof. reflexivity. Qed.

Lemma getitem_list_selection (allow : list string) (df : frame) :
  selection_of allow df
    (mkFrame (DataCleaning.available allow df)
       (map (project (columns df) (DataCleaning.available allow df))
            (rows df))).
Proof.
  split; [reflexivity|]. split; [|split].
  - unfold wf. cbn [rows columns]. apply Forall_forall. intros r' Hr'.
    apply in_map_iff in Hr'. destruct Hr' as (r & <- & _).
    unfold project. cbn [cells]. apply length_map.
  - cbn [rows]. rewrite map_map. reflexivity.
  - cbn [rows columns]. intros n j E.
    assert (Hin : In n (columns df))
      by (eapply available_present; eapply index_of_Some_In; exact E).
    destruct (index_of_In _ _ Hin) as (j0 & E0).
    exists j0. split; [exact E0|].
    unfold column_at. rewrite map_map. apply map_ext. intros r.
    unfold get, project. cbn [cells].
    rewrite (nth_map_names (fun c => cell_of (columns df) c r) _ _ _ _ E).
    unfold cell_of. rewrite E0. reflexivity.
Qed.

(** X3. The column selector never raises.  Each output has the
    allow-listed columns its input has (absent ones are dropped silently),
    in allow-list order, the rows and labels of the input in their order,
    and the input's values under every kept column. *)
Theorem select_important_columns_selection (covid_df vacc_df : frame) :
  exists covid_clean vacc_clean,
    DataCleaning.select_important_columns covid_df vacc_df =
      Ok (covid_clean, vacc_clean) /\
    selection_of DataCleaning.covid_cols covid_df covid_clean /\
    selection_of DataCleaning.vacc_cols vacc_df vacc_clean.
Proof.
  unfold DataCleaning.select_important_columns.
  rewrite !getitem_list_available. cbn [bind].
  eexists. eexists. split; [reflexivity|].
  split; apply getitem_list_selection.
Qed.

Lemma filter_mem_filter (q : string -> bool) (l : list string) :
  filter (fun c => mem c (filter q l)) l = filter q l.
Proof.
  apply filter_ext_in. intros c Hc.
  destruct (q c) eqn:E.
  - apply mem_In. apply filter_In. auto.
  - destruct (mem c (filter q l)) eqn:M; [|reflexivity].
    apply mem_In in M. apply filter_In in M. destruct M; congruence.
Qed.

Lemma project_project (cols names : list string) (r : row) :
  project names names (project cols names r) = project cols names r.
Proof.
  unfold project. cbn [label cells]. f_equal.
  apply map_ext_in. intros n Hn.
  destruct (index_of_In _ _ Hn) as (j & E).
  unfold cell_of at 1. rewrite E. unfold get. cbn [cells].
  apply (nth_map_names (fun c => cell_of cols c r)). exact E.
Qed.

Lemma getitem_list_available_idempotent (allow : list string) (df : frame) :
  let out := mkFrame (DataCleaning.available allow df)
               (map (project (columns df) (DataCleaning.available allow df))
                    (rows df)) in
  getitem_list (DataCleaning.available allow out) out = Ok out.
Proof.
  intros out. rewrite getitem_list_available.
  assert (E : DataCleaning.available allow out =
              DataCleaning.available allow df).
  { rewrite !available_filter. unfold out. cbn [columns].
    rewrite available_filter. apply filter_mem_filter. }
  rewrite E. unfold out. cbn [rows columns]. f_equal. f_equal.
  rewrite map_map. apply map_ext. intros r. apply project_project.
Qed.

Lemma getitem_list_available_fixed (allow : list string) (df out : frame) :
  getitem_list (DataCleaning.available allow df) df = Ok out ->
  getitem_list (DataCleaning.available allow out) out = Ok out.
Proof.
  rewrite getitem_list_available. intros [= <-].
  apply getitem_list_available_idempotent.
Qed.

(** X4. Selecting the columns of an already selected pair of tables
    returns the pair unchanged. *)
Theorem select_important_columns_idempotent
  (covid_df vacc_df covid_clean vacc_clean : frame) :
  DataCleaning.select_important_columns covid_df vacc_df =
    Ok (covid_clean, vacc_clean) ->
  DataCleaning.select_important_columns covid_clean vacc_clean =
    Ok (covid_clean, vacc_clean).
Proof.
  unfold DataCleaning.select_important_columns.
  destruct (getitem_list (DataCleaning.available DataCleaning.covid_cols
                            covid_df) covid_df) as [c|] eqn:E1;
    cbn [bind]; [|discriminate].
  destruct (getitem_list (DataCleaning.available DataCleaning.vacc_cols
                            vacc_df) vacc_df) as [v|] eqn:E2;
    cbn [bind]; [|discriminate].
  intros H. injection H as <- <-.
  rewrite (getitem_list_available_fixed _ _ _ E1),
    (getitem_list_available_fixed _ _ _ E2).
  reflexivity.
Qed.

Lemma select_important_columns_idempotent_witness :
  DataCleaning.select_important_columns covid_wide_example
    vacc_wide_example = Ok (fst selected_example, snd selected_example) /\
  DataCleaning.select_important_columns (fst selected_example)
    (snd selected_example) = Ok (fst selected_example, snd selected_example).
Proof.
  assert (H : DataCleaning.select_important_columns covid_wide_example
                vacc_wide_example =
              Ok (fst selected_example, snd selected_example))
    by (vm_compute; reflexivity).
  split; [exact H|].
  exact (select_important_columns_idempotent _ _ _ _ H).
Defined.

(** * More on the imputer *)

Section ImputerFills.
Import DataCleaning.

Lemma fillna_fillna (v c : cell) : fillna v (fillna v c) = fillna v c.
Proof. destruct c; simpl; try reflexivity. destruct v; reflexivity. Qed.

Lemma fillna_zero_notna (c : cell) : fillna zero c <> NA.
Proof. destruct c; discriminate. Qed.

(** Every column named by a strategy ends up with its missing cells
    replaced by the strategy's value. *)
Lemma fill_values_column (strategies : list (string * cell))
  (df df' : frame) :
  NoDup (map fst strategies) -> wf df ->
  fill_values strategies df = Ok df' ->
  forall col v j, In (col, v) strategies ->
    index_of col (columns df) = Some j ->
    column_at j (rows df') = map (fillna v) (column_at j (rows df)).
Proof.
  revert df. induction strategies as [|[c0 v0] rest IH]; intros df Hnd W;
    simpl.
  - intros _ col v j [].
  - inversion Hnd as [|? ? Hnotin Hnd']; subst.
    destruct (has_column c0 df) eqn:Hc.
    + destruct (fillna_inplace_present c0 v0 df Hc) as (j0 & E0 & Efill).
      rewrite Efill. cbn [bind]. intros Hok col v j Hin E.
      destruct Hin as [[= -> ->]|Hin].
      * assert (j = j0) by congruence. subst j.
        destruct (fill_values_spec rest
                    (mkFrame (columns df) (fillna_at j0 v (rows df))))
          as (df2 & Hok2 & _ & _ & Hcol & _).
        assert (df2 = df') by congruence. subst df2.
        rewrite Hcol.
        -- cbn [rows]. apply fillna_at_same. eapply wf_width; eassumption.
        -- cbn [columns]. intros c Hcin Ec. apply Hnotin.
           rewrite (index_of_inj col c _ _ E0 Ec). exact Hcin.
      * assert (Hne : c0 <> col).
        { intros ->. apply Hnotin. apply in_map_iff.
          exists (col, v). auto. }
        rewrite (IH _ Hnd' (wf_fillna_at df j0 v0 W) Hok col v j Hin E).
        cbn [rows]. rewrite fillna_at_other; [reflexivity|].
        apply (index_of_neq c0 col (columns df)); assumption.
    + intros Hok col v j [[= -> ->]|Hin] E.
      * apply index_of_Some_In in E. apply has_column_In in E. congruence.
      * apply (IH df Hnd' W Hok col v j Hin E).
Qed.

(** The zero-fill of a list of columns: a column that the list names has
    its missing cells replaced by 0, any other column is left alone. *)
Lemma fill_zeros_column (cols : list string) (df df' : frame) (j : nat) :
  wf df -> (j < List.length (columns df))%nat ->
  fill_zeros cols df = Ok df' ->
  columns df' = columns df /\ wf df' /\
  column_at j (rows df') =
  if touches j cols df then map (fillna zero) (column_at j (rows df))
  else column_at j (rows df).
Proof.
  intros W Hj. revert df W Hj. induction cols as [|c0 rest IH];
    intros df W Hj; simpl.
  - intros [= <-]. auto.
  - unfold fillna_inplace, column_index.
    destruct (index_of c0 (columns df)) as [j0|] eqn:E0; cbn [of_option bind];
      [|discriminate].
    intros Hok.
    destruct (IH _ (wf_fillna_at df j0 zero W) Hj Hok) as (Ec & W' & Hcol).
    split; [exact Ec|]. split; [exact W'|]. rewrite Hcol.
    unfold touches. cbn [columns rows].
    destruct (Nat.eqb j0 j) eqn:Ej.
    + apply Nat.eqb_eq in Ej. subst j0. cbn [orb].
      rewrite fillna_at_same
        by (eapply Forall_impl; [|exact W]; simpl; intros r Hr; lia).
      destruct (existsb _ rest); [|reflexivity].
      rewrite map_map. apply map_ext. intros c. apply fillna_fillna.
    + apply Nat.eqb_neq in Ej. cbn [orb].
      rewrite fillna_at_other by exact Ej. reflexivity.
Qed.

Lemma touches_vacc_fill_cols (df : frame) (col : string) (j : nat) :
  index_of col (columns df) = Some j ->
  touches j (vacc_fill_cols df) df =
  negb (mem col ["country"; "date"]).
Proof.
  intros E. unfold touches.
  destruct (mem col ["country"; "date"]) eqn:M; simpl.
  - destruct (existsb _ (vacc_fill_cols df)) eqn:X; [|reflexivity].
    exfalso. apply existsb_exists in X. destruct X as (c & Hc & Hj).
    destruct (index_of c (columns df)) as [j'|] eqn:Ec; [|discriminate].
    apply Nat.eqb_eq in Hj. subst j'.
    rewrite (index_of_inj c col _ _ Ec E) in Hc.
    unfold vacc_fill_cols in Hc. apply filter_In in Hc.
    destruct Hc as [_ Hc]. rewrite M in Hc. discriminate.
  - apply existsb_exists. exists col. split.
    + unfold vacc_fill_cols. apply filter_In.
      split; [eapply index_of_Some_In; exact E | rewrite M; reflexivity].
    + rewrite E. apply Nat.eqb_refl.
Qed.

Lemma not_socio_not_medianed (cols : list string) (df df' : frame)
  (col : string) (j : nat) :
  NoDup cols -> wf df -> fill_medians cols df = Ok df' ->
  ~ In col cols -> index_of col (columns df) = Some j ->
  column_at j (rows df') = column_at j (rows df).
Proof.
  intros Hnd W H Hn E.
  destruct (fill_medians_column _ _ _ Hnd W H) as (_ & Hcols).
  apply (Hcols col j E). exact Hn.
Qed.

Lemma covid_strategies_NoDup : NoDup (map fst covid_strategies).
Proof.
  simpl.
  repeat (constructor; [simpl; intros H;
    repeat (destruct H as [H|H]; try discriminate H); exact H|]).
  constructor.
Qed.

Lemma covid_strategies_zero (col : string) :
  In col (map fst covid_strategies) -> In (col, zero) covid_strategies.
Proof.
  simpl. intros H.
  repeat (destruct H as [<-|H]; [auto 10|]). destruct H.
Qed.

(** X5. After the imputer, a zero-fill column of the case/death table is
    its input column with 0 in place of every missing value, and so is
    every column of the vaccination table other than country and date;
    these columns have no missing value left.  The columns country and
    date of the vaccination table are returned as they are. *)
Theorem impute_zero_fill (covid_df vacc_df covid' vacc' : frame) :
  wf covid_df -> wf vacc_df ->
  impute_missing_values covid_df vacc_df = Ok (covid', vacc') ->
  (forall col j,
     In col ["total_cases"; "new_cases"; "total_deaths"; "new_deaths";
             "total_cases_per_million"; "total_deaths_per_million"] ->
     index_of col (columns covid_df) = Some j ->
     column_at j (rows covid') =
       map (fillna zero) (column_at j (rows covid_df)) /\
     Forall (fun c => c <> NA) (column_at j (rows covid'))) /\
  (forall col j,
     index_of col (columns vacc_df) = Some j ->
     col <> "country" -> col <> "date" ->
     column_at j (rows vacc') =
       map (fillna zero) (column_at j (rows vacc_df)) /\
     Forall (fun c => c <> NA) (column_at j (rows vacc'))) /\
  (forall col j,
     index_of col (columns vacc_df) = Some j ->
     col = "country" \/ col = "date" ->
     column_at j (rows vacc') = column_at j (rows vacc_df)).
Proof.
  intros Wc Wv H. unfold impute_missing_values in H.
  destruct (fill_values covid_strategies covid_df) as [c1|] eqn:H1;
    cbn [bind] in H; [|discriminate].
  destruct (fill_medians socio_cols c1) as [c2|] eqn:H2;
    cbn [bind] in H; [|discriminate].
  destruct (fill_zeros (vacc_fill_cols vacc_df) vacc_df) as [v2|] eqn:H3;
    cbn [bind] in H; [|discriminate].
  injection H as <- <-.
  assert (Hnotna : forall s, Forall (fun c => c <> NA) (map (fillna zero) s)).
  { intros s. rewrite Forall_map. apply Forall_forall.
    intros c _. apply fillna_zero_notna. }
  split; [|split].
  - intros col j Hin E.
    change (In col (map fst covid_strategies)) in Hin.
    destruct (fill_values_spec covid_strategies covid_df)
      as (c1' & H1' & K1 & W1 & _ & _).
    assert (c1' = c1) by congruence. subst c1'.
    assert (E1 : index_of col (columns c1) = Some j)
      by (destruct K1 as [-> _]; exact E).
    rewrite (not_socio_not_medianed socio_cols c1 c2 col j
               socio_cols_NoDup (W1 Wc) H2
               (fun Hs => socio_not_zero_filled col Hs Hin) E1).
    rewrite (fill_values_column _ _ _ covid_strategies_NoDup Wc H1 col zero j
               (covid_strategies_zero col Hin) E).
    split; [reflexivity | apply Hnotna].
  - intros col j E Hc Hd.
    destruct (fill_zeros_column _ _ _ j Wv (index_of_lt _ _ _ E) H3)
      as (_ & _ & Hcol).
    rewrite Hcol, (touches_vacc_fill_cols _ _ _ E).
    assert (M : mem col ["country"; "date"] = false).
    { destruct (mem col ["country"; "date"]) eqn:M; [|reflexivity].
      apply mem_In in M. simpl in M. intuition congruence. }
    rewrite M. simpl. split; [reflexivity | apply Hnotna].
  - intros col j E Hcd.
    destruct (fill_zeros_column _ _ _ j Wv (index_of_lt _ _ _ E) H3)
      as (_ & _ & Hcol).
    rewrite Hcol, (touches_vacc_fill_cols _ _ _ E).
    assert (M : mem col ["country"; "date"] = true)
      by (apply mem_In; simpl; intuition).
    rewrite M. reflexivity.
Qed.

Lemma impute_zero_fill_witness :
  wf covid_selected_example /\ wf vacc_selected_example /\
  impute_missing_values covid_selected_example vacc_selected_example =
    Ok (fst imputed_example, snd imputed_example) /\
  forall col j,
    index_of col (columns vacc_selected_example) = Some j ->
    col = "country" \/ col = "date" ->
    column_at j (rows (snd imputed_example)) =
      column_at j (rows vacc_selected_example).
Proof.
  assert (Wc : wf covid_selected_example) by (repeat constructor).
  assert (Wv : wf vacc_selected_example) by (repeat constructor).
  assert (H : impute_missing_values covid_selected_example
                vacc_selected_example =
              Ok (fst imputed_example, snd imputed_example))
    by (vm_compute; reflexivity).
  split; [exact Wc|]. split; [exact Wv|]. split; [exact H|].
  exact (proj2 (proj2 (impute_zero_fill _ _ _ _ Wc Wv H))).
Defined.

End ImputerFills.

(** * When the feature builder returns *)

Section ArithTotal.
Variable op : number -> number -> cell.
Hypothesis op_numeric : forall x y, is_numeric (op x y) = true.

Lemma arith_numeric_Some (a b : cell) :
  is_numeric a = true -> is_numeric b = true ->
  exists c, arith op a b = Some c /\ is_numeric c = true.
Proof.
  destruct a, b; simpl; try discriminate; intros _ _; eauto.
Qed.

Lemma series_op_total (a b : series) :
  List.length a = List.length b ->
  Forall (fun c => is_numeric c = true) a ->
  Forall (fun c => is_numeric c = true) b ->
  exists s, series_op (arith op) a b = Ok s /\
            Forall (fun c => is_numeric c = true) s.
Proof.
  intros L Ha. revert b L. induction Ha as [|x a Hx Ha IH];
    intros [|y b] L Hb; simpl in L; try discriminate.
  - exists []. split; [reflexivity | constructor].
  - inversion Hb as [|? ? Hy Hb']; subst.
    destruct (arith_numeric_Some x y Hx Hy) as (z & Ez & Hz).
    destruct (IH b ltac:(lia) Hb') as (zs & Ezs & Hzs).
    exists (z :: zs). unfold series_op in *. simpl.
    rewrite Ez. cbn [of_option bind]. rewrite Ezs. cbn [bind].
    split; [reflexivity | constructor; assumption].
Qed.

Lemma series_scalar_total (a : series) (k : cell) :
  is_numeric k = true ->
  Forall (fun c => is_numeric c = true) a ->
  exists s, series_scalar (arith op) a k = Ok s /\
            Forall (fun c => is_numeric c = true) s.
Proof.
  intros Hk. induction 1 as [|x a Hx Ha (zs & Ezs & Hzs)].
  - exists []. split; [reflexivity | constructor].
  - destruct (arith_numeric_Some x k Hx Hk) as (z & Ez & Hz).
    exists (z :: zs). unfold series_scalar in *. simpl.
    rewrite Ez. cbn [of_option bind]. rewrite Ezs. cbn [bind].
    split; [reflexivity | constructor; assumption].
Qed.

End ArithTotal.

Lemma clean_numeric (s : series) :
  Forall (fun c => is_numeric c = true) s ->
  Forall (fun c => is_numeric c = true)
    (map (fillna zero) (map replace_inf s)).
Proof.
  intros H. rewrite !Forall_map. eapply Forall_impl; [|exact H].
  intros c Hc. destruct c as [|[q| |]| |]; try discriminate; reflexivity.
Qed.

Section FeatureTotal.
Import DataCleaning.

Lemma death_rate_total (td tc : series) :
  List.length td = List.length tc ->
  Forall (fun c => is_numeric c = true) td ->
  Forall (fun c => is_numeric c = true) tc ->
  exists dr, death_rate td tc = Ok dr.
Proof.
  intros L Ha Hb. unfold death_rate.
  destruct (series_op_total number_div number_div_numeric td tc L Ha Hb)
    as (ratio & E1 & N1).
  unfold div. rewrite E1. cbn [bind].
  destruct (series_scalar_total number_mul number_mul_numeric ratio hundred
              eq_refl N1) as (pct & E2 & _).
  unfold mul. rewrite E2. cbn [bind]. eauto.
Qed.

Lemma healthcare_capacity_index_total (beds gdp : series) :
  List.length beds = List.length gdp ->
  Forall (fun c => is_numeric c = true) beds ->
  Forall (fun c => is_numeric c = true) gdp ->
  exists hci, healthcare_capacity_index beds gdp = Ok hci.
Proof.
  intros L Ha Hb. unfold healthcare_capacity_index.
  destruct (series_op_total number_mul number_mul_numeric beds gdp L Ha Hb)
    as (prod & E1 & N1).
  unfold mul. rewrite E1. cbn [bind].
  destruct (series_scalar_total number_div number_div_numeric prod
              ten_thousand eq_refl N1) as (sc & E2 & _).
  unfold div. rewrite E2. cbn [bind]. eauto.
Qed.

Lemma vaccination_efficiency_total (fully vaccinated : series) :
  List.length fully = List.length vaccinated ->
  Forall (fun c => is_numeric c = true) fully ->
  Forall (fun c => is_numeric c = true) vaccinated ->
  exists eff, vaccination_efficiency fully vaccinated = Ok eff.
Proof.
  intros L Ha Hb. unfold vaccination_efficiency.
  destruct (series_op_total number_div number_div_numeric fully vaccinated
              L Ha Hb) as (ratio & E1 & N1).
  unfold div. rewrite E1. cbn [bind].
  destruct (series_scalar_total number_mul number_mul_numeric
              (map (fillna zero) (map replace_inf ratio)) hundred
              eq_refl (clean_numeric ratio N1)) as (eff & E2 & _).
  exists eff. exact E2.
Qed.

Lemma vaccination_speed_total (keys vals : series) :
  Forall (fun c => is_numeric c = true) vals ->
  exists speed, vaccination_speed keys vals = Ok speed.
Proof.
  intros H. unfold vaccination_speed, groupby_diff.
  destruct (groupby_diff_from_total keys vals [] H ltac:(constructor))
    as (ds & E).
  rewrite E. cbn [bind]. eauto.
Qed.

End FeatureTotal.

Section FeatureReturns.
Import DataCleaning.

Lemma column_lengths (j j' : nat) (rs : list row) :
  List.length (column_at j rs) = List.length (column_at j' rs).
Proof. rewrite !column_at_length. reflexivity. Qed.

(** The case/death half returns when its columns are there and hold
    numbers. *)
Lemma covid_features_of_total (covid_df : frame) :
  wf covid_df ->
  present ["total_deaths"; "total_cases"] covid_df ->
  numeric_columns ["total_deaths"; "total_cases"] covid_df ->
  (In "hospital_beds_per_thousand" (columns covid_df) ->
   In "gdp_per_capita" (columns covid_df) ->
   numeric_columns ["hospital_beds_per_thousand"; "gdp_per_capita"]
     covid_df) ->
  exists out, covid_features_of covid_df = Ok out.
Proof.
  intros W Hp Hn Hh.
  destruct (index_of_In "total_deaths" (columns covid_df)) as (jd & Ed);
    [apply Hp; simpl; auto|].
  destruct (index_of_In "total_cases" (columns covid_df)) as (jc & Ec);
    [apply Hp; simpl; auto|].
  unfold covid_features_of.
  rewrite (getitem_present _ _ _ Ed), (getitem_present _ _ _ Ec).
  cbn [bind].
  destruct (death_rate_total (column_at jd (rows covid_df))
              (column_at jc (rows covid_df)) (column_lengths _ _ _))
    as (dr & D).
  { apply (Hn "total_deaths" jd); [simpl; auto | exact Ed]. }
  { apply (Hn "total_cases" jc); [simpl; auto | exact Ec]. }
  rewrite D. cbn [bind].
  assert (Ld : List.length dr = List.length (rows covid_df)).
  { rewrite (death_rate_length _ _ _ (column_lengths _ _ _) D).
    apply column_at_length. }
  rewrite !setitem_has_column. simpl (String.eqb _ "death_rate").
  rewrite !orb_false_r.
  destruct (has_column "hospital_beds_per_thousand" covid_df) eqn:Hb;
    [|cbn [andb]; eauto].
  destruct (has_column "gdp_per_capita" covid_df) eqn:Hg;
    [|cbn [andb]; eauto].
  cbn [andb].
  apply has_column_In in Hb. apply has_column_In in Hg.
  specialize (Hh Hb Hg).
  destruct (index_of_In _ _ Hb) as (jb & Eb).
  destruct (index_of_In _ _ Hg) as (jg & Eg).
  assert (Eb' : index_of "hospital_beds_per_thousand"
                  (columns (setitem "death_rate" dr covid_df)) = Some jb)
    by (rewrite setitem_index_other by discriminate; exact Eb).
  assert (Eg' : index_of "gdp_per_capita"
                  (columns (setitem "death_rate" dr covid_df)) = Some jg)
    by (rewrite setitem_index_other by discriminate; exact Eg).
  rewrite (getitem_present _ _ _ Eb'), (getitem_present _ _ _ Eg').
  cbn [bind].
  rewrite (setitem_column_other "death_rate" dr covid_df W Ld
             "hospital_beds_per_thousand" jb ltac:(discriminate) Eb).
  rewrite (setitem_column_other "death_rate" dr covid_df W Ld
             "gdp_per_capita" jg ltac:(discriminate) Eg).
  destruct (healthcare_capacity_index_total (column_at jb (rows covid_df))
              (column_at jg (rows covid_df)) (column_lengths _ _ _))
    as (hci & Hh').
  { apply (Hh "hospital_beds_per_thousand" jb); [simpl; auto | exact Eb]. }
  { apply (Hh "gdp_per_capita" jg); [simpl; auto | exact Eg]. }
  rewrite Hh'. cbn [bind]. eauto.
Qed.

(** The case/death half indexes total_deaths and total_cases. *)
Lemma covid_features_of_needs (covid_df out : frame) :
  wf covid_df -> covid_features_of covid_df = Ok out ->
  present ["total_deaths"; "total_cases"] covid_df.
Proof.
  intros W H.
  destruct (covid_features_of_Ok _ _ W H)
    as (jd & jc & dr & Ed & Ec & _).
  intros col [<-|[<-|[]]]; eapply index_of_Some_In; eassumption.
Qed.

(** The vaccination half returns when its columns are there and the three
    it computes with hold numbers. *)
Lemma vacc_features_of_total (vacc_df : frame) :
  wf vacc_df ->
  present ["country"; "people_vaccinated_per_hundred";
           "people_fully_vaccinated"; "people_vaccinated"] vacc_df ->
  numeric_columns ["people_vaccinated_per_hundred";
                   "people_fully_vaccinated"; "people_vaccinated"] vacc_df ->
  exists out, vacc_features_of vacc_df = Ok out.
Proof.
  intros W Hp Hn.
  destruct (index_of_In "country" (columns vacc_df)) as (jc & Ec);
    [apply Hp; simpl; auto|].
  destruct (index_of_In "people_vaccinated_per_hundred" (columns vacc_df))
    as (jp & Ep); [apply Hp; simpl; auto|].
  destruct (index_of_In "people_fully_vaccinated" (columns vacc_df))
    as (jf & Ef); [apply Hp; simpl; auto|].
  destruct (index_of_In "people_vaccinated" (columns vacc_df))
    as (jv & Ev); [apply Hp; simpl; auto 6|].
  unfold vacc_features_of.
  rewrite (getitem_present _ _ _ Ec), (getitem_present _ _ _ Ep).
  cbn [bind].
  destruct (vaccination_speed_total (column_at jc (rows vacc_df))
              (column_at jp (rows vacc_df))) as (speed & S1).
  { apply (Hn "people_vaccinated_per_hundred" jp); [simpl; auto | exact Ep]. }
  rewrite S1. cbn [bind].
  assert (Ls : List.length speed = List.length (rows vacc_df)).
  { rewrite (vaccination_speed_length _ _ _ (column_lengths _ _ _) S1).
    apply column_at_length. }
  assert (Ef' : index_of "people_fully_vaccinated"
                  (columns (setitem "vaccination_speed" speed vacc_df))
                = Some jf)
    by (rewrite setitem_index_other by discriminate; exact Ef).
  assert (Ev' : index_of "people_vaccinated"
                  (columns (setitem "vaccination_speed" speed vacc_df))
                = Some jv)
    by (rewrite setitem_index_other by discriminate; exact Ev).
  rewrite (getitem_present _ _ _ Ef'), (getitem_present _ _ _ Ev').
  cbn [bind].
  rewrite (setitem_column_other "vaccination_speed" speed vacc_df W Ls
             "people_fully_vaccinated" jf ltac:(discriminate) Ef).
  rewrite (setitem_column_other "vaccination_speed" speed vacc_df W Ls
             "people_vaccinated" jv ltac:(discriminate) Ev).
  destruct (vaccination_efficiency_total (column_at jf (rows vacc_df))
              (column_at jv (rows vacc_df)) (column_lengths _ _ _))
    as (eff & S2).
  { apply (Hn "people_fully_vaccinated" jf); [simpl; auto | exact Ef]. }
  { apply (Hn "people_vaccinated" jv); [simpl; auto | exact Ev]. }
  rewrite S2. cbn [bind]. eauto.
Qed.

(** The vaccination half indexes country and the three columns it
    computes with. *)
Lemma vacc_features_of_needs (vacc_df out : frame) :
  wf vacc_df -> vacc_features_of vacc_df = Ok out ->
  present ["country"; "people_vaccinated_per_hundred";
           "people_fully_vaccinated"; "people_vaccinated"] vacc_df.
Proof.
  intros W H.
  destruct (vacc_features_of_Ok _ _ W H)
    as (jc & jp & jf & jv & speed & eff & Ec & Ep & Ef & Ev & _).
  intros col [<-|[<-|[<-|[<-|[]]]]]; eapply index_of_Some_In; eassumption.
Qed.

(** X6. On well-formed tables the feature builder returns whenever the
    case/death table has total_deaths and total_cases, the vaccination
    table has country, people_vaccinated_per_hundred,
    people_fully_vaccinated and people_vaccinated, and the columns it
    computes with hold numbers or missing values (hospital beds and GDP
    only when both are there).  The six columns are needed: when the
    feature builder returns, the tables have them. *)
Theorem create_features_returns (covid_df vacc_df : frame) :
  wf covid_df -> wf vacc_df ->
  (features_ready covid_df vacc_df ->
   exists out, create_features covid_df vacc_df = Ok out) /\
  ((exists out, create_features covid_df vacc_df = Ok out) ->
   present ["total_deaths"; "total_cases"] covid_df /\
   present ["country"; "people_vaccinated_per_hundred";
            "people_fully_vaccinated"; "people_vaccinated"] vacc_df).
Proof.
  intros Wc Wv. unfold features_ready, create_features. split.
  - intros (A & B & C & D & E).
    destruct (covid_features_of_total covid_df Wc A B C) as (c' & E1).
    destruct (vacc_features_of_total vacc_df Wv D E) as (v' & E2).
    rewrite E1, E2. cbn [bind]. eauto.
  - intros (out & H).
    destruct (covid_features_of covid_df) as [c'|] eqn:E1; cbn [bind] in H;
      [|discriminate].
    destruct (vacc_features_of vacc_df) as [v'|] eqn:E2; cbn [bind] in H;
      [|discriminate].
    split.
    + eapply covid_features_of_needs; eassumption.
    + eapply vacc_features_of_needs; eassumption.
Qed.

Lemma create_features_returns_witness :
  wf covid_imputed_example /\ wf vacc_imputed_example /\
  features_ready covid_imputed_example vacc_imputed_example /\
  create_features covid_imputed_example vacc_imputed_example =
    Ok (fst features_example, snd features_example) /\
  present ["total_deaths"; "total_cases"] covid_imputed_example /\
  present ["country"; "people_vaccinated_per_hundred";
           "people_fully_vaccinated"; "people_vaccinated"]
    vacc_imputed_example.
Proof.
  assert (Wc : wf covid_imputed_example) by (repeat constructor).
  assert (Wv : wf vacc_imputed_example) by (repeat constructor).
  assert (R : features_ready covid_imputed_example vacc_imputed_example).
  { unfold features_ready. repeat split.
    - intros col [<-|[<-|[]]]; simpl; auto 10.
    - intros col j [<-|[<-|[]]] E; injection E as <-; repeat constructor.
    - intros _ _ col j [<-|[<-|[]]] E; injection E as <-;
        repeat constructor.
    - intros col [<-|[<-|[<-|[<-|[]]]]]; simpl; auto 10.
    - intros col j [<-|[<-|[<-|[]]]] E; injection E as <-;
        repeat constructor. }
  destruct (create_features_returns _ _ Wc Wv) as [Hs Hn].
  split; [exact Wc|]. split; [exact Wv|]. split; [exact R|].
  split; [vm_compute; reflexivity|].
  apply Hn. apply Hs. exact R.
Defined.

End FeatureReturns.

(** * What the feature builder leaves alone *)

Section FeatureFrame.
Import DataCleaning.

(** An assignment keeps the labels and every other column of the frame. *)
Lemma setitem_frame (col : string) (s : series) (df : frame) :
  wf df -> List.length s = List.length (rows df) ->
  wf (setitem col s df) /\
  map label (rows (setitem col s df)) = map label (rows df) /\
  List.length (rows (setitem col s df)) = List.length (rows df) /\
  forall c j, c <> col -> index_of c (columns df) = Some j ->
    index_of c (columns (setitem col s df)) = Some j /\
    column_at j (rows (setitem col s df)) = column_at j (rows df).
Proof.
  intros W L. split; [apply setitem_wf; assumption|].
  split; [apply setitem_labels; assumption|].
  split; [apply setitem_rows_length; assumption|].
  intros c j Hne E. split.
  - rewrite setitem_index_other by exact Hne. exact E.
  - eapply setitem_column_other; eassumption.
Qed.

(** Two assignments in a row. *)
Lemma setitem_setitem_frame (c1 c2 : string) (s1 s2 : series) (df : frame) :
  wf df -> List.length s1 = List.length (rows df) ->
  List.length s2 = List.length (rows df) ->
  let out := setitem c2 s2 (setitem c1 s1 df) in
  wf out /\
  map label (rows out) = map label (rows df) /\
  forall c j, c <> c1 -> c <> c2 -> index_of c (columns df) = Some j ->
    index_of c (columns out) = Some j /\
    column_at j (rows out) = column_at j (rows df).
Proof.
  intros W L1 L2 out.
  destruct (setitem_frame c1 s1 df W L1) as (W1 & Lab1 & Len1 & K1).
  assert (L2' : List.length s2 = List.length (rows (setitem c1 s1 df)))
    by congruence.
  destruct (setitem_frame c2 s2 _ W1 L2') as (W2 & Lab2 & _ & K2).
  split; [exact W2|]. split; [unfold out; congruence|].
  intros c j H1 H2 E. destruct (K1 c j H1 E) as (E1 & C1).
  destruct (K2 c j H2 E1) as (E2 & C2).
  split; [exact E2 | unfold out; congruence].
Qed.

(** X7. The feature builder only adds columns: each output table is well
    formed and has the row labels of its input in the same order, and every
    input column other than the features themselves (death_rate and
    healthcare_capacity_index; vaccination_speed and
    vaccination_efficiency) stays at its position with its values. *)
Theorem create_features_keeps_input
  (covid_df vacc_df covid' vacc' : frame) :
  wf covid_df -> wf vacc_df ->
  create_features covid_df vacc_df = Ok (covid', vacc') ->
  (wf covid' /\
   map label (rows covid') = map label (rows covid_df) /\
   forall c j,
     c <> "death_rate" -> c <> "healthcare_capacity_index" ->
     index_of c (columns covid_df) = Some j ->
     index_of c (columns covid') = Some j /\
     column_at j (rows covid') = column_at j (rows covid_df)) /\
  (wf vacc' /\
   map label (rows vacc') = map label (rows vacc_df) /\
   forall c j,
     c <> "vaccination_speed" -> c <> "vaccination_efficiency" ->
     index_of c (columns vacc_df) = Some j ->
     index_of c (columns vacc') = Some j /\
     column_at j (rows vacc') = column_at j (rows vacc_df)).
Proof.
  intros Wc Wv H. apply create_features_Ok in H. destruct H as [Hc Hv].
  split.
  - destruct (covid_features_of_Ok _ _ Wc Hc)
      as (jd & jc & dr & _ & _ & _ & Ld &
          [[_ ->]|(jb & jg & hci & _ & _ & _ & Lh & ->)]).
    + destruct (setitem_frame "death_rate" dr covid_df Wc Ld)
        as (W1 & Lab & _ & K).
      split; [exact W1|]. split; [exact Lab|].
      intros c j H1 _ E. apply K; assumption.
    + apply setitem_setitem_frame; assumption.
  - destruct (vacc_features_of_Ok _ _ Wv Hv)
      as (jc & jp & jf & jv & speed & eff & _ & _ & _ & _ & _ & _ &
          Ls & Le & ->).
    apply setitem_setitem_frame; assumption.
Qed.

Lemma create_features_keeps_input_witness :
  wf covid_imputed_example /\ wf vacc_imputed_example /\
  create_features covid_imputed_example vacc_imputed_example =
    Ok (fst features_example, snd features_example) /\
  map label (rows (fst features_example)) =
    map label (rows covid_imputed_example) /\
  map label (rows (snd features_example)) =
    map label (rows vacc_imputed_example).
Proof.
  assert (Wc : wf covid_imputed_example) by (repeat constructor).
  assert (Wv : wf vacc_imputed_example) by (repeat constructor).
  assert (H : create_features covid_imputed_example vacc_imputed_example =
              Ok (fst features_example, snd features_example))
    by (vm_compute; reflexivity).
  split; [exact Wc|]. split; [exact Wv|]. split; [exact H|].
  destruct (create_features_keeps_input _ _ _ _ Wc Wv H)
    as ((_ & Lc & _) & (_ & Lv & _)).
  split; assumption.
Defined.

End FeatureFrame.

(** * The integrator *)

(** ** Group keys: sorted, distinct, not missing *)

Section GroupKeys.
Let le (a b : cell) : Prop := leb a b = true.

Lemma insert_cell_In (x k : cell) (l : list cell) :
  In k (insert_cell x l) <-> k = x \/ In k l.
Proof.
  induction l as [|y l IH]; simpl.
  - intuition.
  - destruct (leb x y); simpl; [intuition|]. rewrite IH. intuition.
Qed.

Lemma sort_cells_In (k : cell) (l : list cell) :
  In k (sort_cells l) <-> In k l.
Proof.
  induction l as [|x l IH]; simpl; [tauto|].
  rewrite insert_cell_In, IH. intuition.
Qed.

Lemma insert_cell_sorted (x : cell) (l : list cell) :
  StronglySorted le l -> StronglySorted le (insert_cell x l).
Proof.
  induction 1 as [|y l Hs IH Hy]; simpl.
  - repeat constructor.
  - destruct (leb x y) eqn:E.
    + constructor; [constructor; assumption|]. constructor; [exact E|].
      eapply Forall_impl; [|exact Hy]. intros z Hz.
      eapply leb_trans; eassumption.
    + constructor; [exact IH|]. apply Forall_forall. intros z Hz.
      apply insert_cell_In in Hz. destruct Hz as [->|Hz].
      * destruct (leb_total x y) as [H|H]; [congruence | exact H].
      * rewrite Forall_forall in Hy. apply Hy. exact Hz.
Qed.

Lemma sort_cells_sorted (l : list cell) : StronglySorted le (sort_cells l).
Proof.
  induction l as [|x l IH]; simpl; [constructor|].
  apply insert_cell_sorted. exact IH.
Qed.

Lemma filter_sorted {A : Type} (R : A -> A -> Prop) (f : A -> bool)
  (l : list A) :
  StronglySorted R l -> StronglySorted R (filter f l).
Proof.
  induction 1 as [|a l Hs IH Ha]; simpl; [constructor|].
  destruct (f a); [|exact IH]. constructor; [exact IH|].
  apply Forall_forall. intros x Hx. apply filter_In in Hx.
  rewrite Forall_forall in Ha. apply Ha. tauto.
Qed.

Lemma uniq_In (k : cell) (l : list cell) : In k (uniq l) <-> In k l.
Proof.
  induction l as [|a l IH]; simpl; [tauto|].
  rewrite filter_In, IH. split.
  - intuition.
  - intros [->|H]; [auto|].
    destruct (eqb a k) eqn:E; [apply eqb_eq in E; auto | auto].
Qed.

Lemma uniq_NoDup (l : list cell) : NoDup (uniq l).
Proof.
  induction l as [|a l IH]; simpl; constructor.
  - intros H. apply filter_In in H. destruct H as [_ H].
    rewrite eqb_refl in H. discriminate.
  - apply NoDup_filter. exact IH.
Qed.

Lemma uniq_sorted (l : list cell) :
  StronglySorted le l -> StronglySorted le (uniq l).
Proof.
  induction 1 as [|a l Hs IH Ha]; simpl; constructor.
  - apply filter_sorted. exact IH.
  - apply Forall_forall. intros x Hx. apply filter_In in Hx.
    destruct Hx as [Hx _]. apply (proj1 (uniq_In _ _)) in Hx.
    rewrite Forall_forall in Ha. apply Ha. exact Hx.
Qed.

Lemma notna_true (k : cell) : notna k = true <-> k <> NA.
Proof.
  unfold notna. destruct k; simpl; split; intros H;
    try reflexivity; try discriminate; try (exfalso; apply H; reflexivity).
Qed.

(** The keys of the groups: every value of the key column that is not
    missing, once, in ascending order. *)
Lemma group_keys_spec (jk : nat) (rs : list row) :
  NoDup (group_keys jk rs) /\
  StronglySorted le (group_keys jk rs) /\
  forall k, In k (group_keys jk rs) <-> k <> NA /\ In k (column_at jk rs).
Proof.
  unfold group_keys. split; [apply uniq_NoDup|].
  split; [apply uniq_sorted, sort_cells_sorted|].
  intros k. rewrite uniq_In, sort_cells_In, filter_In, notna_true. tauto.
Qed.

End GroupKeys.

Lemma column_at_perm (j : nat) (rs rs' : list row) (k : cell) :
  Permutation rs rs' -> In k (column_at j rs) -> In k (column_at j rs').
Proof.
  intros P. apply Permutation_in. apply Permutation_map. exact P.
Qed.

Lemma column_at_sort_rows (j : nat) (idxs : list nat) (rs : list row)
  (k : cell) :
  In k (column_at j (sort_rows idxs rs)) <-> In k (column_at j rs).
Proof.
  split; apply column_at_perm.
  - apply sort_rows_perm.
  - apply Permutation_sym, sort_rows_perm.
Qed.

Lemma column_at_cells (j : nat) (rs rs' : list row) :
  map cells rs = map cells rs' -> column_at j rs = column_at j rs'.
Proof.
  intros H. unfold column_at, get.
  rewrite <- (map_map cells (fun c => nth j c NA) rs).
  rewrite <- (map_map cells (fun c => nth j c NA) rs').
  rewrite H. reflexivity.
Qed.

Lemma column_at_relabel (j : nat) (n : Z) (rs : list row) :
  column_at j (relabel n rs) = column_at j rs.
Proof. apply column_at_cells. apply relabel_cells. Qed.

Lemma relabel_default_labels (rs : list row) :
  map label (relabel 0 rs) = map Z.of_nat (seq 0 (List.length rs)).
Proof. rewrite relabel_labels. apply map_ext. intros i. lia. Qed.

(** ** The latest entry per country *)

Section Latest.
Import DataCleaning.

(** The snapshot row of country [k]: the key, then for every other column
    the last entry of the country that is not missing. *)
Lemma latest_per_country_Ok (df out : frame) :
  latest_per_country df = Ok out ->
  exists jc jd,
    index_of "country" (columns df) = Some jc /\
    index_of "date" (columns df) = Some jd /\
    columns out = "country" :: remove_at jc (columns df) /\
    rows out =
      relabel 0
        (map (fun k =>
                mkRow 0
                  (k :: map (fun j =>
                               last_valid
                                 (column_at j
                                    (filter (fun r => eqb (get jc r) k)
                                       (sort_rows [jd] (rows df)))))
                          (other_positions jc (List.length (columns df)))))
           (group_keys jc (sort_rows [jd] (rows df)))).
Proof.
  unfold latest_per_country, sort_values, key_indices. cbn [mapM].
  unfold column_index.
  destruct (index_of "date" (columns df)) as [jd|] eqn:Ed;
    cbn [of_option bind]; [|discriminate].
  unfold groupby_last, column_index. cbn [columns rows].
  destruct (index_of "country" (columns df)) as [jc|] eqn:Ec;
    cbn [of_option bind]; [|discriminate].
  intros H. injection H as <-. exists jc, jd. auto.
Qed.

(** The key column of the snapshot of one table. *)
Lemma latest_per_country_keys (df out : frame) (jc : nat) :
  latest_per_country df = Ok out ->
  index_of "country" (columns df) = Some jc ->
  NoDup (column_at 0 (rows out)) /\
  StronglySorted (fun a b => leb a b = true) (column_at 0 (rows out)) /\
  (forall k, In k (column_at 0 (rows out)) <->
             k <> NA /\ In k (column_at jc (rows df))) /\
  Forall (fun r => List.length (cells r) =
                   S (List.length (other_positions jc
                                     (List.length (columns df)))))
         (rows out).
Proof.
  intros H Ec.
  destruct (latest_per_country_Ok _ _ H) as (jc' & jd & Ec' & Ed & _ & Hr).
  assert (jc' = jc) by congruence. subst jc'. rewrite Hr.
  assert (Hcol : forall rs,
            column_at 0 (relabel 0
              (map (fun k =>
                mkRow 0
                  (k :: map (fun j =>
                               last_valid
                                 (column_at j
                                    (filter (fun r => eqb (get jc r) k)
                                       (sort_rows [jd] (rows df)))))
                          (other_positions jc (List.length (columns df)))))
                 rs)) = rs).
  { intros rs. rewrite column_at_relabel. unfold column_at.
    rewrite map_map. unfold get. simpl. apply map_id. }
  rewrite Hcol.
  destruct (group_keys_spec jc (sort_rows [jd] (rows df))) as (Hn & Hs & Hi).
  split; [exact Hn|]. split; [exact Hs|]. split.
  - intros k. rewrite Hi, column_at_sort_rows. tauto.
  - apply Forall_forall. intros r Hin. apply relabel_In in Hin.
    destruct Hin as (r0 & Hin & <-). apply in_map_iff in Hin.
    destruct Hin as (k & <- & _). simpl. rewrite length_map. reflexivity.
Qed.

End Latest.

(** ** Positions other than the key *)

Section OtherPositions.
Context {A : Type}.

Lemma filter_map_S (f : nat -> bool) (l : list nat) :
  filter f (map S l) = map S (filter (fun j => f (S j)) l).
Proof.
  induction l as [|x l IH]; simpl; [reflexivity|].
  destruct (f (S x)); simpl; rewrite IH; reflexivity.
Qed.

Lemma map_nth_seq_all (l : list A) (d : A) :
  map (fun j => nth j l d) (seq 0 (List.length l)) = l.
Proof.
  induction l as [|a l IH]; simpl; [reflexivity|].
  rewrite <- seq_shift, map_map. simpl. rewrite IH. reflexivity.
Qed.

Lemma filter_all {B : Type} (f : B -> bool) (l : list B) :
  (forall x, f x = true) -> filter f l = l.
Proof.
  intros H. induction l as [|x l IH]; simpl; [reflexivity|].
  rewrite H, IH. reflexivity.
Qed.

(** Reading a row at every position but [jk] drops its entry at [jk]. *)
Lemma other_positions_remove_at (l : list A) (d : A) (jk : nat) :
  map (fun j => nth j l d) (other_positions jk (List.length l)) =
  remove_at jk l.
Proof.
  unfold other_positions. revert jk.
  induction l as [|a l IH]; intros jk; simpl List.length.
  - destruct jk; reflexivity.
  - rewrite <- cons_seq, <- seq_shift. cbn [filter].
    rewrite filter_map_S. destruct jk as [|jk]; cbn [Nat.eqb negb].
    + rewrite filter_all by reflexivity. rewrite map_map. simpl.
      apply map_nth_seq_all.
    + cbn [map nth remove_at]. rewrite map_map. simpl.
      rewrite IH. reflexivity.
Qed.

Lemma remove_at_length (l : list A) (jk : nat) :
  (jk < List.length l)%nat ->
  S (List.length (remove_at jk l)) = List.length l.
Proof.
  revert jk. induction l as [|a l IH]; intros jk; simpl; [lia|].
  destruct jk as [|jk]; simpl; [reflexivity|].
  intros H. rewrite IH by lia. reflexivity.
Qed.

End OtherPositions.

Lemma other_positions_length (jk n : nat) :
  (jk < n)%nat -> S (List.length (other_positions jk n)) = n.
Proof.
  intros H.
  pose proof (other_positions_remove_at (repeat tt n) tt jk) as E.
  rewrite repeat_length in E.
  apply (f_equal (@List.length unit)) in E. rewrite length_map in E.
  rewrite E. rewrite remove_at_length; rewrite repeat_length; auto.
Qed.

(** ** The left join on a key that is unique on the right *)

Lemma filter_unique_key {A : Type} (f : A -> cell) (k : cell)
  (rs : list A) :
  NoDup (map f rs) ->
  filter (fun r => eqb k (f r)) rs = [] \/
  exists r, filter (fun r => eqb k (f r)) rs = [r].
Proof.
  induction rs as [|a rs IH]; simpl; [auto|].
  intros Hnd. inversion Hnd as [|? ? Hnotin Hnd']; subst.
  destruct (eqb k (f a)) eqn:E.
  - right. exists a. f_equal.
    destruct (filter (fun r => eqb k (f r)) rs) as [|r rest] eqn:F;
      [reflexivity|].
    exfalso. apply Hnotin.
    assert (Hin : In r (filter (fun r => eqb k (f r)) rs))
      by (rewrite F; left; reflexivity).
    apply filter_In in Hin. destruct Hin as [Hin Er].
    apply eqb_eq in E. apply eqb_eq in Er.
    rewrite <- E, Er. apply in_map. exact Hin.
  - apply IH. exact Hnd'.
Qed.

Lemma flat_map_joined (jl jr width : nat) (right_rows left_rows : list row) :
  NoDup (column_at jr right_rows) ->
  Forall2 (joined_from jl jr width right_rows) left_rows
    (flat_map
       (fun l =>
          match filter (fun r => eqb (get jl l) (get jr r)) right_rows with
          | [] => [mkRow 0 (cells l ++ repeat NA width)]
          | ms => map (fun r => mkRow 0 (cells l ++ remove_at jr (cells r)))
                    ms
          end) left_rows).
Proof.
  intros Hnd. induction left_rows as [|l ls IH]; simpl; [constructor|].
  destruct (filter_unique_key (get jr) (get jl l) right_rows Hnd)
    as [E|(r & E)]; rewrite E; simpl; constructor; try exact IH.
  - exists (repeat NA width). split; [reflexivity|]. left.
    split; [|reflexivity]. intros Hin. unfold column_at in Hin.
    apply in_map_iff in Hin. destruct Hin as (r & Er & Hin).
    assert (Hf : In r (filter (fun r => eqb (get jl l) (get jr r))
                         right_rows)).
    { apply filter_In. split; [exact Hin|]. apply eqb_eq. congruence. }
    rewrite E in Hf. destruct Hf.
  - exists (remove_at jr (cells r)). split; [reflexivity|]. right.
    assert (Hf : In r (filter (fun r => eqb (get jl l) (get jr r))
                         right_rows))
      by (rewrite E; left; reflexivity).
    apply filter_In in Hf. destruct Hf as [Hin Er]. apply eqb_eq in Er.
    exists r. auto.
Qed.

Lemma Forall2_relabel (R : row -> row -> Prop) (ls rs : list row) :
  (forall l o o', cells o = cells o' -> R l o -> R l o') ->
  Forall2 R ls rs -> Forall2 R ls (relabel 0 rs).
Proof.
  intros HR H. generalize 0%Z.
  induction H as [|l o ls rs Hlo H IH]; intros n; simpl; constructor.
  - apply (HR l o); [reflexivity | exact Hlo].
  - apply IH.
Qed.

(** ** The integrator *)

Section Integrator.
Import DataCleaning.

Lemma index_of_head (c : string) (cols : list string) :
  index_of c (c :: cols) = Some 0%nat.
Proof. simpl. rewrite String.eqb_refl. reflexivity. Qed.

(** The left join when the key is unique on the right: the rows of the
    result come one by one from the rows of the left table. *)
Lemma merge_left_Ok (key ls rs : string) (left right out : frame)
  (jl jr : nat) :
  index_of key (columns left) = Some jl ->
  index_of key (columns right) = Some jr ->
  NoDup (column_at jr (rows right)) ->
  merge_left key ls rs left right = Ok out ->
  columns out =
    map (fun c => if negb (String.eqb c key) && mem c (columns right)
                  then String.append c ls else c) (columns left) ++
    map (fun c => if mem c (columns left) then String.append c rs else c)
        (remove_at jr (columns right)) /\
  map label (rows out) = map Z.of_nat (seq 0 (List.length (rows out))) /\
  Forall2 (joined_from jl jr (List.length (remove_at jr (columns right)))
             (rows right))
    (rows left) (rows out).
Proof.
  intros El Er Hnd. unfold merge_left, column_index.
  rewrite El, Er. cbn [of_option bind].
  intros H. injection H as <-. cbn [columns rows].
  split; [reflexivity|].
  split; [rewrite relabel_length; apply relabel_default_labels|].
  apply Forall2_relabel.
  - intros l o o' E (tail & Ho & Ht). exists tail. split; [congruence|].
    exact Ht.
  - apply flat_map_joined. exact Hnd.
Qed.

Lemma latest_per_country_country (df out : frame) :
  latest_per_country df = Ok out ->
  index_of "country" (columns out) = Some 0%nat.
Proof.
  intros H. destruct (latest_per_country_Ok _ _ H) as (jc & jd & _ & _ & E & _).
  rewrite E. apply index_of_head.
Qed.

(** The integrator, step by step: the two snapshots, then the join, whose
    rows come one by one from the rows of the case/death snapshot. *)
Lemma integrate_datasets_Ok (covid_df vacc_df out : frame) :
  integrate_datasets covid_df vacc_df = Ok out ->
  exists cl vl,
    latest_per_country covid_df = Ok cl /\
    latest_per_country vacc_df = Ok vl /\
    List.length (columns out) =
      (List.length (columns cl) +
       List.length (remove_at 0 (columns vl)))%nat /\
    hd_error (columns out) = Some "country" /\
    map label (rows out) = map Z.of_nat (seq 0 (List.length (rows out))) /\
    Forall2 (joined_from 0 0 (List.length (remove_at 0 (columns vl)))
               (rows vl))
      (rows cl) (rows out).
Proof.
  unfold integrate_datasets.
  destruct (latest_per_country covid_df) as [cl|] eqn:Hc; cbn [bind];
    [|discriminate].
  destruct (latest_per_country vacc_df) as [vl|] eqn:Hv; cbn [bind];
    [|discriminate].
  intros H.
  destruct (latest_per_country_Ok _ _ Hv) as (jv & jd' & Ev & _ & _ & _).
  destruct (latest_per_country_keys _ _ _ Hv Ev) as (Hnd & _).
  destruct (merge_left_Ok _ _ _ _ _ _ _ _ (latest_per_country_country _ _ Hc)
              (latest_per_country_country _ _ Hv) Hnd H)
    as (Hcols & Hlab & HF).
  exists cl, vl. split; [reflexivity|]. split; [reflexivity|].
  split; [rewrite Hcols, length_app, !length_map; reflexivity|].
  split; [|split; assumption].
  rewrite Hcols.
  destruct (latest_per_country_Ok _ _ Hc) as (jc & jd & _ & _ & -> & _).
  cbn [map app hd_error]. rewrite String.eqb_refl. reflexivity.
Qed.

Lemma latest_per_country_no_date (df : frame) :
  ~ In "date" (columns df) -> latest_per_country df = Err (KeyError "date").
Proof.
  intros H. unfold latest_per_country, sort_values, key_indices.
  cbn [mapM]. unfold column_index.
  destruct (index_of "date" (columns df)) as [jd|] eqn:Ed;
    [|reflexivity].
  exfalso. apply H. eapply index_of_Some_In. exact Ed.
Qed.

(** X8. The integrator needs the columns date and country of both tables:
    when it returns, both tables have them, and on a case/death table
    without the column date it raises the KeyError of date, which is the
    first column it asks for. *)
Theorem integrate_datasets_needs_date_country (covid_df vacc_df : frame) :
  ((exists out, integrate_datasets covid_df vacc_df = Ok out) ->
   present ["date"; "country"] covid_df /\
   present ["date"; "country"] vacc_df) /\
  (~ In "date" (columns covid_df) ->
   integrate_datasets covid_df vacc_df = Err (KeyError "date")).
Proof.
  split.
  - intros (out & H).
    destruct (integrate_datasets_Ok _ _ _ H) as (cl & vl & Hc & Hv & _).
    destruct (latest_per_country_Ok _ _ Hc) as (jc & jd & Ec & Ed & _).
    destruct (latest_per_country_Ok _ _ Hv) as (jv & jd' & Ev & Ed' & _).
    split; intros col [<-|[<-|[]]]; eapply index_of_Some_In; eassumption.
  - intros Hno. unfold integrate_datasets.
    rewrite (latest_per_country_no_date _ Hno). reflexivity.
Qed.

(** The two example tables have date and country; a case/death table
    that has only the column country makes the integrator raise. *)
Lemma integrate_datasets_needs_date_country_witness :
  integrate_datasets covid_snapshot_example vacc_snapshot_example =
    Ok snapshot_example /\
  present ["date"; "country"] covid_snapshot_example /\
  present ["date"; "country"] vacc_snapshot_example /\
  integrate_datasets (mkFrame ["country"] [mkRow 0 [Str "X"]])
    vacc_snapshot_example = Err (KeyError "date").
Proof.
  assert (H : integrate_datasets covid_snapshot_example
                vacc_snapshot_example = Ok snapshot_example)
    by (vm_compute; reflexivity).
  split; [exact H|].
  destruct (integrate_datasets_needs_date_country covid_snapshot_example
              vacc_snapshot_example) as [Hn _].
  destruct (Hn (ex_intro _ snapshot_example H)) as [Pc Pv].
  split; [exact Pc|]. split; [exact Pv|].
  apply (proj2 (integrate_datasets_needs_date_country
                  (mkFrame ["country"] [mkRow 0 [Str "X"]])
                  vacc_snapshot_example)).
  simpl. intros [E|[]]. discriminate E.
Defined.

Lemma joined_from_key (w : nat) (rs : list row) (l o : row) :
  cells l <> [] -> joined_from 0 0 w rs l o -> get 0 o = get 0 l.
Proof.
  intros Hl (tail & Ho & _). unfold get. rewrite Ho.
  destruct (cells l); [contradiction | reflexivity].
Qed.

Lemma Forall2_column_at (R : row -> row -> Prop) (ls os : list row) :
  Forall2 R ls os ->
  (forall l o, In l ls -> R l o -> get 0 o = get 0 l) ->
  column_at 0 os = column_at 0 ls.
Proof.
  induction 1 as [|l o ls os Hlo H IH]; intros HR; simpl; [reflexivity|].
  rewrite (HR l o); [|left; reflexivity | exact Hlo].
  rewrite IH; [reflexivity|]. intros l' o' Hin. apply HR. right. exact Hin.
Qed.

Lemma Forall2_In_r {X Y : Type} (R : X -> Y -> Prop) (ls : list X)
  (os : list Y) (o : Y) :
  Forall2 R ls os -> In o os -> exists l, In l ls /\ R l o.
Proof.
  induction 1 as [|l o' ls os Hlo H IH]; simpl; [tauto|].
  intros [<-|Hin]; [eauto|]. destruct (IH Hin) as (l' & Hl' & HR). eauto.
Qed.

(** X9. The integrated table has one row per country of the case/death
    table: its first column is country and lists the countries of that
    table that are not missing, each once, in ascending order; countries
    that only the vaccination table has are left out.  Its rows are
    labelled 0, 1, 2, ... and have one cell per column. *)
Theorem integrate_datasets_one_row_per_country
  (covid_df vacc_df out : frame) :
  integrate_datasets covid_df vacc_df = Ok out ->
  exists jc,
    index_of "country" (columns covid_df) = Some jc /\
    hd_error (columns out) = Some "country" /\
    NoDup (column_at 0 (rows out)) /\
    StronglySorted (fun a b => leb a b = true) (column_at 0 (rows out)) /\
    (forall k, In k (column_at 0 (rows out)) <->
               k <> NA /\ In k (column_at jc (rows covid_df))) /\
    map label (rows out) = map Z.of_nat (seq 0 (List.length (rows out))) /\
    wf out.
Proof.
  intros H.
  destruct (integrate_datasets_Ok _ _ _ H)
    as (cl & vl & Hc & Hv & Hlen & Hhd & Hlab & HF).
  destruct (latest_per_country_Ok _ _ Hc) as (jc & jd & Ec & _ & Ecl & _).
  destruct (latest_per_country_Ok _ _ Hv) as (jv & jd' & Ev & _ & Evl & _).
  destruct (latest_per_country_keys _ _ _ Hc Ec) as (Hnd & Hs & Hi & Hw).
  destruct (latest_per_country_keys _ _ _ Hv Ev) as (_ & _ & _ & Hwv).
  assert (Hcol : column_at 0 (rows out) = column_at 0 (rows cl)).
  { eapply Forall2_column_at; [exact HF|]. intros l o Hin HR.
    eapply joined_from_key; [|exact HR].
    rewrite Forall_forall in Hw. specialize (Hw l Hin).
    destruct (cells l); [discriminate | discriminate]. }
  exists jc. rewrite Hcol.
  split; [exact Ec|]. split; [exact Hhd|]. split; [exact Hnd|].
  split; [exact Hs|]. split; [exact Hi|]. split; [exact Hlab|].
  unfold wf. apply Forall_forall. intros o Ho.
  destruct (Forall2_In_r _ _ _ _ HF Ho) as (l & Hl & tail & Eo & Ht).
  rewrite Forall_forall in Hw, Hwv.
  rewrite Hlen, Eo, length_app, (Hw l Hl), Ecl. cbn [List.length].
  pose proof (index_of_lt _ _ _ Ec) as Ljc.
  pose proof (index_of_lt _ _ _ Ev) as Ljv.
  pose proof (other_positions_length jc _ Ljc) as O1.
  pose proof (remove_at_length (columns covid_df) jc Ljc) as R1.
  assert (Et : List.length tail = List.length (remove_at 0 (columns vl))).
  { destruct Ht as [[_ ->]|(r & Hr & _ & ->)].
    - apply repeat_length.
    - rewrite Evl. cbn [remove_at].
      pose proof (Hwv r Hr) as Lr.
      pose proof (other_positions_length jv _ Ljv) as O2.
      pose proof (remove_at_length (columns vacc_df) jv Ljv) as R2.
      destruct (cells r) as [|c cs]; [discriminate|].
      cbn [remove_at]. simpl in Lr. lia. }
  rewrite Et. lia.
Qed.

End Integrator.

Section IntegratorRows.
Import DataCleaning.

Lemma integrate_datasets_one_row_per_country_witness :
  integrate_datasets covid_snapshot_example vacc_snapshot_example =
    Ok snapshot_example /\
  NoDup (column_at 0 (rows snapshot_example)) /\
  wf snapshot_example.
Proof.
  assert (H : integrate_datasets covid_snapshot_example
                vacc_snapshot_example = Ok snapshot_example)
    by (vm_compute; reflexivity).
  split; [exact H|].
  destruct (integrate_datasets_one_row_per_country _ _ _ H)
    as (jc & _ & _ & Hn & _ & _ & _ & W).
  split; assumption.
Defined.

Lemma last_valid_last (s : series) (c : cell) :
  c <> NA -> last_valid (s ++ [c]) = c.
Proof.
  intros Hc. induction s as [|a s IH]; simpl.
  - destruct c; reflexivity.
  - rewrite IH. destruct c; try reflexivity. exfalso. apply Hc. reflexivity.
Qed.

Lemma complete_get (r : row) (j : nat) :
  complete r = true -> (j < List.length (cells r))%nat -> get j r <> NA.
Proof.
  unfold complete, get. intros H Hj.
  rewrite forallb_forall in H. apply notna_true. apply H.
  apply nth_In. exact Hj.
Qed.

(** The rows of one snapshot. *)
Lemma latest_per_country_row (df out : frame) (l : row) :
  latest_per_country df = Ok out -> In l (rows out) ->
  exists jc jd k,
    index_of "country" (columns df) = Some jc /\
    index_of "date" (columns df) = Some jd /\
    cells l =
      k :: map (fun j =>
                  last_valid
                    (column_at j
                       (filter (fun r => eqb (get jc r) k)
                          (sort_rows [jd] (rows df)))))
             (other_positions jc (List.length (columns df))).
Proof.
  intros H Hin.
  destruct (latest_per_country_Ok _ _ H) as (jc & jd & Ec & Ed & _ & Er).
  rewrite Er in Hin. apply relabel_In in Hin.
  destruct Hin as (r0 & Hin & <-). apply in_map_iff in Hin.
  destruct Hin as (k & <- & _). exists jc, jd, k. auto.
Qed.

Lemma StronglySorted_app_r {X : Type} (R : X -> X -> Prop) (l1 l2 : list X) :
  StronglySorted R (l1 ++ l2) -> StronglySorted R l2.
Proof.
  induction l1 as [|a l1 IH]; simpl; [auto|].
  intros H. inversion H; subst. auto.
Qed.

Lemma filter_none {X : Type} (f : X -> bool) (l : list X) :
  (forall x, In x l -> f x = false) -> filter f l = [].
Proof.
  induction l as [|a l IH]; intros H; simpl; [reflexivity|].
  rewrite (H a (or_introl eq_refl)). apply IH. intros x Hx. apply H.
  right. exact Hx.
Qed.

(** In whatever order a sort by date puts the rows, the rows of a country
    end with the row that has the one latest date of the country. *)
Lemma sorted_group_ends (jc jd : nat) (r : row) (pre post L : list row) :
  Permutation L (pre ++ r :: post) ->
  StronglySorted (fun a b => row_leb [jd] a b = true) L ->
  strictly_latest jc jd r (pre ++ post) ->
  exists m, filter (fun x => eqb (get jc x) (get jc r)) L = m ++ [r].
Proof.
  intros P S Hlate.
  assert (Hin : In r L).
  { apply (Permutation_in _ (Permutation_sym P)). apply in_or_app.
    right. left. reflexivity. }
  apply in_split in Hin. destruct Hin as (A & B & ->).
  apply Permutation_app_inv in P.
  apply StronglySorted_app_r in S. inversion S as [|? ? _ HB]; subst.
  exists (filter (fun x => eqb (get jc x) (get jc r)) A).
  rewrite filter_app. f_equal. cbn [filter]. rewrite eqb_refl. f_equal.
  rewrite Forall_forall in HB.
  apply filter_none. intros b Hb.
  destruct (eqb (get jc b) (get jc r)) eqn:Eb; [|reflexivity].
  exfalso. apply eqb_eq in Eb.
  assert (Hb' : In b (pre ++ post)).
  { apply (Permutation_in _ P). apply in_or_app. right. exact Hb. }
  destruct (Hlate b Hb' Eb) as [Hle Hne].
  specialize (HB b Hb).
  unfold row_leb, row_key in HB. cbn [map key_leb] in HB.
  destruct (eqb (get jd r) (get jd b)) eqn:Ed.
  - apply eqb_eq in Ed. congruence.
  - apply Hne. apply leb_antisym; assumption.
Qed.

(** When the rows of a country, in date order, end with a row that has no
    missing cell, the snapshot of the country is that row, key first. *)
Lemma latest_per_country_complete (df out : frame) (l r : row)
  (jc jd : nat) (m : list row) :
  wf df -> latest_per_country df = Ok out ->
  index_of "country" (columns df) = Some jc ->
  index_of "date" (columns df) = Some jd ->
  In l (rows out) ->
  filter (fun x => eqb (get jc x) (get 0 l)) (sort_rows [jd] (rows df)) =
    m ++ [r] ->
  complete r = true ->
  cells l = get 0 l :: remove_at jc (cells r) /\
  List.length (cells l) = List.length (columns df).
Proof.
  intros W H Ec Ed Hin Em Hr.
  destruct (latest_per_country_row _ _ _ H Hin)
    as (jc' & jd' & k & Ec' & Ed' & El).
  assert (jc' = jc) by congruence. assert (jd' = jd) by congruence.
  subst jc' jd'.
  assert (Ek : get 0 l = k) by (unfold get; rewrite El; reflexivity).
  rewrite Ek in *.
  assert (Hrin : In r (rows df)).
  { assert (Hf : In r (filter (fun r => eqb (get jc r) k)
                         (sort_rows [jd] (rows df))))
      by (rewrite Em; apply in_or_app; right; left; reflexivity).
    apply filter_In in Hf. destruct Hf as [Hf _].
    eapply Permutation_in; [apply sort_rows_perm | exact Hf]. }
  assert (Lr : List.length (cells r) = List.length (columns df)).
  { unfold wf in W. rewrite Forall_forall in W. apply W. exact Hrin. }
  assert (Ecells : cells l = k :: remove_at jc (cells r)).
  { rewrite El. f_equal.
    rewrite <- (other_positions_remove_at (cells r) NA jc), Lr.
    apply map_ext_in. intros j Hj. rewrite Em.
    unfold column_at. rewrite map_app. simpl.
    apply last_valid_last. apply complete_get; [exact Hr|].
    unfold other_positions in Hj. apply filter_In in Hj.
    destruct Hj as [Hj _]. apply in_seq in Hj. lia. }
  split; [exact Ecells|]. rewrite Ecells. simpl.
  rewrite remove_at_length; [exact Lr|].
  rewrite Lr. eapply index_of_lt. exact Ec.
Qed.

(** X10. When a country of the case/death table has one row with its
    latest date (every other row of the country has a strictly earlier
    date) and that row has no missing cell, the row of the country in the
    integrated table starts with that row, the country moved to the
    front.  The order in which the sort leaves rows of equal dates plays
    no part. *)
Theorem integrate_datasets_latest_row
  (covid_df vacc_df out : frame) (o r : row) (pre post : list row)
  (jc jd : nat) :
  wf covid_df ->
  integrate_datasets covid_df vacc_df = Ok out ->
  index_of "country" (columns covid_df) = Some jc ->
  index_of "date" (columns covid_df) = Some jd ->
  In o (rows out) ->
  rows covid_df = pre ++ r :: post ->
  get jc r = get 0 o ->
  strictly_latest jc jd r (pre ++ post) ->
  complete r = true ->
  firstn (List.length (columns covid_df)) (cells o) =
    get 0 o :: remove_at jc (cells r).
Proof.
  intros W H Ec Ed Ho Erows Ek Hlate Hr.
  destruct (integrate_datasets_Ok _ _ _ H)
    as (cl & vl & Hc & Hv & _ & _ & _ & HF).
  destruct (Forall2_In_r _ _ _ _ HF Ho) as (l & Hl & HJ).
  destruct (latest_per_country_row _ _ _ Hc Hl)
    as (jc' & jd' & k & _ & _ & El).
  assert (Eol : get 0 o = get 0 l).
  { eapply joined_from_key; [|exact HJ]. rewrite El. discriminate. }
  rewrite Eol in *.
  destruct (sorted_group_ends jc jd r pre post (sort_rows [jd] (rows covid_df)))
    as (m & Em).
  { rewrite <- Erows. apply sort_rows_perm. }
  { apply sort_rows_sorted. }
  { exact Hlate. }
  rewrite Ek in Em.
  destruct (latest_per_country_complete _ _ _ _ _ _ _ W Hc Ec Ed Hl Em Hr)
    as (Ecells & Len).
  destruct HJ as (tail & Eo & _).
  rewrite Eo, <- Len, firstn_app, firstn_all, Nat.sub_diag, firstn_O,
    app_nil_r.
  exact Ecells.
Qed.

(** Country X has the rows of day 2 and of day 1, in this order; the row
    of day 2 has no missing cell and is the row of X in the integrated
    table, followed by the vaccination snapshot of X. *)
Lemma integrate_datasets_latest_row_witness :
  wf covid_snapshot_example /\
  integrate_datasets covid_snapshot_example vacc_snapshot_example =
    Ok snapshot_example /\
  index_of "country" (columns covid_snapshot_example) = Some 0%nat /\
  index_of "date" (columns covid_snapshot_example) = Some 1%nat /\
  In (mkRow 0 [Str "X"; Date 2; num 20; num 5; Date 1; num 7])
     (rows snapshot_example) /\
  rows covid_snapshot_example =
    [] ++ mkRow 0 [Str "X"; Date 2; num 20; num 5] ::
    [mkRow 1 [Str "X"; Date 1; num 10; NA];
     mkRow 2 [Str "Z"; Date 1; num 1; num 9]] /\
  strictly_latest 0 1 (mkRow 0 [Str "X"; Date 2; num 20; num 5])
    ([] ++ [mkRow 1 [Str "X"; Date 1; num 10; NA];
            mkRow 2 [Str "Z"; Date 1; num 1; num 9]]) /\
  complete (mkRow 0 [Str "X"; Date 2; num 20; num 5]) = true /\
  firstn 4 [Str "X"; Date 2; num 20; num 5; Date 1; num 7] =
    [Str "X"; Date 2; num 20; num 5].
Proof.
  assert (W : wf covid_snapshot_example) by (repeat constructor).
  assert (H : integrate_datasets covid_snapshot_example
                vacc_snapshot_example = Ok snapshot_example)
    by (vm_compute; reflexivity).
  assert (Ec : index_of "country" (columns covid_snapshot_example) =
               Some 0%nat) by reflexivity.
  assert (Ed : index_of "date" (columns covid_snapshot_example) =
               Some 1%nat) by reflexivity.
  assert (Ho : In (mkRow 0 [Str "X"; Date 2; num 20; num 5; Date 1; num 7])
                  (rows snapshot_example))
    by (vm_compute; left; reflexivity).
  assert (Er : rows covid_snapshot_example =
               [] ++ mkRow 0 [Str "X"; Date 2; num 20; num 5] ::
               [mkRow 1 [Str "X"; Date 1; num 10; NA];
                mkRow 2 [Str "Z"; Date 1; num 1; num 9]]) by reflexivity.
  assert (Hl : strictly_latest 0 1 (mkRow 0 [Str "X"; Date 2; num 20; num 5])
                 ([] ++ [mkRow 1 [Str "X"; Date 1; num 10; NA];
                         mkRow 2 [Str "Z"; Date 1; num 1; num 9]])).
  { intros r' [<-|[<-|[]]] E.
    - split; [reflexivity | discriminate].
    - discriminate E. }
  assert (Hr : complete (mkRow 0 [Str "X"; Date 2; num 20; num 5]) = true)
    by reflexivity.
  repeat (split; [assumption|]).
  exact (integrate_datasets_latest_row _ _ _ _ _ _ _ _ _ W H Ec Ed Ho Er
           eq_refl Hl Hr).
Defined.

(** X11. The integrator is a left join on country: a row of the result
    whose country the vaccination table does not have ends in one missing
    value per vaccination column other than country, and a row whose
    country it has ends in the vaccination snapshot of that country, the
    country left out. *)
Theorem integrate_datasets_left_join
  (covid_df vacc_df out : frame) (jv : nat) :
  integrate_datasets covid_df vacc_df = Ok out ->
  index_of "country" (columns vacc_df) = Some jv ->
  exists vl,
    latest_per_country vacc_df = Ok vl /\
    forall o, In o (rows out) ->
      (~ In (get 0 o) (column_at jv (rows vacc_df)) ->
       skipn (List.length (columns covid_df)) (cells o) =
         repeat NA (List.length (columns vacc_df) - 1)) /\
      (In (get 0 o) (column_at jv (rows vacc_df)) ->
       exists r, In r (rows vl) /\ get 0 r = get 0 o /\
                 skipn (List.length (columns covid_df)) (cells o) =
                   tl (cells r)).
Proof.
  intros H Ev.
  destruct (integrate_datasets_Ok _ _ _ H)
    as (cl & vl & Hc & Hv & _ & _ & _ & HF).
  exists vl. split; [exact Hv|]. intros o Ho.
  destruct (Forall2_In_r _ _ _ _ HF Ho) as (l & Hl & HJ).
  destruct (latest_per_country_Ok _ _ Hc) as (jc & jd & Ec & _ & _ & _).
  destruct (latest_per_country_Ok _ _ Hv) as (jv' & jd' & Ev' & _ & Evl & _).
  assert (jv' = jv) by congruence. subst jv'.
  destruct (latest_per_country_keys _ _ _ Hc Ec) as (_ & _ & Hic & Hw).
  destruct (latest_per_country_keys _ _ _ Hv Ev) as (_ & _ & Hiv & _).
  rewrite Forall_forall in Hw. specialize (Hw l Hl).
  rewrite (other_positions_length jc _ (index_of_lt _ _ _ Ec)) in Hw.
  assert (Ek : get 0 o = get 0 l).
  { eapply joined_from_key; [|exact HJ].
    destruct (cells l); [|discriminate].
    apply index_of_lt in Ec. simpl in Hw. lia. }
  assert (Hk : get 0 l <> NA).
  { apply (Hic (get 0 l)). unfold column_at. apply in_map. exact Hl. }
  destruct HJ as (tail & Eo & Ht).
  assert (Es : skipn (List.length (columns covid_df)) (cells o) = tail).
  { rewrite Eo, <- Hw, skipn_app, skipn_all, Nat.sub_diag. reflexivity. }
  rewrite Es, Ek. split.
  - intros Hno. destruct Ht as [[_ ->]|(r & Hr & Er & _)].
    + f_equal. rewrite Evl. cbn [remove_at].
      pose proof (remove_at_length _ _ (index_of_lt _ _ _ Ev)). lia.
    + exfalso. apply Hno. apply (Hiv (get 0 l)). rewrite <- Er.
      unfold column_at. apply in_map. exact Hr.
  - intros Hyes. destruct Ht as [[Hno _]|(r & Hr & Er & ->)].
    + exfalso. apply Hno. apply Hiv. split; assumption.
    + exists r. split; [exact Hr|]. split; [exact Er|].
      destruct (cells r); reflexivity.
Qed.

Lemma integrate_datasets_left_join_witness :
  integrate_datasets covid_snapshot_example vacc_snapshot_example =
    Ok snapshot_example /\
  index_of "country" (columns vacc_snapshot_example) = Some 0%nat /\
  exists vl,
    latest_per_country vacc_snapshot_example = Ok vl.
Proof.
  assert (H : integrate_datasets covid_snapshot_example
                vacc_snapshot_example = Ok snapshot_example)
    by (vm_compute; reflexivity).
  assert (Ev : index_of "country" (columns vacc_snapshot_example) =
               Some 0%nat) by reflexivity.
  split; [exact H|]. split; [exact Ev|].
  destruct (integrate_datasets_left_join _ _ _ _ H Ev) as (vl & Hv & _).
  exists vl. exact Hv.
Defined.

End IntegratorRows.

(** * More on the median fill *)

Section MedianFill.
Import DataCleaning.

Lemma insert_number_fin (x : number) (l : list number) :
  is_fin x = true -> Forall (fun y => is_fin y = true) l ->
  Forall (fun y => is_fin y = true) (insert_number x l).
Proof.
  intros Hx. induction 1 as [|y l Hy Hl IH]; simpl.
  - repeat constructor. exact Hx.
  - destruct (number_leb x y); repeat constructor; assumption.
Qed.

Lemma sort_numbers_fin (l : list number) :
  Forall (fun y => is_fin y = true) l ->
  Forall (fun y => is_fin y = true) (sort_numbers l).
Proof.
  induction 1 as [|x l Hx Hl IH]; simpl; [constructor|].
  apply insert_number_fin; assumption.
Qed.

Lemma insert_number_length (x : number) (l : list number) :
  List.length (insert_number x l) = S (List.length l).
Proof.
  induction l as [|y l IH]; simpl; [reflexivity|].
  destruct (number_leb x y); simpl; [reflexivity|]. rewrite IH. reflexivity.
Qed.

Lemma sort_numbers_length (l : list number) :
  List.length (sort_numbers l) = List.length l.
Proof.
  induction l as [|x l IH]; simpl; [reflexivity|].
  rewrite insert_number_length, IH. reflexivity.
Qed.

(** The values of a series of finite numbers and missing values. *)
Lemma valid_numbers_fin (s : series) :
  Forall (fun c => c = NA \/ is_finite c = true) s ->
  exists xs,
    valid_numbers s = Ok xs /\
    Forall (fun y => is_fin y = true) xs /\
    (Exists (fun c => c <> NA) s -> xs <> []).
Proof.
  induction 1 as [|c s Hc Hs (xs & E & F & N)]; simpl.
  - exists []. split; [reflexivity|]. split; [constructor|].
    intros H. inversion H.
  - destruct Hc as [->|Hc].
    + exists xs. split; [exact E|]. split; [exact F|].
      intros H. inversion H as [? ? Hn|? ? Hex]; subst;
        [contradiction | auto].
    + destruct c as [|[q| |]| |]; try discriminate.
      rewrite E. cbn [bind]. exists (Fin q :: xs).
      split; [reflexivity|]. split; [constructor; auto|]. discriminate.
Qed.

Lemma nth_fin (xs : list number) (k : nat) :
  Forall (fun y => is_fin y = true) xs -> (k < List.length xs)%nat ->
  exists q, nth k xs PInf = Fin q.
Proof.
  intros F Hk. rewrite Forall_forall in F.
  specialize (F (nth k xs PInf) (nth_In _ _ Hk)).
  destruct (nth k xs PInf); try discriminate. eauto.
Qed.

(** The median of finitely many finite numbers, at least one, is a finite
    number. *)
Lemma median_of_sorted_fin (xs : list number) :
  xs <> [] -> Forall (fun y => is_fin y = true) xs ->
  is_finite (median_of_sorted xs) = true.
Proof.
  intros Hne F. unfold median_of_sorted.
  assert (Hpos : (0 < List.length xs)%nat)
    by (destruct xs; [contradiction | simpl; lia]).
  destruct (List.length xs) as [|n] eqn:L; [lia|].
  assert (H2 : (S n / 2 < S n)%nat) by (apply Nat.div_lt; lia).
  destruct (nth_fin xs (S n / 2) F ltac:(lia)) as (b & Eb).
  destruct (nth_fin xs (S n / 2 - 1) F ltac:(lia)) as (a & Ea).
  destruct (Nat.odd (S n)).
  - rewrite Eb. reflexivity.
  - rewrite Ea, Eb. reflexivity.
Qed.

Lemma median_fin (s : series) :
  Forall (fun c => c = NA \/ is_finite c = true) s ->
  Exists (fun c => c <> NA) s ->
  exists m, median s = Ok m /\ is_finite m = true.
Proof.
  intros F X. destruct (valid_numbers_fin s F) as (xs & E & Fx & N).
  unfold median. rewrite E. cbn [bind]. eexists. split; [reflexivity|].
  apply median_of_sorted_fin.
  - intros H. apply (N X).
    apply (f_equal (@List.length number)) in H.
    rewrite sort_numbers_length in H. destruct xs; [reflexivity|].
    discriminate.
  - apply sort_numbers_fin. exact Fx.
Qed.

(** X12. A median-fill column that holds finite numbers and at least one
    of them comes out of the imputer without missing values: every entry
    is defined.  (The median of finite numbers is defined; whether the
    mean of two large middle values is still finite is left to the float
    addition.  With infinite entries the median can be undefined, and the
    column then keeps its missing values.) *)
Theorem impute_median_fill_complete
  (covid_df vacc_df covid' vacc' : frame) (col : string) (j : nat) :
  wf covid_df ->
  impute_missing_values covid_df vacc_df = Ok (covid', vacc') ->
  In col socio_cols ->
  index_of col (columns covid_df) = Some j ->
  Forall (fun c => c = NA \/ is_finite c = true)
    (column_at j (rows covid_df)) ->
  Exists (fun c => c <> NA) (column_at j (rows covid_df)) ->
  Forall (fun c => c <> NA) (column_at j (rows covid')).
Proof.
  intros W Himp Hin E F X.
  destruct (impute_socio_column _ _ _ _ _ _ W Himp Hin E)
    as (_ & m & Em & ->).
  destruct (median_fin _ F X) as (m' & Em' & Hm').
  assert (m' = m) by congruence. subst m'.
  rewrite Forall_map. eapply Forall_impl; [|exact F].
  intros c [->|Hc].
  - destruct m; try discriminate Hm'. discriminate.
  - destruct c; try discriminate Hc. discriminate.
Qed.

(** The median age 30, missing, 40 comes out as 30, 35, 40. *)
Lemma impute_median_fill_complete_witness :
  wf covid_selected_example /\
  impute_missing_values covid_selected_example vacc_selected_example =
    Ok (fst imputed_example, snd imputed_example) /\
  In "median_age" socio_cols /\
  index_of "median_age" (columns covid_selected_example) = Some 3%nat /\
  Forall (fun c => c = NA \/ is_finite c = true)
    (column_at 3 (rows covid_selected_example)) /\
  Exists (fun c => c <> NA) (column_at 3 (rows covid_selected_example)) /\
  column_at 3 (rows covid_selected_example) = [num 30; NA; num 40] /\
  column_at 3 (rows (fst imputed_example)) = [num 30; num 35; num 40] /\
  Forall (fun c => c <> NA) (column_at 3 (rows (fst imputed_example))).
Proof.
  assert (W : wf covid_selected_example) by (repeat constructor).
  assert (H : impute_missing_values covid_selected_example
                vacc_selected_example =
              Ok (fst imputed_example, snd imputed_example))
    by (vm_compute; reflexivity).
  assert (Hin : In "median_age" socio_cols) by (simpl; auto).
  assert (E : index_of "median_age" (columns covid_selected_example) =
              Some 3%nat) by reflexivity.
  assert (F : Forall (fun c => c = NA \/ is_finite c = true)
                (column_at 3 (rows covid_selected_example))).
  { simpl. constructor; [right; reflexivity|].
    constructor; [left; reflexivity|].
    constructor; [right; reflexivity|]. constructor. }
  assert (X : Exists (fun c => c <> NA)
                (column_at 3 (rows covid_selected_example))).
  { simpl. constructor. discriminate. }
  repeat (split; [assumption|]).
  split; [reflexivity|].
  split; [apply series_eqb_eq; vm_compute; repeat constructor|].
  exact (impute_median_fill_complete _ _ _ _ _ _ W H Hin E F X).
Defined.

End MedianFill.

(** ** Column names of the integrated table *)

Section IntegratorColumns.
Import DataCleaning.

Lemma remove_at_In {X : Type} (j : nat) (l : list X) (x : X) :
  In x (remove_at j l) -> In x l.
Proof.
  revert j. induction l as [|a l IH]; intros j.
  - destruct j; simpl; tauto.
  - destruct j as [|j]; simpl; [auto|]. intros [->|H]; eauto.
Qed.

Lemma In_remove_at {X : Type} (j : nat) (l : list X) (x k : X) :
  nth_error l j = Some k -> x <> k -> In x l -> In x (remove_at j l).
Proof.
  revert j. induction l as [|a l IH]; intros j; [simpl; tauto|].
  destruct j as [|j]; simpl.
  - intros [= ->] Hne [->|H]; [contradiction | exact H].
  - intros E Hne [->|H]; [auto | right; eauto].
Qed.

Lemma remove_at_NoDup {X : Type} (j : nat) (l : list X) (k : X) :
  NoDup l -> nth_error l j = Some k -> ~ In k (remove_at j l).
Proof.
  revert j. induction l as [|a l IH]; intros j Hnd;
    [destruct j; simpl; tauto|].
  inversion Hnd as [|? ? Hnotin Hnd']; subst.
  destruct j as [|j]; simpl.
  - intros [= ->]. exact Hnotin.
  - intros E [->|H].
    + apply Hnotin. eapply nth_error_In. exact E.
    + apply (IH j Hnd' E H).
Qed.

Lemma remove_at_NoDup_keep {X : Type} (j : nat) (l : list X) :
  NoDup l -> NoDup (remove_at j l).
Proof.
  revert j. induction l as [|a l IH]; intros j Hnd;
    [destruct j; simpl; constructor|].
  inversion Hnd as [|? ? Hnotin Hnd']; subst.
  destruct j as [|j]; [exact Hnd'|]. simpl.
  constructor; [|apply IH; exact Hnd'].
  intros H. apply Hnotin. eapply remove_at_In. exact H.
Qed.

Lemma mem_ext (c : string) (l l' : list string) :
  (In c l <-> In c l') -> mem c l = mem c l'.
Proof.
  intros H. destruct (mem c l) eqn:E, (mem c l') eqn:E'; try reflexivity.
  - apply mem_In in E. apply H in E. apply mem_In in E. congruence.
  - apply mem_In in E'. apply H in E'. apply mem_In in E'. congruence.
Qed.

(** The key aside, a name is in a snapshot when it is in the table. *)
Lemma mem_snapshot (c : string) (cols : list string) (j : nat) :
  index_of "country" cols = Some j -> c <> "country" ->
  mem c ("country" :: remove_at j cols) = mem c cols.
Proof.
  intros E Hne. apply mem_ext. simpl. split.
  - intros [H|H]; [congruence | eapply remove_at_In; exact H].
  - intros H. right. eapply In_remove_at; [|exact Hne | exact H].
    apply index_of_Some. exact E.
Qed.

(** X14. The columns of the integrated table: country, then the other
    columns of the case/death table, then the other columns of the
    vaccination table, in their order; a name that both tables have gets
    the suffix _covid on the case/death side and _vacc on the vaccination
    side. *)
Theorem integrate_datasets_columns
  (covid_df vacc_df out : frame) (jc jv : nat) :
  NoDup (columns covid_df) -> NoDup (columns vacc_df) ->
  integrate_datasets covid_df vacc_df = Ok out ->
  index_of "country" (columns covid_df) = Some jc ->
  index_of "country" (columns vacc_df) = Some jv ->
  columns out =
    "country" ::
    map (fun c => if mem c (columns vacc_df)
                  then String.append c "_covid" else c)
        (remove_at jc (columns covid_df)) ++
    map (fun c => if mem c (columns covid_df)
                  then String.append c "_vacc" else c)
        (remove_at jv (columns vacc_df)).
Proof.
  intros Nc Nv H Ec Ev. unfold integrate_datasets in H.
  destruct (latest_per_country covid_df) as [cl|] eqn:Hc; cbn [bind] in H;
    [|discriminate].
  destruct (latest_per_country vacc_df) as [vl|] eqn:Hv; cbn [bind] in H;
    [|discriminate].
  destruct (latest_per_country_keys _ _ _ Hv Ev) as (Hnd & _).
  destruct (merge_left_Ok _ _ _ _ _ _ _ _ (latest_per_country_country _ _ Hc)
              (latest_per_country_country _ _ Hv) Hnd H) as (Hcols & _).
  destruct (latest_per_country_Ok _ _ Hc) as (jc' & jd & Ec' & _ & Ecl & _).
  destruct (latest_per_country_Ok _ _ Hv) as (jv' & jd' & Ev' & _ & Evl & _).
  assert (jc' = jc) by congruence. assert (jv' = jv) by congruence.
  subst jc' jv'. rewrite Hcols, Ecl, Evl.
  cbn [map remove_at app]. rewrite String.eqb_refl. cbn [negb andb].
  f_equal. f_equal.
  - apply map_ext_in. intros c Hin.
    assert (Hne : c <> "country").
    { intros ->. apply (remove_at_NoDup jc (columns covid_df) "country" Nc);
        [apply index_of_Some; exact Ec | exact Hin]. }
    rewrite (mem_snapshot c _ _ Ev Hne).
    destruct (String.eqb c "country") eqn:E;
      [apply String.eqb_eq in E; contradiction | reflexivity].
  - apply map_ext_in. intros c Hin.
    assert (Hne : c <> "country").
    { intros ->. apply (remove_at_NoDup jv (columns vacc_df) "country" Nv);
        [apply index_of_Some; exact Ev | exact Hin]. }
    rewrite (mem_snapshot c _ _ Ec Hne). reflexivity.
Qed.

Lemma integrate_datasets_columns_witness :
  NoDup (columns covid_snapshot_example) /\
  NoDup (columns vacc_snapshot_example) /\
  integrate_datasets covid_snapshot_example vacc_snapshot_example =
    Ok snapshot_example /\
  columns snapshot_example =
    ["country"; "date_covid"; "total_cases"; "population"; "date_vacc";
     "total_vaccinations"].
Proof.
  assert (Nc : NoDup (columns covid_snapshot_example)).
  { simpl. repeat (constructor; [simpl; intros H;
      repeat (destruct H as [H|H]; try discriminate H); exact H|]).
    constructor. }
  assert (Nv : NoDup (columns vacc_snapshot_example)).
  { simpl. repeat (constructor; [simpl; intros H;
      repeat (destruct H as [H|H]; try discriminate H); exact H|]).
    constructor. }
  assert (H : integrate_datasets covid_snapshot_example
                vacc_snapshot_example = Ok snapshot_example)
    by (vm_compute; reflexivity).
  split; [exact Nc|]. split; [exact Nv|]. split; [exact H|].
  rewrite (integrate_datasets_columns _ _ _ 0%nat 0%nat Nc Nv H
             eq_refl eq_refl).
  reflexivity.
Defined.

End IntegratorColumns.

(** * From the integrated table to the regression table *)

Section RegressionCountries.
Import DataCleaning.

Lemma create_ml_datasets_Ok (df reg cls : frame) :
  create_ml_datasets df = Ok (reg, cls) ->
  reg = dropna (mkFrame (available regression_cols df)
                  (map (project (columns df) (available regression_cols df))
                       (rows df))) /\
  cls = dropna (mkFrame (available classification_cols df)
                  (map (project (columns df)
                          (available classification_cols df))
                       (rows df))).
Proof.
  unfold create_ml_datasets. rewrite !getitem_list_available. cbn [bind].
  intros H. injection H as <- <-. auto.
Qed.

Lemma available_head (c : string) (cols : list string) (df : frame) :
  In c (columns df) -> available (c :: cols) df = c :: available cols df.
Proof.
  intros H. apply has_column_In in H. unfold available. cbn [filter].
  rewrite H. reflexivity.
Qed.

Lemma index_of_app_ge (c : string) (l1 l2 : list string) (j : nat) :
  ~ In c l1 -> index_of c (l1 ++ l2) = Some j -> (List.length l1 <= j)%nat.
Proof.
  revert j. induction l1 as [|x l1 IH]; intros j Hn; simpl; [lia|].
  destruct (String.eqb c x) eqn:E.
  - apply String.eqb_eq in E. subst x. exfalso. apply Hn. left. reflexivity.
  - destruct (index_of c (l1 ++ l2)) as [i|] eqn:Ei; simpl; [|discriminate].
    intros H. injection H as <-.
    assert (List.length l1 <= i)%nat; [|lia].
    apply IH; [|reflexivity]. intros Hin. apply Hn. right. exact Hin.
Qed.

(** No name with the suffix _covid is vaccination_speed. *)
Lemma covid_suffix_not_speed (c : string) :
  String.append c "_covid" <> "vaccination_speed".
Proof.
  intros H.
  repeat (destruct c as [|? c]; simpl in H;
          [discriminate H | injection H as _ H]).
  destruct c; discriminate H.
Qed.

Lemma hd_error_index (c : string) (cols : list string) :
  hd_error cols = Some c -> index_of c cols = Some 0%nat.
Proof.
  destruct cols as [|x cols]; simpl; [discriminate|].
  intros H. injection H as ->. rewrite String.eqb_refl. reflexivity.
Qed.

(** X15. The integrator followed by the splitter: when the vaccination
    table has the column vaccination_speed and the case/death table does
    not, every country of the regression table is a country of the
    vaccination table; the rows that the left join filled with missing
    values are dropped by the splitter. *)
Theorem regression_countries_have_vaccination
  (covid_df vacc_df out reg cls : frame) (jv : nat) :
  integrate_datasets covid_df vacc_df = Ok out ->
  create_ml_datasets out = Ok (reg, cls) ->
  index_of "country" (columns vacc_df) = Some jv ->
  In "vaccination_speed" (columns vacc_df) ->
  ~ In "vaccination_speed" (columns covid_df) ->
  forall k, In k (column_at 0 (rows reg)) ->
            In k (column_at jv (rows vacc_df)).
Proof.
  intros H Hml Ev Hvin Hcnot k Hk.
  destruct (create_ml_datasets_Ok _ _ _ Hml) as [-> _].
  pose proof H as H'. unfold integrate_datasets in H'.
  destruct (latest_per_country covid_df) as [cl|] eqn:Hc; cbn [bind] in H';
    [|discriminate].
  destruct (latest_per_country vacc_df) as [vl|] eqn:Hv; cbn [bind] in H';
    [|discriminate].
  destruct (latest_per_country_keys _ _ _ Hv Ev) as (Hnd & _ & Hiv & _).
  destruct (merge_left_Ok _ _ _ _ _ _ _ _ (latest_per_country_country _ _ Hc)
              (latest_per_country_country _ _ Hv) Hnd H')
    as (Hcols & _ & HF).
  destruct (latest_per_country_Ok _ _ Hc) as (jc & jd & Ec & _ & Ecl & _).
  destruct (latest_per_country_Ok _ _ Hv) as (jv' & jd' & Ev' & _ & Evl & _).
  assert (jv' = jv) by congruence. subst jv'.
  destruct (latest_per_country_keys _ _ _ Hc Ec) as (_ & _ & _ & Hw).
  destruct (integrate_datasets_Ok _ _ _ H) as (_ & _ & _ & _ & _ & Hhd & _).
  pose proof (hd_error_index _ _ Hhd) as E0.
  (* where vaccination_speed sits in the integrated table *)
  assert (Hleft : ~ In "vaccination_speed"
                    (map (fun c => if negb (String.eqb c "country")
                                      && mem c (columns vl)
                                   then String.append c "_covid" else c)
                       (columns cl))).
  { intros Hin. apply in_map_iff in Hin. destruct Hin as (c & Ef & Hin).
    destruct (negb (String.eqb c "country") && mem c (columns vl)).
    - apply (covid_suffix_not_speed c Ef).
    - subst c. rewrite Ecl in Hin. destruct Hin as [Hin|Hin];
        [discriminate|]. apply Hcnot. eapply remove_at_In. exact Hin. }
  assert (Hright : In "vaccination_speed" (columns out)).
  { rewrite Hcols. apply in_or_app. right. apply in_map_iff.
    exists "vaccination_speed". split.
    - destruct (mem "vaccination_speed" (columns cl)) eqn:M; [|reflexivity].
      apply mem_In in M. rewrite Ecl in M. destruct M as [M|M];
        [discriminate|]. exfalso. apply Hcnot. eapply remove_at_In. exact M.
    - rewrite Evl. cbn [remove_at].
      eapply In_remove_at; [apply index_of_Some; exact Ev | discriminate |
                            exact Hvin]. }
  destruct (index_of_In _ _ Hright) as (js & Ejs).
  assert (Hge : (List.length (columns cl) <= js)%nat).
  { rewrite Hcols in Ejs. apply index_of_app_ge in Ejs; [|exact Hleft].
    rewrite length_map in Ejs. exact Ejs. }
  (* the row of the regression table that carries k *)
  unfold dropna in Hk. cbn [rows columns] in Hk.
  unfold column_at in Hk. apply in_map_iff in Hk.
  destruct Hk as (p & Ep & Hp). apply filter_In in Hp.
  destruct Hp as [Hp Hcomplete]. apply in_map_iff in Hp.
  destruct Hp as (o & <- & Ho).
  assert (Hcountry : In "country" (columns out))
    by (eapply index_of_Some_In; exact E0).
  assert (Hnames : available regression_cols out =
                   "country" :: available (tl regression_cols) out)
    by (apply (available_head "country" (tl regression_cols) out Hcountry)).
  assert (Eko : get 0 o = k).
  { rewrite <- Ep. unfold get, project. cbn [cells]. rewrite Hnames.
    cbn [map nth]. unfold cell_of. rewrite E0. reflexivity. }
  assert (Hs : cell_of (columns out) "vaccination_speed" o <> NA).
  { apply notna_true. rewrite forallb_forall in Hcomplete.
    apply Hcomplete. unfold project. cbn [cells].
    apply in_map with (f := fun c => cell_of (columns out) c o).
    unfold available. apply filter_In. split.
    - unfold regression_cols. simpl. auto 10.
    - apply has_column_In. exact Hright. }
  unfold cell_of in Hs. rewrite Ejs in Hs.
  destruct (Forall2_In_r _ _ _ _ HF Ho) as (l & Hl & tail & Eo & Ht).
  rewrite Forall_forall in Hw. pose proof (Hw l Hl) as Ll.
  rewrite (other_positions_length jc _ (index_of_lt _ _ _ Ec)) in Ll.
  assert (Lcl : List.length (columns cl) = List.length (cells l)).
  { rewrite Ecl, Ll. cbn [List.length].
    apply remove_at_length. eapply index_of_lt. exact Ec. }
  assert (Ekl : get 0 o = get 0 l).
  { unfold get. rewrite Eo. destruct (cells l); [|reflexivity].
    apply index_of_lt in Ec. simpl in Ll. lia. }
  destruct Ht as [[_ ->]|(r & Hr & Er & _)].
  - exfalso. apply Hs. unfold get. rewrite Eo.
    rewrite app_nth2 by lia. apply nth_repeat.
  - apply Hiv. rewrite <- Eko, Ekl, <- Er. unfold column_at.
    apply in_map. exact Hr.
Qed.

Lemma regression_countries_have_vaccination_witness :
  integrate_datasets covid_merge_example vacc_merge_example =
    Ok merged_example /\
  create_ml_datasets merged_example =
    Ok (fst split_example, snd split_example) /\
  index_of "country" (columns vacc_merge_example) = Some 0%nat /\
  In "vaccination_speed" (columns vacc_merge_example) /\
  ~ In "vaccination_speed" (columns covid_merge_example) /\
  forall k, In k (column_at 0 (rows (fst split_example))) ->
            In k (column_at 0 (rows vacc_merge_example)).
Proof.
  assert (H : integrate_datasets covid_merge_example vacc_merge_example =
              Ok merged_example) by (vm_compute; reflexivity).
  assert (Hml : create_ml_datasets merged_example =
                Ok (fst split_example, snd split_example))
    by (vm_compute; reflexivity).
  assert (Ev : index_of "country" (columns vacc_merge_example) =
               Some 0%nat) by reflexivity.
  assert (Hin : In "vaccination_speed" (columns vacc_merge_example))
    by (simpl; auto).
  assert (Hnot : ~ In "vaccination_speed" (columns covid_merge_example)).
  { simpl. intros Hx.
    repeat (destruct Hx as [Hx|Hx]; try discriminate Hx). exact Hx. }
  repeat (split; [assumption|]).
  exact (regression_countries_have_vaccination _ _ _ _ _ _ H Hml Ev Hin Hnot).
Defined.

End RegressionCountries.
